(** * Widget registry publishing pipeline

    A shallow embedding of [scripts/lib/schema.ts], [scripts/lib/oras.ts]
    and of the publish script, with the properties of the registry
    specification proved about the embedding.

    Conventions of the model.
    - A JavaScript string is represented by its UTF-8 encoding, as a Rocq
      [string] (a sequence of bytes).  [===] on strings is equality of the
      byte sequences.
    - A JavaScript number that the schemas constrain with [z.int()] is a [Z].
    - A function that can throw returns a [result]; [await] is sequencing.
    - [console.log] has no effect on the values computed and is left out.
    - The functions of Node ([path.join], [fs.rm], ...), the [yaml] parser,
      the collation of [localeCompare], the string formats of zod
      ([z.url()], [z.email()], ...), the check-out of [./lib/git.ts] and
      [exec] of [./lib/process.ts] are parameters.  The two reads of
      [./lib/git.ts] at a commit are modelled from the specification. *)

From Stdlib Require Import ZArith Ascii String List Bool Lia.
From Stdlib Require Import Sorted Permutation DecimalString DecimalZ.
From stdpp Require Import base option list gmap strings.

Open Scope string_scope.
Open Scope Z_scope.
Open Scope list_scope.

Set Default Proof Using "Type".

(** ** Errors and results *)

(** One step of the path of a zod issue: an object key or an array index. *)
Inductive seg :=
| Key (k : string)
| Idx (i : nat).

(** A zod issue, identified by the path of the offending value. *)
Definition issue : Type := list seg.

(** What a failing call throws.  A [ZodError] carries its issues. *)
Inductive error :=
| SyntaxError
| ZodError (issues : list issue)
| ENOENT (file : string)
| ToolError (msg : string)
| Fatal (msg : string).

Inductive result (A : Type) :=
| Ok (a : A)
| Err (e : error).
Arguments Ok {A} a.
Arguments Err {A} e.

Definition bind {A B} (r : result A) (k : A -> result B) : result B :=
  match r with
  | Ok a => k a
  | Err e => Err e
  end.

Global Instance result_bind : MBind result := fun A B k r => bind r k.
Global Instance result_ret : MRet result := @Ok.

Definition is_ok {A} (r : result A) : bool :=
  match r with Ok _ => true | Err _ => false end.

(** The issues of a failed validation. *)
Definition issues {A} (r : result A) : list issue :=
  match r with
  | Err (ZodError l) => l
  | _ => []
  end.

(** A single issue at the value under validation. *)
Definition invalid {A} : result A := Err (ZodError [[]]).

(** The issues of a value found under a key or an index are reported under
    the longer path. *)
Definition at_seg {A} (g : seg) (r : result A) : result A :=
  match r with
  | Err (ZodError l) => Err (ZodError (map (cons g) l))
  | _ => r
  end.

(** Validation of two parts of a value: zod visits both and gathers the
    issues of both. *)
Definition both {A B} (ra : result A) (rb : result B) : result (A * B) :=
  match ra, rb with
  | Ok a, Ok b => Ok (a, b)
  | Err (ZodError l1), Err (ZodError l2) => Err (ZodError (l1 ++ l2))
  | Err e, _ => Err e
  | Ok _, Err e => Err e
  end.

(** ** Regular expressions

    The two patterns of [schema.ts] use literals, character classes,
    grouping, alternation, [*], [+], [?] and the anchors [^] and [$] at both
    ends, without flags.  [RegExp.prototype.test] with both anchors decides
    whether the whole string is in the language of the pattern between the
    anchors. *)

Module Regex.

Inductive re :=
| Void
| Eps
| Cls (f : ascii -> bool)
| Cat (r1 r2 : re)
| Alt (r1 r2 : re)
| Star (r : re).

Definition Chr (c : ascii) : re := Cls (Ascii.eqb c).
Definition Opt (r : re) : re := Alt r Eps.
Definition Plus (r : re) : re := Cat r (Star r).

Inductive matches : re -> list ascii -> Prop :=
| MEps : matches Eps []
| MCls f c : f c = true -> matches (Cls f) [c]
| MCat r1 r2 s1 s2 : matches r1 s1 -> matches r2 s2 -> matches (Cat r1 r2) (s1 ++ s2)
| MAltL r1 r2 s : matches r1 s -> matches (Alt r1 r2) s
| MAltR r1 r2 s : matches r2 s -> matches (Alt r1 r2) s
| MStar0 r : matches (Star r) []
| MStarS r s1 s2 : matches r s1 -> matches (Star r) s2 -> matches (Star r) (s1 ++ s2).

Fixpoint nullable (r : re) : bool :=
  match r with
  | Void => false
  | Eps => true
  | Cls _ => false
  | Cat r1 r2 => nullable r1 && nullable r2
  | Alt r1 r2 => nullable r1 || nullable r2
  | Star _ => true
  end.

Fixpoint deriv (c : ascii) (r : re) : re :=
  match r with
  | Void => Void
  | Eps => Void
  | Cls f => if f c then Eps else Void
  | Cat r1 r2 =>
      if nullable r1 then Alt (Cat (deriv c r1) r2) (deriv c r2)
      else Cat (deriv c r1) r2
  | Alt r1 r2 => Alt (deriv c r1) (deriv c r2)
  | Star r1 => Cat (deriv c r1) (Star r1)
  end.

Fixpoint re_match (r : re) (s : list ascii) : bool :=
  match s with
  | [] => nullable r
  | c :: s' => re_match (deriv c r) s'
  end.

(** [regex.test(s)] for a pattern [^r$]. *)
Definition test (r : re) (s : string) : bool :=
  re_match r (list_ascii_of_string s).

End Regex.

Import Regex.

(** *** Character classes of the patterns *)

Definition in_range (lo hi c : ascii) : bool :=
  (N_of_ascii lo <=? N_of_ascii c)%N && (N_of_ascii c <=? N_of_ascii hi)%N.

(** [\d], which without the [u] flag is [[0-9]]. *)
Definition cls_d : ascii -> bool := in_range "0" "9".
(** [[1-9]] *)
Definition cls_1_9 : ascii -> bool := in_range "1" "9".
(** [[a-zA-Z-]] *)
Definition cls_alpha_hyphen (c : ascii) : bool :=
  in_range "a" "z" c || in_range "A" "Z" c || Ascii.eqb c "-".
(** [[0-9a-zA-Z-]] *)
Definition cls_alnum_hyphen (c : ascii) : bool :=
  in_range "0" "9" c || in_range "a" "z" c || in_range "A" "Z" c || Ascii.eqb c "-".
(** [[a-zA-Z0-9-_]] *)
Definition cls_safe_id (c : ascii) : bool :=
  in_range "a" "z" c || in_range "A" "Z" c || in_range "0" "9" c
  || Ascii.eqb c "-" || Ascii.eqb c "_".

(** *** [SEMVER_REGEX] *)

(** The group [0|[1-9]\d*] of the three version numbers. *)
Definition re_numeric : re := Alt (Chr "0") (Cat (Cls cls_1_9) (Star (Cls cls_d))).

(** The group [0|[1-9]\d*|\d*[a-zA-Z-][0-9a-zA-Z-]*] of a pre-release
    identifier. *)
Definition re_prerelease_id : re :=
  Alt (Alt (Chr "0") (Cat (Cls cls_1_9) (Star (Cls cls_d))))
      (Cat (Star (Cls cls_d)) (Cat (Cls cls_alpha_hyphen) (Star (Cls cls_alnum_hyphen)))).

(** [[0-9a-zA-Z-]+] *)
Definition re_build_id : re := Plus (Cls cls_alnum_hyphen).

(** [x] followed by any number of [\.x]. *)
Definition re_dotted (x : re) : re := Cat x (Star (Cat (Chr ".") x)).

Definition SEMVER_REGEX : re :=
  Cat re_numeric (Cat (Chr ".") (Cat re_numeric (Cat (Chr ".") (Cat re_numeric
    (Cat (Opt (Cat (Chr "-") (re_dotted re_prerelease_id)))
         (Opt (Cat (Chr "+") (re_dotted re_build_id)))))))).

(** *** [SAFE_ID_REGEX] *)

Definition SAFE_ID_REGEX : re := Plus (Cls cls_safe_id).

(** ** The SemVer grammar of the specification

    Written from the words of the specification (the canonical grammar of
    Semantic Versioning 2.0.0: major.minor.patch, optional pre-release,
    optional build metadata), production by production, to be compared with
    [SEMVER_REGEX]. *)

Module SemVer.

Definition digit (c : ascii) : bool := in_range "0" "9" c.
Definition positive_digit (c : ascii) : bool := in_range "1" "9" c.
Definition letter (c : ascii) : bool := in_range "A" "Z" c || in_range "a" "z" c.
Definition non_digit (c : ascii) : bool := letter c || Ascii.eqb c "-".
Definition identifier_character (c : ascii) : bool := digit c || non_digit c.

Definition all (f : ascii -> bool) (s : list ascii) : Prop :=
  Forall (fun c => f c = true) s.

(** <digits> ::= <digit> | <digit> <digits> *)
Definition digits (s : list ascii) : Prop := s <> [] /\ all digit s.

(** <numeric identifier> ::= "0" | <positive digit> | <positive digit> <digits> *)
Definition numeric_identifier (s : list ascii) : Prop :=
  s = ["0"%char] \/
  exists c ds, s = c :: ds /\ positive_digit c = true /\ all digit ds.

(** <alphanumeric identifier> ::= <non-digit>
      | <non-digit> <identifier characters>
      | <identifier characters> <non-digit>
      | <identifier characters> <non-digit> <identifier characters> *)
Definition alphanumeric_identifier (s : list ascii) : Prop :=
  exists pre c post,
    s = pre ++ c :: post /\
    all identifier_character pre /\ non_digit c = true /\
    all identifier_character post.

(** <pre-release identifier> ::= <alphanumeric identifier> | <numeric identifier> *)
Definition pre_release_identifier (s : list ascii) : Prop :=
  alphanumeric_identifier s \/ numeric_identifier s.

(** <build identifier> ::= <alphanumeric identifier> | <digits> *)
Definition build_identifier (s : list ascii) : Prop :=
  alphanumeric_identifier s \/ digits s.

(** <dot-separated xs> ::= <x> | <x> "." <dot-separated xs> *)
Inductive dot_separated (P : list ascii -> Prop) : list ascii -> Prop :=
| ds_one s : P s -> dot_separated P s
| ds_more s rest :
    P s -> dot_separated P rest -> dot_separated P (s ++ "."%char :: rest).

Definition pre_release : list ascii -> Prop := dot_separated pre_release_identifier.
Definition build : list ascii -> Prop := dot_separated build_identifier.

(** <version core> ::= <major> "." <minor> "." <patch> *)
Definition version_core (s : list ascii) : Prop :=
  exists major minor patch,
    s = major ++ "."%char :: minor ++ "."%char :: patch /\
    numeric_identifier major /\ numeric_identifier minor /\
    numeric_identifier patch.

(** <valid semver> ::= <version core>
      | <version core> "-" <pre-release>
      | <version core> "+" <build>
      | <version core> "-" <pre-release> "+" <build> *)
Definition valid_semver_chars (s : list ascii) : Prop :=
  version_core s \/
  (exists v p, s = v ++ "-"%char :: p /\ version_core v /\ pre_release p) \/
  (exists v b, s = v ++ "+"%char :: b /\ version_core v /\ build b) \/
  (exists v p b, s = v ++ "-"%char :: p ++ "+"%char :: b /\
                 version_core v /\ pre_release p /\ build b).

Definition valid_semver (s : string) : Prop :=
  valid_semver_chars (list_ascii_of_string s).

(** A string with a non-digit has a first one, after digits only. *)
Definition digits_then_non_digit (s : list ascii) : Prop :=
  exists ds c post,
    s = ds ++ c :: post /\ all digit ds /\ non_digit c = true /\
    all identifier_character post.

End SemVer.

(** ** JSON values and [JSON.stringify] / [JSON.parse]

    [json] models the JavaScript values that occur in this program: the
    results of [JSON.parse] and of [yaml.parse], and the plain objects the
    script builds.  An object is the list of its properties in order; a key
    that occurs twice shadows the earlier occurrence, as in [JSON.parse].
    Numbers are integers, printed in decimal as JavaScript prints the
    integers of the schemas: a number literal with a fraction or an exponent
    is outside the model and [JSON.parse] fails on it, as it does on the
    escape of a surrogate code unit, which has no UTF-8 encoding. *)

Unset Elimination Schemes.
Inductive json :=
| JNull
| JBool (b : bool)
| JNum (n : Z)
| JStr (s : string)
| JArr (l : list json)
| JObj (l : list (string * json)).
Set Elimination Schemes.

(** Induction over [json] with the hypothesis for every element of an array
    and every property value of an object. *)
Definition json_ind (P : json -> Prop)
  (Hnull : P JNull) (Hbool : forall b, P (JBool b)) (Hnum : forall n, P (JNum n))
  (Hstr : forall s, P (JStr s))
  (Harr : forall l, Forall P l -> P (JArr l))
  (Hobj : forall l, Forall (fun m => P (snd m)) l -> P (JObj l)) :
  forall j, P j :=
  fix go (j : json) : P j :=
    match j with
    | JNull => Hnull
    | JBool b => Hbool b
    | JNum n => Hnum n
    | JStr s => Hstr s
    | JArr l =>
        Harr l ((fix all (l : list json) : Forall P l :=
                   match l with
                   | [] => List.Forall_nil P
                   | x :: l' => List.Forall_cons P x l' (go x) (all l')
                   end) l)
    | JObj l =>
        Hobj l ((fix all (l : list (string * json))
                   : Forall (fun m => P (snd m)) l :=
                   match l with
                   | [] => List.Forall_nil _
                   | m :: l' => List.Forall_cons _ m l' (go (snd m)) (all l')
                   end) l)
    end.

Module JSON.

Definition dquote : ascii := "034".
Definition backslash : ascii := "\".

Definition hex_digit (n : N) : ascii :=
  if (n <? 10)%N then ascii_of_N (48 + n) else ascii_of_N (87 + n).

(** QuoteJSONString, one code unit at a time. *)
Definition escape_char (c : ascii) (k : string) : string :=
  if Ascii.eqb c dquote then String backslash (String dquote k)
  else if Ascii.eqb c backslash then String backslash (String backslash k)
  else if Ascii.eqb c "008" then String backslash (String "b" k)
  else if Ascii.eqb c "009" then String backslash (String "t" k)
  else if Ascii.eqb c "010" then String backslash (String "n" k)
  else if Ascii.eqb c "012" then String backslash (String "f" k)
  else if Ascii.eqb c "013" then String backslash (String "r" k)
  else if (N_of_ascii c <? 32)%N then
    String backslash (String "u" (String "0" (String "0"
      (String (hex_digit (N_of_ascii c / 16))
         (String (hex_digit (N_of_ascii c mod 16)) k)))))
  else String c k.

Fixpoint escape (s : string) (k : string) : string :=
  match s with
  | EmptyString => k
  | String c s' => escape_char c (escape s' k)
  end.

Definition quote (s : string) (k : string) : string :=
  String dquote (escape s (String dquote k)).

Definition print_num (n : Z) (k : string) : string :=
  NilZero.string_of_int (Z.to_int n) +:+ k.

(** [print j k] is the text of [j] followed by [k]. *)
Fixpoint print (j : json) (k : string) {struct j} : string :=
  match j with
  | JNull => "null" +:+ k
  | JBool true => "true" +:+ k
  | JBool false => "false" +:+ k
  | JNum n => print_num n k
  | JStr s => quote s k
  | JArr [] => String "[" (String "]" k)
  | JArr (x :: l) =>
      String "[" (print x
        (fold_right (fun y acc => String "," (print y acc)) (String "]" k) l))
  | JObj [] => String "{" (String "}" k)
  | JObj ((key, x) :: l) =>
      String "{" (quote key (String ":" (print x
        (fold_right
           (fun m acc =>
              String "," (quote (fst m) (String ":" (print (snd m) acc))))
           (String "}" k) l))))
  end.

Definition stringify (j : json) : string := print j "".

(** *** Parsing *)

Definition is_ws (c : ascii) : bool :=
  Ascii.eqb c " " || Ascii.eqb c "009" || Ascii.eqb c "010" || Ascii.eqb c "013".

Fixpoint skip_ws (s : string) : string :=
  match s with
  | String c r => if is_ws c then skip_ws r else s
  | EmptyString => s
  end.

Definition hex_value (c : ascii) : option N :=
  let n := N_of_ascii c in
  if in_range "0" "9" c then Some (n - 48)%N
  else if in_range "a" "f" c then Some (n - 87)%N
  else if in_range "A" "F" c then Some (n - 55)%N
  else None.

(** The UTF-8 encoding of a code unit of the basic plane that is not a
    surrogate, in front of [k]. *)
Definition utf8_of_code_unit (n : N) (k : string) : option string :=
  if (n <? 128)%N then Some (String (ascii_of_N n) k)
  else if (n <? 2048)%N then
    Some (String (ascii_of_N (192 + n / 64))
           (String (ascii_of_N (128 + n mod 64)) k))
  else if (55296 <=? n)%N && (n <? 57344)%N then None
  else
    Some (String (ascii_of_N (224 + n / 4096))
           (String (ascii_of_N (128 + (n / 64) mod 64))
              (String (ascii_of_N (128 + n mod 64)) k))).

Definition simple_escape (e : ascii) : option ascii :=
  if Ascii.eqb e dquote then Some dquote
  else if Ascii.eqb e backslash then Some backslash
  else if Ascii.eqb e "/" then Some "/"%char
  else if Ascii.eqb e "b" then Some "008"%char
  else if Ascii.eqb e "f" then Some "012"%char
  else if Ascii.eqb e "n" then Some "010"%char
  else if Ascii.eqb e "r" then Some "013"%char
  else if Ascii.eqb e "t" then Some "009"%char
  else None.

(** The characters of a string literal after its opening quote, up to and
    including the closing quote. *)
Fixpoint parse_chars (s : string) : option (string * string) :=
  match s with
  | EmptyString => None
  | String c r =>
      if Ascii.eqb c dquote then Some (EmptyString, r)
      else if Ascii.eqb c backslash then
        match r with
        | EmptyString => None
        | String e r1 =>
            match simple_escape e with
            | Some ch =>
                '(str, rest) ← parse_chars r1; Some (String ch str, rest)
            | None =>
                if Ascii.eqb e "u" then
                  match r1 with
                  | String h1 (String h2 (String h3 (String h4 r2))) =>
                      a ← hex_value h1; b ← hex_value h2;
                      c' ← hex_value h3; d ← hex_value h4;
                      '(str, rest) ← parse_chars r2;
                      str' ← utf8_of_code_unit (a * 4096 + b * 256 + c' * 16 + d)%N str;
                      Some (str', rest)
                  | _ => None
                  end
                else None
            end
        end
      else if (N_of_ascii c <? 32)%N then None
      else '(str, rest) ← parse_chars r; Some (String c str, rest)
  end.

Fixpoint span_digits (s : string) : string * string :=
  match s with
  | String c r =>
      if cls_d c then let '(ds, rest) := span_digits r in (String c ds, rest)
      else (EmptyString, s)
  | EmptyString => (EmptyString, EmptyString)
  end.

Definition starts_fraction_or_exponent (s : string) : bool :=
  match s with
  | String c _ => Ascii.eqb c "." || Ascii.eqb c "e" || Ascii.eqb c "E"
  | EmptyString => false
  end.

(** An integer literal: [0] or a non-zero digit followed by digits. *)
Definition parse_nat (s : string) : option (Z * string) :=
  let '(ds, rest) := span_digits s in
  match ds with
  | EmptyString => None
  | String d ds' =>
      if Ascii.eqb d "0" && negb (String.eqb ds' "") then None
      else if starts_fraction_or_exponent rest then None
      else u ← NilEmpty.uint_of_string ds; Some (Z.of_uint u, rest)
  end.

Definition parse_number (s : string) : option (Z * string) :=
  match s with
  | String c r =>
      if Ascii.eqb c "-" then '(n, rest) ← parse_nat r; Some (- n, rest)
      else parse_nat s
  | EmptyString => None
  end.

Fixpoint expect (w s : string) : option string :=
  match w, s with
  | EmptyString, _ => Some s
  | String a w', String b s' => if Ascii.eqb a b then expect w' s' else None
  | _, _ => None
  end.

(** The rest of [s] after optional white space and the character [c]. *)
Definition next_is (c : ascii) (s : string) : option string :=
  match skip_ws s with
  | String c' r => if Ascii.eqb c' c then Some r else None
  | EmptyString => None
  end.

Fixpoint parse_value (fuel : nat) (s : string) : option (json * string) :=
  match fuel with
  | O => None
  | S fuel' =>
      match skip_ws s with
      | EmptyString => None
      | String c r =>
          if Ascii.eqb c "n" then rest ← expect "ull" r; Some (JNull, rest)
          else if Ascii.eqb c "t" then rest ← expect "rue" r; Some (JBool true, rest)
          else if Ascii.eqb c "f" then rest ← expect "alse" r; Some (JBool false, rest)
          else if Ascii.eqb c dquote then
            '(str, rest) ← parse_chars r; Some (JStr str, rest)
          else if Ascii.eqb c "[" then
            match next_is "]" r with
            | Some rest => Some (JArr [], rest)
            | None => '(l, rest) ← parse_elements fuel' r; Some (JArr l, rest)
            end
          else if Ascii.eqb c "{" then
            match next_is "}" r with
            | Some rest => Some (JObj [], rest)
            | None => '(l, rest) ← parse_members fuel' r; Some (JObj l, rest)
            end
          else '(n, rest) ← parse_number (String c r); Some (JNum n, rest)
      end
  end
with parse_elements (fuel : nat) (s : string) : option (list json * string) :=
  match fuel with
  | O => None
  | S fuel' =>
      '(x, r) ← parse_value fuel' s;
      match next_is "," r with
      | Some r' => '(l, rest) ← parse_elements fuel' r'; Some (x :: l, rest)
      | None => rest ← next_is "]" r; Some ([x], rest)
      end
  end
with parse_members (fuel : nat) (s : string)
  : option (list (string * json) * string) :=
  match fuel with
  | O => None
  | S fuel' =>
      r ← next_is dquote s;
      '(key, r1) ← parse_chars r;
      r2 ← next_is ":" r1;
      '(x, r3) ← parse_value fuel' r2;
      match next_is "," r3 with
      | Some r4 => '(l, rest) ← parse_members fuel' r4; Some ((key, x) :: l, rest)
      | None => rest ← next_is "}" r3; Some ([(key, x)], rest)
      end
  end.

Definition parse (s : string) : result json :=
  match parse_value (String.length s) s with
  | Some (j, rest) =>
      match skip_ws rest with
      | EmptyString => Ok j
      | _ => Err SyntaxError
      end
  | None => Err SyntaxError
  end.

(** *** Notions for the proof that [parse] inverts [stringify] *)

(** What may follow a value in the text that [print] produces. *)
Definition delim (k : string) : Prop :=
  match k with
  | EmptyString => True
  | String c _ => c = ","%char \/ c = "]"%char \/ c = "}"%char
  end.

(** The first character of a number: a digit or the sign. *)
Definition number_start (c : ascii) : bool := Ascii.eqb c "-" || cls_d c.

(** The first character of the text of a value. *)
Definition value_start (c : ascii) : bool :=
  Ascii.eqb c "n" || Ascii.eqb c "t" || Ascii.eqb c "f" || Ascii.eqb c dquote
  || Ascii.eqb c "[" || Ascii.eqb c "{" || number_start c.

(** Fuel that suffices to parse the text of a value back. *)
Fixpoint size (j : json) : nat :=
  match j with
  | JArr l => S (fold_right (fun y acc => S (size y + acc)) 0%nat l)
  | JObj l => S (fold_right (fun m acc => S (size (snd m) + acc)) 0%nat l)
  | _ => 1
  end.

Definition parses_back (j : json) : Prop :=
  forall k fuel, delim k -> (size j <= fuel)%nat ->
    parse_value fuel (print j k) = Some (j, k).

End JSON.

(** ** The values of [schema.ts]

    One record per [z.infer] type, each in a module of its name. *)

Module Publisher.
Record t := mk {
    organization : option Z;
    user : option Z;
    extraMaintainers : option (list Z) }.
End Publisher.

Module Widget.
Record t := mk {
    version : string;
    repo : string;
    commit : string;
    path : option string }.
End Widget.

(** An author of a manifest: a string, or an object with a name and
    an optional email and url. *)
Inductive WidgetManifestAuthor :=
| AuthorString (s : string)
| AuthorObject (name : string) (email url : option string).

Module WidgetManifest.
Record t := mk {
    name : string;
    version : string;
    authors : list WidgetManifestAuthor;
    license : string;
    description : string;
    homepage : string }.
End WidgetManifest.

Module PublishPlanEntry.
Record t := mk {
    handle : string;
    id : string;
    widget : Widget.t;
    manifest : WidgetManifest.t }.
End PublishPlanEntry.

Module OrasPushOutput.
Record t := mk {
    mediaType : string;
    digest : string;
    size : Z;
    urls : option (list string);
    annotations : option (gmap string string);
    data : option string;
    platform : option unit;
    artifactType : option string;
    reference : string;
    referenceAsTags : list string }.
End OrasPushOutput.

Module RegistryEntryRelease.
Record t := mk {
    version : string;
    publishedAt : string;
    digest : string }.
End RegistryEntryRelease.

Module RegistryEntry.
Record t := mk {
    handle : string;
    id : string;
    name : string;
    authors : list WidgetManifestAuthor;
    description : string;
    releases : list RegistryEntryRelease.t }.
End RegistryEntry.

Module RegistryIndex.
Record t := mk {
    api : Z;
    generatedAt : string;
    widgets : list RegistryEntry.t }.
End RegistryIndex.

(** ** The schema layer

    A zod schema is a function from a value to the validated value or a
    [ZodError].  The string formats of zod are parameters: [z.email()],
    [z.iso.datetime()], [z.base64()] and [z.hash()] test the string;
    [z.url()] hands the string to the [URL] constructor and returns it, in
    some versions of zod trimmed or normalised.  The length that [.max()]
    compares with its bound is a parameter as well, since the sources name
    no version of zod; [js_length] below is [String.prototype.length]. *)

Definition schema (A : Type) : Type := json -> result A.

Record Formats := {
  fmt_url : string -> option string;
  fmt_email : string -> bool;
  fmt_iso_datetime : string -> bool;
  fmt_base64 : string -> bool;
  fmt_hash_sha1 : string -> bool;
  fmt_hash_sha256 : string -> bool;
  (** the length that [.max()] compares with its bound *)
  fmt_length : string -> nat }.

(** [String.prototype.length]: the number of UTF-16 code units, read off
    the UTF-8 bytes. *)
Definition utf16_units (c : ascii) : nat :=
  let n := N_of_ascii c in
  if (128 <=? n)%N && (n <? 192)%N then 0%nat
  else if (240 <=? n)%N then 2%nat
  else 1%nat.

Fixpoint js_length (s : string) : nat :=
  match s with
  | EmptyString => 0%nat
  | String c s' => (utf16_units c + js_length s')%nat
  end.

(** The value of a property: the last occurrence of the key. *)
Definition field (k : string) (o : list (string * json)) : option json :=
  fold_left (fun acc m => if String.eqb (fst m) k then Some (snd m) else acc)
            o None.

(** The own properties of an object: occurrences that a later one shadows
    are dropped. *)
Fixpoint props (o : list (string * json)) : list (string * json) :=
  match o with
  | [] => []
  | m :: o' =>
      if existsb (fun m' => String.eqb (fst m') (fst m)) o' then props o'
      else m :: props o'
  end.

(** [x !== undefined] *)
Definition defined {A} (x : option A) : bool :=
  match x with Some _ => true | None => false end.

(** [Number.MAX_SAFE_INTEGER] *)
Definition MAX_SAFE_INTEGER : Z := 9007199254740991.

(** [z.string()] *)
Definition z_string : schema string :=
  fun j => match j with JStr s => Ok s | _ => invalid end.

(** A schema with a check of the value it returns, as [.regex()], [.max()],
    [.min()] and [.refine()] add one. *)
Definition z_check {A} (s : schema A) (ok : A -> bool) : schema A :=
  fun j => a ← s j; if ok a then Ok a else invalid.

(** [z.int()]: a safe integer. *)
Definition z_int : schema Z :=
  fun j =>
    match j with
    | JNum n =>
        if (- MAX_SAFE_INTEGER <=? n) && (n <=? MAX_SAFE_INTEGER) then Ok n
        else invalid
    | _ => invalid
    end.

(** The elements of an array from index [i] on. *)
Fixpoint z_elements {A} (s : schema A) (i : nat) (l : list json)
  : result (list A) :=
  match l with
  | [] => Ok []
  | x :: l' =>
      '(a, r) ← both (at_seg (Idx i) (s x)) (z_elements s (S i) l');
      Ok (a :: r)
  end.

(** [z.array(s)] *)
Definition z_array {A} (s : schema A) : schema (list A) :=
  fun j => match j with JArr l => z_elements s 0 l | _ => invalid end.

(** [z.union([a, b])]: the first option that accepts the value. *)
Definition z_union {A} (a b : schema A) : schema A :=
  fun j =>
    match a j with
    | Ok x => Ok x
    | Err _ => match b j with Ok y => Ok y | Err _ => invalid end
    end.

(** [z.object({...})]: the value is an object, and [body] validates its
    properties; properties that the schema does not name are dropped. *)
Definition z_object {A} (body : list (string * json) -> result A) : schema A :=
  fun j => match j with JObj o => body o | _ => invalid end.

(** A property of an object schema. *)
Definition required {A} (k : string) (s : schema A) (o : list (string * json))
  : result A :=
  match field k o with
  | Some v => at_seg (Key k) (s v)
  | None => at_seg (Key k) invalid
  end.

(** A property wrapped in [.optional()]. *)
Definition optional {A} (k : string) (s : schema A) (o : list (string * json))
  : result (option A) :=
  match field k o with
  | Some v => at_seg (Key k) (a ← s v; Ok (Some a))
  | None => Ok None
  end.

(** The properties of a record.  The key of a property is validated, and
    its value when the key has passed; a key that fails is one issue at that
    key, and its value is not looked at.  zod skips the property named
    [__proto__]. *)
Fixpoint z_entries {A} (ks : schema string) (vs : schema A)
  (o : list (string * json)) : result (list (string * A)) :=
  match o with
  | [] => Ok []
  | (k, v) :: o' =>
      if String.eqb k "__proto__" then z_entries ks vs o'
      else
        '(kv, r) ← both (at_seg (Key k)
                           match ks (JStr k) with
                           | Ok k' => a ← vs v; Ok (k', a)
                           | Err _ => invalid
                           end)
                        (z_entries ks vs o');
        Ok (kv :: r)
  end.

(** [z.record(keys, values)] *)
Definition z_record {A} (ks : schema string) (vs : schema A)
  : schema (gmap string A) :=
  z_object (fun o => l ← z_entries ks vs (props o); Ok (list_to_map l)).

(** [z.string().regex(r)] *)
Definition z_regex (r : Regex.re) : schema string :=
  z_check z_string (Regex.test r).

(** [z.string().max(n)], for the length [len] of a string. *)
Definition z_max (len : string -> nat) (n : nat) : schema string :=
  z_check z_string (fun s => (len s <=? n)%nat).

(** [s.min(1)] on an array schema. *)
Definition z_min1 {A} (s : schema (list A)) : schema (list A) :=
  z_check s (fun l => negb (Nat.eqb (length l) 0)).

(** A string format that tests the string. *)
Definition z_format (f : string -> bool) : schema string := z_check z_string f.

Section Schemas.

Variable F : Formats.

(** [z.url()] *)
Definition z_url : schema string :=
  fun j => s ← z_string j;
           match fmt_url F s with Some s' => Ok s' | None => invalid end.

Definition PublisherSchema : schema Publisher.t :=
  z_check
    (z_object (fun o =>
       '(organization, (user, extraMaintainers)) ←
         both (optional "organization" z_int o)
        (both (optional "user" z_int o)
              (optional "extraMaintainers" (z_array z_int) o));
       Ok (Publisher.mk organization user extraMaintainers)))
    (fun data =>
       xorb (defined (Publisher.organization data))
            (defined (Publisher.user data))).

Definition WidgetSchema : schema Widget.t :=
  z_object (fun o =>
    '(version, (repo, (commit, path))) ←
      both (required "version" (z_regex SEMVER_REGEX) o)
     (both (required "repo" z_url o)
     (both (required "commit"
              (z_union (z_format (fmt_hash_sha1 F))
                       (z_format (fmt_hash_sha256 F))) o)
           (optional "path" z_string o)));
    Ok (Widget.mk version repo commit path)).

Definition WidgetsSchema : schema (gmap string Widget.t) :=
  z_record (z_regex SAFE_ID_REGEX) WidgetSchema.

Definition WidgetManifestAuthorSchema : schema WidgetManifestAuthor :=
  z_union
    (fun j => s ← z_string j; Ok (AuthorString s))
    (z_object (fun o =>
       '(name, (email, url)) ←
         both (required "name" z_string o)
        (both (optional "email" (z_format (fmt_email F)) o)
              (optional "url" z_url o));
       Ok (AuthorObject name email url))).

Definition WidgetManifestSchema : schema WidgetManifest.t :=
  z_object (fun o =>
    '(name, (version, (authors, (license, (description, homepage))))) ←
      both (required "name" (z_max (fmt_length F) 80) o)
     (both (required "version" (z_regex SEMVER_REGEX) o)
     (both (required "authors" (z_min1 (z_array WidgetManifestAuthorSchema)) o)
     (both (required "license" z_string o)
     (both (required "description" (z_max (fmt_length F) 160) o)
           (required "homepage" z_url o)))));
    Ok (WidgetManifest.mk name version authors license description homepage)).

Definition PublishPlanEntrySchema : schema PublishPlanEntry.t :=
  z_object (fun o =>
    '(handle, (id, (widget, manifest))) ←
      both (required "handle" z_string o)
     (both (required "id" z_string o)
     (both (required "widget" WidgetSchema o)
           (required "manifest" WidgetManifestSchema o)));
    Ok (PublishPlanEntry.mk handle id widget manifest)).

Definition PublishPlanSchema : schema (list PublishPlanEntry.t) :=
  z_array PublishPlanEntrySchema.

Definition OrasPushOutputSchema : schema OrasPushOutput.t :=
  z_object (fun o =>
    '(mediaType, (digest, (size, (urls, (annotations, (data, (platform,
       (artifactType, (reference, referenceAsTags))))))))) ←
      both (required "mediaType" z_string o)
     (both (required "digest" z_string o)
     (both (required "size" z_int o)
     (both (optional "urls" (z_array z_string) o)
     (both (optional "annotations" (z_record z_string z_string) o)
     (both (optional "data" (z_format (fmt_base64 F)) o)
     (both (optional "platform" (z_object (fun _ => Ok tt)) o)
     (both (optional "artifactType" z_string o)
     (both (required "reference" z_string o)
           (required "referenceAsTags" (z_array z_string) o)))))))));
    Ok (OrasPushOutput.mk mediaType digest size urls annotations data platform
          artifactType reference referenceAsTags)).

Definition RegistryEntryReleaseSchema : schema RegistryEntryRelease.t :=
  z_object (fun o =>
    '(version, (publishedAt, digest)) ←
      both (required "version" z_string o)
     (both (required "publishedAt" (z_format (fmt_iso_datetime F)) o)
           (required "digest" z_string o));
    Ok (RegistryEntryRelease.mk version publishedAt digest)).

Definition RegistryEntrySchema : schema RegistryEntry.t :=
  z_object (fun o =>
    '(handle, (id, (name, (authors, (description, releases))))) ←
      both (required "handle" z_string o)
     (both (required "id" z_string o)
     (both (required "name" z_string o)
     (both (required "authors" (z_min1 (z_array WidgetManifestAuthorSchema)) o)
     (both (required "description" z_string o)
           (required "releases" (z_min1 (z_array RegistryEntryReleaseSchema)) o)))));
    Ok (RegistryEntry.mk handle id name authors description releases)).

Definition RegistryIndexSchema : schema RegistryIndex.t :=
  z_object (fun o =>
    '(api, (generatedAt, widgets)) ←
      both (required "api" z_int o)
     (both (required "generatedAt" (z_format (fmt_iso_datetime F)) o)
           (required "widgets" (z_array RegistryEntrySchema) o));
    Ok (RegistryIndex.mk api generatedAt widgets)).

End Schemas.

(** ** The JavaScript objects behind the typed values

    What [JSON.stringify] sees: the properties in the order in which the
    schema or the object literal of the script creates them, a property
    that is [undefined] left out. *)

Definition opt_prop (k : string) (v : option string) : list (string * json) :=
  match v with
  | Some s => [(k, JStr s)]
  | None => []
  end.

Definition author_value (a : WidgetManifestAuthor) : json :=
  match a with
  | AuthorString s => JStr s
  | AuthorObject name email url =>
      JObj (("name", JStr name) :: opt_prop "email" email ++ opt_prop "url" url)
  end.

Definition release_value (r : RegistryEntryRelease.t) : json :=
  JObj [("version", JStr (RegistryEntryRelease.version r));
        ("publishedAt", JStr (RegistryEntryRelease.publishedAt r));
        ("digest", JStr (RegistryEntryRelease.digest r))].

Definition entry_value (e : RegistryEntry.t) : json :=
  JObj [("handle", JStr (RegistryEntry.handle e));
        ("id", JStr (RegistryEntry.id e));
        ("name", JStr (RegistryEntry.name e));
        ("authors", JArr (map author_value (RegistryEntry.authors e)));
        ("description", JStr (RegistryEntry.description e));
        ("releases", JArr (map release_value (RegistryEntry.releases e)))].

Definition index_value (index : RegistryIndex.t) : json :=
  JObj [("api", JNum (RegistryIndex.api index));
        ("generatedAt", JStr (RegistryIndex.generatedAt index));
        ("widgets", JArr (map entry_value (RegistryIndex.widgets index)))].

(** ** The platform

    The pure functions of Node and of the [yaml] package that the scripts
    call. *)

Record Platform := {
  (** [path.join(a, b)] of [node:path/posix] *)
  path_join : string -> string -> string;
  (** [path.resolve(p)] in the working directory of the process *)
  path_resolve : string -> string;
  (** [yaml.parse] *)
  yaml_parse : string -> result json;
  (** [a.localeCompare(b)] in the locale of the process *)
  localeCompare : string -> string -> Z;
  (** [Date.prototype.toISOString] of a time value *)
  toISOString : Z -> string;
  formats : Formats }.

(** ** The file system

    The files are a map from a path to the text of the file.
    [fs.readFile(f, "utf-8")] throws when there is no file at [f];
    [fs.writeFile] replaces the whole file. *)

Definition readFile (files : gmap string string) (f : string) : result string :=
  match files !! f with
  | Some content => Ok content
  | None => Err (ENOENT f)
  end.

Definition writeFile (files : gmap string string) (f content : string)
  : gmap string string :=
  <[f := content]> files.

(** ** Lines of the publish plan *)

Definition LF : ascii := "010".
Definition CR : ascii := "013".

(** [content.split(/\r?\n/)] *)
Fixpoint split_lines (s : string) : list string :=
  match s with
  | EmptyString => [EmptyString]
  | String c r =>
      if Ascii.eqb c LF then EmptyString :: split_lines r
      else
        match r with
        | String c' r' =>
            if Ascii.eqb c CR && Ascii.eqb c' LF
            then EmptyString :: split_lines r'
            else match split_lines r with
                 | l :: ls => String c l :: ls
                 | [] => [String c EmptyString]
                 end
        | EmptyString => [String c EmptyString]
        end
  end.

(** The rest of [s] after one white space or line terminator character of
    ECMAScript at its start, in UTF-8: U+0009 to U+000D, U+0020, U+00A0,
    U+1680, U+2000 to U+200A, U+2028, U+2029, U+202F, U+205F, U+3000 and
    U+FEFF. *)
Definition strip_space (s : string) : option string :=
  match s with
  | String a r =>
      let x := N_of_ascii a in
      if ((9 <=? x) && (x <=? 13) || (x =? 32))%N then Some r
      else
        match r with
        | String b r1 =>
            let y := N_of_ascii b in
            if ((x =? 194) && (y =? 160))%N then Some r1
            else
              match r1 with
              | String c r2 =>
                  let z := N_of_ascii c in
                  if ((x =? 225) && (y =? 154) && (z =? 128)
                      || (x =? 226) && (y =? 128)
                         && ((128 <=? z) && (z <=? 138) || (z =? 168)
                             || (z =? 169) || (z =? 175))
                      || (x =? 226) && (y =? 129) && (z =? 159)
                      || (x =? 227) && (y =? 128) && (z =? 128)
                      || (x =? 239) && (y =? 187) && (z =? 191))%N
                  then Some r2 else None
              | EmptyString => None
              end
        | EmptyString => None
        end
  | EmptyString => None
  end.

Fixpoint trim_start_fuel (fuel : nat) (s : string) : string :=
  match fuel with
  | O => s
  | S fuel' =>
      match strip_space s with
      | Some r => trim_start_fuel fuel' r
      | None => s
      end
  end.

Definition trimStart (s : string) : string :=
  trim_start_fuel (String.length s) s.

Fixpoint trimEnd (s : string) : string :=
  match s with
  | EmptyString => EmptyString
  | String c r =>
      if String.eqb (trimStart s) EmptyString then EmptyString
      else String c (trimEnd r)
  end.

(** [line.trim()] *)
Definition trim (s : string) : string := trimEnd (trimStart s).

Fixpoint parse_lines (lines : list string) : result (list json) :=
  match lines with
  | [] => Ok []
  | line :: rest =>
      j ← JSON.parse line; l ← parse_lines rest; Ok (j :: l)
  end.

(** ** The parse functions of [schema.ts] *)

Section Parse.

Variable P : Platform.
Let F := formats P.

(** The files of the repository at a commit: [tree commit] maps the paths of
    the files at [commit] to their contents. *)
Variable tree : string -> gmap string string.

(** Modelled from the spec: [fileExistsAtCommit] of [./lib/git.ts], which is
    not among the sources.  The specification describes it as the test of
    the existence of a single file at a given commit, without a
    check-out. *)
Definition fileExistsAtCommit (file commit : string) : result bool :=
  Ok (bool_decide (is_Some (tree commit !! file))).

(** Modelled from the spec: [showFileAtCommit] of [./lib/git.ts], which is
    not among the sources.  The specification describes it as the read of
    the contents of a single file at a given commit; the read of a file
    that the commit does not have is an error of the tool. *)
Definition showFileAtCommit (file commit : string) : result string :=
  match tree commit !! file with
  | Some content => Ok content
  | None => Err (ToolError file)
  end.

Definition parsePublisher (entry commit : string)
  : result (option Publisher.t) :=
  let entryFile := path_join P "publishers" (entry +:+ ".yaml") in
  ex ← fileExistsAtCommit entryFile commit;
  if negb ex then Ok None
  else
    content ← showFileAtCommit entryFile commit;
    data ← yaml_parse P content;
    r ← PublisherSchema data;
    Ok (Some r).

Definition parseWidgets (entry commit : string)
  : result (option (gmap string Widget.t)) :=
  let entryFile := path_join P "widgets" (entry +:+ ".yaml") in
  ex ← fileExistsAtCommit entryFile commit;
  if negb ex then Ok None
  else
    content ← showFileAtCommit entryFile commit;
    data ← yaml_parse P content;
    r ← WidgetsSchema F data;
    Ok (Some r).

Definition parseWidgetManifest (files : gmap string string) (dir : string)
  : result WidgetManifest.t :=
  let manifestFile := path_join P dir "deskulpt.widget.json" in
  content ← readFile files manifestFile;
  data ← JSON.parse content;
  WidgetManifestSchema F data.

Definition parsePublishPlan (files : gmap string string) (file : string)
  : result (list PublishPlanEntry.t) :=
  content ← readFile files file;
  data ← parse_lines
           (filter (fun line => line <> EmptyString)
                   (map trim (split_lines content)));
  PublishPlanSchema F (JArr data).

Definition parseOrasPushOutput (output : string) : result OrasPushOutput.t :=
  obj ← JSON.parse output;
  OrasPushOutputSchema F obj.

Definition parseRegistryIndex (files : gmap string string) (dir : string)
  : result RegistryIndex.t :=
  let indexFile := path_join P dir "index.json" in
  content ← readFile files indexFile;
  data ← JSON.parse content;
  RegistryIndexSchema F data.

Definition writeRegistryIndex (files : gmap string string) (dir : string)
  (index : RegistryIndex.t) : gmap string string :=
  let indexFile := path_join P dir "index.json" in
  let content := JSON.stringify (index_value index) in
  writeFile files indexFile content.

End Parse.

(** ** The artifact pusher, [oras.ts] *)

Definition standardAnnotations (widget : Widget.t) (manifest : WidgetManifest.t)
  : list (string * option string) :=
  [("created", None);
   ("authors",
    Some (JSON.stringify (JArr (map author_value (WidgetManifest.authors manifest)))));
   ("url", Some (WidgetManifest.homepage manifest));
   ("source", Some (Widget.repo widget +:+ "@" +:+ Widget.commit widget));
   ("version", Some (Widget.version widget));
   ("revision", Some (Widget.commit widget));
   ("vendor", Some "Deskulpt");
   ("licenses", Some (WidgetManifest.license manifest));
   ("title", Some (WidgetManifest.name manifest));
   ("description", Some (WidgetManifest.description manifest))].

(** One turn of the loop over [Object.entries(standardAnnotations)]. *)
Definition annotation_args (entry : string * option string) : list string :=
  match entry.2 with
  | Some value =>
      ["--annotation"; "org.opencontainers.image." +:+ entry.1 +:+ "=" +:+ value]
  | None => []
  end.

(** The [args] that [push] hands to [exec]. *)
Definition push_args (dst : string) (widget : Widget.t)
  (manifest : WidgetManifest.t) (dryRun : bool) : list string :=
  ["push"; "--artifact-type"; "application/vnd.deskulpt.widget.v1"]
  ++ (if dryRun then ["--oci-layout"] else [])
  ++ flat_map annotation_args (standardAnnotations widget manifest)
  ++ [dst +:+ ":v" +:+ WidgetManifest.version manifest;
      "./"; "--no-tty"; "--format"; "json"].

(** ** The world of the publish script

    The files, the clock, and the rest of the world on which the external
    tools act (remote repositories, the artifact registry).  Time passes
    while the tools run: a tool returns the world it leaves behind, clock
    included. *)

Record World (Ext : Type) := mkWorld {
  files : gmap string string;
  clock : Z;
  ext : Ext }.
Arguments mkWorld {Ext}.
Arguments files {Ext}.
Arguments clock {Ext}.
Arguments ext {Ext}.

(** The effects that the script delegates: [fs.rm] and [fs.mkdir] of Node,
    [checkoutRepoAtCommit] of [./lib/git.ts] and [exec] of
    [./lib/process.ts], which returns the standard output of the command. *)
Record Tools (Ext : Type) := {
  fs_rm : string -> World Ext -> result (World Ext);
  fs_mkdir : string -> World Ext -> result (World Ext);
  checkoutRepoAtCommit :
    string -> string -> string -> option string -> World Ext ->
    result (World Ext);
  exec : string -> list string -> string -> World Ext ->
         result (string * World Ext) }.
Arguments fs_rm {Ext}.
Arguments fs_mkdir {Ext}.
Arguments checkoutRepoAtCommit {Ext}.
Arguments exec {Ext}.

(** An element of [registryUpdatePlan]: the plan entry spread, with
    [publishedAt] and [digest]. *)
Module RegistryUpdate.
Record t := mk {
    handle : string;
    id : string;
    widget : Widget.t;
    manifest : WidgetManifest.t;
    publishedAt : string;
    digest : string }.
End RegistryUpdate.

Definition CREATED : string := "org.opencontainers.image.created".

Section Pipeline.

Variable P : Platform.
Variable Ext : Type.
Variable T : Tools Ext.
Variable env : gmap string string.

Let world : Type := World Ext.

(** [process.env["ORAS_CLI"] ?? "oras"] *)
Definition ORAS_CLI : string := default "oras" (env !! "ORAS_CLI").

Definition push (src dst : string) (widget : Widget.t)
  (manifest : WidgetManifest.t) (dryRun : bool) (w : world)
  : result (OrasPushOutput.t * world) :=
  '(stdout, w') ← exec T ORAS_CLI (push_args dst widget manifest dryRun) src w;
  pushResult ← parseOrasPushOutput P stdout;
  Ok (pushResult, w').

(** [die] of [./lib/utils.ts] ends the process. *)
Definition die {A} (msg : string) : result A := Err (Fatal msg).

Fixpoint require_env (names : list string) : result unit :=
  match names with
  | [] => Ok tt
  | varName :: rest =>
      match env !! varName with
      | None => die ("Missing required environment variable: " +:+ varName)
      | Some _ => require_env rest
      end
  end.

Definition GHCR_REPO_PREFIX : string := default "" (env !! "GHCR_REPO_PREFIX").
Definition PUBLISH_PLAN_PATH : string := default "" (env !! "PUBLISH_PLAN_PATH").
Definition REGISTRY_DIR : string := default "" (env !! "REGISTRY_DIR").
Definition TEMP_DIR : string := path_resolve P "temp".

(** [pushResult.annotations?.["org.opencontainers.image.created"]] *)
Definition createdAt (pushResult : OrasPushOutput.t) : option string :=
  OrasPushOutput.annotations pushResult ≫= (fun a => a !! CREATED).

(** The part of an iteration up to the result of the push. *)
Definition stage_and_push (it : PublishPlanEntry.t) (w : world)
  : result (OrasPushOutput.t * world) :=
  let widget := PublishPlanEntry.widget it in
  w1 ← fs_rm T TEMP_DIR w;
  w2 ← checkoutRepoAtCommit T TEMP_DIR (Widget.repo widget)
         (Widget.commit widget) (Widget.path widget) w1;
  let widgetDir :=
    match Widget.path widget with
    | None => TEMP_DIR
    | Some p => path_join P TEMP_DIR p
    end in
  let remote :=
    GHCR_REPO_PREFIX +:+ "/" +:+ PublishPlanEntry.handle it +:+ "/"
    +:+ PublishPlanEntry.id it in
  push widgetDir remote widget (PublishPlanEntry.manifest it) false w2.

(** One iteration of the loop over [publishPlan]. *)
Definition publish_entry (it : PublishPlanEntry.t) (w : world)
  : result (RegistryUpdate.t * world) :=
  '(pushResult, w3) ← stage_and_push it w;
  let publishedAt := toISOString P (clock w3) in
  let publishedAt :=
    match createdAt pushResult with
    | Some c => c
    | None => publishedAt
    end in
  Ok (RegistryUpdate.mk (PublishPlanEntry.handle it) (PublishPlanEntry.id it)
        (PublishPlanEntry.widget it) (PublishPlanEntry.manifest it)
        publishedAt (OrasPushOutput.digest pushResult),
      w3).

(** The loop over [publishPlan], which builds [registryUpdatePlan]. *)
Fixpoint publish_loop (publishPlan : list PublishPlanEntry.t) (w : world)
  : result (list RegistryUpdate.t * world) :=
  match publishPlan with
  | [] => Ok ([], w)
  | it :: rest =>
      '(u, w1) ← publish_entry it w;
      '(us, w2) ← publish_loop rest w1;
      Ok (u :: us, w2)
  end.

(** *** The merge into the registry index *)

Definition releaseData (it : RegistryUpdate.t) : RegistryEntryRelease.t :=
  RegistryEntryRelease.mk (Widget.version (RegistryUpdate.widget it))
    (RegistryUpdate.publishedAt it) (RegistryUpdate.digest it).

(** The test of [find]: [e.handle === handle && e.id === id]. *)
Definition same_key (it : RegistryUpdate.t) (e : RegistryEntry.t) : Prop :=
  RegistryEntry.handle e = RegistryUpdate.handle it /\
  RegistryEntry.id e = RegistryUpdate.id it.

Global Instance same_key_dec it e : Decision (same_key it e).
Proof. unfold same_key. apply _. Defined.

(** One iteration of the loop over [registryUpdatePlan], on
    [registryIndex.widgets].  [find] returns the first entry that passes the
    test; the entry is updated where it stands in the list. *)
Definition merge_update (widgets : list RegistryEntry.t) (it : RegistryUpdate.t)
  : list RegistryEntry.t :=
  let manifest := RegistryUpdate.manifest it in
  match list_find (same_key it) widgets with
  | None =>
      widgets ++
      [RegistryEntry.mk (RegistryUpdate.handle it) (RegistryUpdate.id it)
         (WidgetManifest.name manifest) (WidgetManifest.authors manifest)
         (WidgetManifest.description manifest) [releaseData it]]
  | Some (i, entry) =>
      <[i := RegistryEntry.mk (RegistryEntry.handle entry) (RegistryEntry.id entry)
               (WidgetManifest.name manifest) (WidgetManifest.authors manifest)
               (WidgetManifest.description manifest)
               (releaseData it :: RegistryEntry.releases entry)]> widgets
  end.

Definition merge_loop (widgets : list RegistryEntry.t)
  (registryUpdatePlan : list RegistryUpdate.t) : list RegistryEntry.t :=
  fold_left merge_update registryUpdatePlan widgets.

(** The comparison function handed to [sort]. *)
Definition compare_entries (a b : RegistryEntry.t) : Z :=
  if bool_decide (RegistryEntry.handle a <> RegistryEntry.handle b)
  then localeCompare P (RegistryEntry.handle a) (RegistryEntry.handle b)
  else localeCompare P (RegistryEntry.id a) (RegistryEntry.id b).

(** [Array.prototype.sort] is a stable sort: an element moves behind
    another only when the comparison function puts it strictly after. *)
Fixpoint sort_insert {A} (cmp : A -> A -> Z) (x : A) (l : list A) : list A :=
  match l with
  | [] => [x]
  | y :: l' => if 0 <? cmp x y then y :: sort_insert cmp x l' else x :: l
  end.

Definition array_sort {A} (cmp : A -> A -> Z) (l : list A) : list A :=
  fold_right (sort_insert cmp) [] l.

(** The index that the script hands to [writeRegistryIndex]. *)
Definition update_index (now : Z) (registryIndex : RegistryIndex.t)
  (registryUpdatePlan : list RegistryUpdate.t) : RegistryIndex.t :=
  RegistryIndex.mk 1 (toISOString P now)
    (array_sort compare_entries
       (merge_loop (RegistryIndex.widgets registryIndex) registryUpdatePlan)).

(** The script after the loop over [publishPlan]. *)
Definition update_registry (registryUpdatePlan : list RegistryUpdate.t)
  (w : world) : result world :=
  let now := clock w in
  w1 ← fs_mkdir T REGISTRY_DIR w;
  registryIndex ← parseRegistryIndex P (files w1) REGISTRY_DIR;
  let registryIndex := update_index now registryIndex registryUpdatePlan in
  Ok (mkWorld (writeRegistryIndex P (files w1) REGISTRY_DIR registryIndex)
              (clock w1) (ext w1)).

(** The publish script. *)
Definition main (w : world) : result world :=
  _ ← require_env ["GHCR_REPO_PREFIX"; "PUBLISH_PLAN_PATH"; "REGISTRY_DIR"];
  publishPlan ← parsePublishPlan P (files w) PUBLISH_PLAN_PATH;
  '(registryUpdatePlan, w1) ← publish_loop publishPlan w;
  update_registry registryUpdatePlan w1.

End Pipeline.

(** ** Notions for the statements *)

Definition entry_key (e : RegistryEntry.t) : string * string :=
  (RegistryEntry.handle e, RegistryEntry.id e).

Definition update_key (it : RegistryUpdate.t) : string * string :=
  (RegistryUpdate.handle it, RegistryUpdate.id it).

Definition new_entry (it : RegistryUpdate.t) : RegistryEntry.t :=
  RegistryEntry.mk (RegistryUpdate.handle it) (RegistryUpdate.id it)
    (WidgetManifest.name (RegistryUpdate.manifest it))
    (WidgetManifest.authors (RegistryUpdate.manifest it))
    (WidgetManifest.description (RegistryUpdate.manifest it))
    [releaseData it].

Definition updated_entry (entry : RegistryEntry.t) (it : RegistryUpdate.t)
  : RegistryEntry.t :=
  RegistryEntry.mk (RegistryEntry.handle entry) (RegistryEntry.id entry)
    (WidgetManifest.name (RegistryUpdate.manifest it))
    (WidgetManifest.authors (RegistryUpdate.manifest it))
    (WidgetManifest.description (RegistryUpdate.manifest it))
    (releaseData it :: RegistryEntry.releases entry).

(** The entries of one pair, in the order of the list. *)
Definition with_key (k : string * string) (widgets : list RegistryEntry.t)
  : list RegistryEntry.t :=
  filter (fun e => entry_key e = k) widgets.


(** What the sort takes from [localeCompare]: a consistent comparison of
    strings.  Two strings may compare as equal without being the same
    string, as canonically equivalent strings do. *)
Record Collator (L : string -> string -> Z) : Prop := {
  collator_sym : forall a b, 0 < L a b <-> L b a < 0;
  collator_trans : forall a b c, L a b <= 0 -> L b c <= 0 -> L a c <= 0 }.

(** No two different strings of the list compare as equal. *)
Definition tie_free (L : string -> string -> Z) (l : list string) : Prop :=
  forall a b, a ∈ l -> b ∈ l -> L a b = 0 -> a = b.

(** An entry whose handle is in the list [handles]; an entry whose handle
    and id are in the lists. *)
Definition known (handles : list string) (e : RegistryEntry.t) : Prop :=
  RegistryEntry.handle e ∈ handles.

Definition listed (handles ids : list string) (e : RegistryEntry.t) : Prop :=
  RegistryEntry.handle e ∈ handles /\ RegistryEntry.id e ∈ ids.

(** The order of the pairs (handle, id): by handle, and by id under one
    handle. *)
Definition key_le (L : string -> string -> Z) (a b : RegistryEntry.t) : Prop :=
  L (RegistryEntry.handle a) (RegistryEntry.handle b) < 0 \/
  (RegistryEntry.handle a = RegistryEntry.handle b /\
   L (RegistryEntry.id a) (RegistryEntry.id b) <= 0).

(** The values that a command line hands with the flag [--annotation]. *)
Fixpoint annotations_of (args : list string) : list string :=
  match args with
  | flag :: rest =>
      match rest with
      | value :: rest' =>
          if String.eqb flag "--annotation" then value :: annotations_of rest'
          else annotations_of rest
      | [] => []
      end
  | [] => []
  end.

(** An annotation of a standard key with the empty string as its value. *)
Definition empty_valued (a : string) : Prop :=
  exists key, a = "org.opencontainers.image." +:+ key +:+ "=".

(** Whether a string has a colon. *)
Definition has_colon (s : string) : bool :=
  existsb (Ascii.eqb ":") (list_ascii_of_string s).


(** A result of a schema: a value or a [ZodError]. *)
Definition zod_only {A} (r : result A) : Prop :=
  match r with
  | Ok _ | Err (ZodError _) => True
  | Err _ => False
  end.

(** The values of the schemas of the registry index: what zod checks of a
    [RegistryIndex] beyond its shape. *)
Definition valid_author (F : Formats) (a : WidgetManifestAuthor) : Prop :=
  match a with
  | AuthorString _ => True
  | AuthorObject _ email url =>
      (forall e, email = Some e -> fmt_email F e = true) /\
      (forall u, url = Some u -> fmt_url F u = Some u)
  end.

Definition valid_release (F : Formats) (r : RegistryEntryRelease.t) : Prop :=
  fmt_iso_datetime F (RegistryEntryRelease.publishedAt r) = true.

Definition valid_entry (F : Formats) (e : RegistryEntry.t) : Prop :=
  RegistryEntry.authors e <> [] /\
  Forall (valid_author F) (RegistryEntry.authors e) /\
  RegistryEntry.releases e <> [] /\
  Forall (valid_release F) (RegistryEntry.releases e).

Definition valid_index (F : Formats) (index : RegistryIndex.t) : Prop :=
  - MAX_SAFE_INTEGER <= RegistryIndex.api index <= MAX_SAFE_INTEGER /\
  fmt_iso_datetime F (RegistryIndex.generatedAt index) = true /\
  Forall (valid_entry F) (RegistryIndex.widgets index).

(** ** A platform and tools for the examples

    Stand-ins for Node, zod's string formats and the external tools, on
    which the definitions can be run. *)

Module Sample.

Definition join (a b : string) : string := a +:+ "/" +:+ b.

(** Comparison by code units, which is how [localeCompare] orders digits
    and lower-case letters among themselves. *)
Definition compare_code_units (a b : string) : Z :=
  match String.compare a b with
  | Lt => -1
  | Eq => 0
  | Gt => 1
  end.

Definition digit_char (n : Z) : ascii := ascii_of_N (48 + Z.to_N (n mod 10)).

Definition pad2 (n : Z) (k : string) : string :=
  String (digit_char (n / 10)) (String (digit_char n) k).

Definition pad3 (n : Z) (k : string) : string :=
  String (digit_char (n / 100)) (pad2 n k).

Definition pad4 (n : Z) (k : string) : string :=
  String (digit_char (n / 1000)) (pad3 n k).

(** The date of a time value in milliseconds since the epoch, for the
    years 0 to 9999. *)
Definition iso (t : Z) : string :=
  let s := t / 1000 in
  let days := s / 86400 in
  let z := days + 719468 in
  let era := z / 146097 in
  let doe := z - era * 146097 in
  let yoe := (doe - doe / 1460 + doe / 36524 - doe / 146096) / 365 in
  let doy := doe - (365 * yoe + yoe / 4 - yoe / 100) in
  let mp := (5 * doy + 2) / 153 in
  let d := doy - (153 * mp + 2) / 5 + 1 in
  let m := if mp <? 10 then mp + 3 else mp - 9 in
  let y := yoe + era * 400 + (if m <=? 2 then 1 else 0) in
  pad4 y (String "-" (pad2 m (String "-" (pad2 d (String "T"
    (pad2 (s / 3600 mod 24) (String ":" (pad2 (s / 60 mod 60) (String ":"
      (pad2 (s mod 60) (String "." (pad3 (t mod 1000) "Z")))))))))))).

Definition hex (c : ascii) : bool :=
  in_range "0" "9" c || in_range "a" "f" c || in_range "A" "F" c.

Definition repeat_re (n : nat) (r : re) : re := Nat.iter n (Cat r) Eps.

Definition re_datetime : re :=
  let d := Cls cls_d in
  Cat (repeat_re 4 d) (Cat (Chr "-") (Cat (repeat_re 2 d) (Cat (Chr "-")
    (Cat (repeat_re 2 d) (Cat (Chr "T") (Cat (repeat_re 2 d) (Cat (Chr ":")
      (Cat (repeat_re 2 d) (Cat (Chr ":") (Cat (repeat_re 2 d)
        (Cat (Opt (Cat (Chr ".") (Plus d))) (Chr "Z")))))))))))).

Definition not_at (c : ascii) : bool := negb (Ascii.eqb c "@").

Definition string_formats : Formats := {|
  fmt_url := fun s =>
    if String.prefix "https://" s || String.prefix "http://" s
    then Some s else None;
  fmt_email := Regex.test (Cat (Plus (Cls not_at)) (Cat (Chr "@") (Plus (Cls not_at))));
  fmt_iso_datetime := Regex.test re_datetime;
  fmt_base64 := Regex.test (Star (Cls (fun c => cls_alnum_hyphen c || Ascii.eqb c "+"
                                                || Ascii.eqb c "/" || Ascii.eqb c "=")));
  fmt_hash_sha1 := Regex.test (repeat_re 40 (Cls hex));
  fmt_hash_sha256 := Regex.test (repeat_re 64 (Cls hex));
  fmt_length := js_length |}.

Definition platform : Platform := {|
  path_join := join;
  path_resolve := fun p => "/work/" +:+ p;
  yaml_parse := JSON.parse;
  localeCompare := compare_code_units;
  toISOString := iso;
  formats := string_formats |}.

(** The push tool prints a descriptor.  The outside world is one bit:
    whether the tool reports the creation time of the artifact. *)
Definition push_output (created : option string) (reference : string) : json :=
  JObj ([("mediaType", JStr "application/vnd.oci.image.manifest.v1+json");
         ("digest", JStr "sha256:0000");
         ("size", JNum 512)]
        ++ match created with
           | Some c => [("annotations", JObj [(CREATED, JStr c)])]
           | None => []
           end
        ++ [("reference", JStr reference);
            ("referenceAsTags", JArr [])]).

Definition tick (n : Z) (w : World bool) : World bool :=
  mkWorld (files w) (clock w + n) (ext w).

Definition tools : Tools bool := {|
  fs_rm := fun dir w =>
    Ok (tick 1 (mkWorld (filter (fun kv => String.prefix dir kv.1 = false) (files w))
                        (clock w) (ext w)));
  fs_mkdir := fun dir w => Ok (tick 1 w);
  checkoutRepoAtCommit := fun dir repo commit path w =>
    Ok (tick 2000 (mkWorld (<[join dir "deskulpt.widget.json" := "{}"]> (files w))
                           (clock w) (ext w)));
  exec := fun cli args cwd w =>
    let w' := tick 3000 w in
    Ok (JSON.stringify
          (push_output (if ext w then Some (iso (clock w)) else None)
                       (default "" (args !! 21%nat))),
        w') |}.

Definition env : gmap string string :=
  {[ "GHCR_REPO_PREFIX" := "ghcr.io/acme";
     "PUBLISH_PLAN_PATH" := "plan.jsonl";
     "REGISTRY_DIR" := "registry" ]}.

Definition commit : string := "0123456789abcdef0123456789abcdef01234567".

Definition widget : Widget.t :=
  Widget.mk "1.0.0" "https://example.com/r.git" commit None.

Definition manifest : WidgetManifest.t :=
  WidgetManifest.mk "Clock" "1.0.0" [AuthorString "A"] "MIT" "A clock"
    "https://example.com".

Definition entry : PublishPlanEntry.t :=
  PublishPlanEntry.mk "acme" "clock" widget manifest.

(** A manifest that [WidgetManifestSchema] accepts, with the empty string
    as its license. *)
Definition manifest_no_license : WidgetManifest.t :=
  WidgetManifest.mk "Clock" "1.0.0" [AuthorString "A"] "" "A clock"
    "https://example.com".

Definition manifest2 : WidgetManifest.t :=
  WidgetManifest.mk "Clock 2" "1.1.0"
    [AuthorObject "B" (Some "b@example.com") None] "MIT" "A better clock"
    "https://example.com".

Definition update1 : RegistryUpdate.t :=
  RegistryUpdate.mk "acme" "clock" widget manifest
    "2025-11-03T07:00:05.124Z" "sha256:0000".

Definition update2 : RegistryUpdate.t :=
  RegistryUpdate.mk "acme" "clock"
    (Widget.mk "1.1.0" "https://example.com/r.git" commit None) manifest2
    "2025-11-04T07:00:00.000Z" "sha256:1111".

Definition update3 : RegistryUpdate.t :=
  RegistryUpdate.mk "zeta" "dial" widget manifest
    "2025-11-03T08:00:00.000Z" "sha256:2222".

Definition release1 : RegistryEntryRelease.t :=
  RegistryEntryRelease.mk "1.0.0" "2025-11-03T07:00:05.124Z" "sha256:0000".

Definition release2 : RegistryEntryRelease.t :=
  RegistryEntryRelease.mk "1.1.0" "2025-11-04T07:00:00.000Z" "sha256:1111".

Definition entry1 : RegistryEntry.t :=
  RegistryEntry.mk "acme" "clock" "Clock" [AuthorString "A"] "A clock" [release1].

(** An entry of the pair (handle, id) and nothing else of note. *)
Definition stub (handle id : string) : RegistryEntry.t :=
  RegistryEntry.mk handle id "n" [AuthorString "A"] "d" [release1].

(** The world before the script runs: no files, a clock, and a push tool
    that does not report a creation time. *)
Definition world0 : World bool := mkWorld ∅ 1762153200123 false.

(** A repository whose commit [commit] has the publisher file of [acme]
    and a malformed one of [zeta], and no file of widgets. *)
Definition tree (c : string) : gmap string string :=
  if String.eqb c commit
  then {[ "publishers/acme.yaml" := JSON.stringify (JObj [("user", JNum 42)]);
          "publishers/zeta.yaml" :=
            JSON.stringify (JObj [("user", JNum 42); ("organization", JNum 7)]) ]}
  else ∅.

(** The line of [entry] in a publish plan. *)
Definition entry_line : string :=
  JSON.stringify
    (JObj [("handle", JStr "acme"); ("id", JStr "clock");
           ("widget",
            JObj [("version", JStr "1.0.0");
                  ("repo", JStr "https://example.com/r.git");
                  ("commit", JStr commit)]);
           ("manifest",
            JObj [("name", JStr "Clock"); ("version", JStr "1.0.0");
                  ("authors", JArr [JStr "A"]); ("license", JStr "MIT");
                  ("description", JStr "A clock");
                  ("homepage", JStr "https://example.com")])]).

(** A world with a publish plan of one entry and no registry index. *)
Definition world_without_index : World bool :=
  mkWorld {[ "plan.jsonl" := entry_line ]} 1762153200123 false.

Definition empty_index : RegistryIndex.t :=
  RegistryIndex.mk 1 "2025-11-01T00:00:00.000Z" [].

(** A world with the same plan and a registry index without widgets. *)
Definition world_with_empty_index : World bool :=
  mkWorld (<[ "registry/index.json" := JSON.stringify (index_value empty_index) ]>
             {[ "plan.jsonl" := entry_line ]})
          1762153200123 false.

(** Tools whose push works once: the outside world is whether the push
    tool has been used, and a second push fails. *)
Definition worn_tools : Tools bool := {|
  fs_rm := fs_rm tools;
  fs_mkdir := fs_mkdir tools;
  checkoutRepoAtCommit := checkoutRepoAtCommit tools;
  exec := fun cli args cwd w =>
    if ext w then Err (ToolError "oras: connection refused")
    else Ok (JSON.stringify (push_output None (default "" (args !! 21%nat))),
             mkWorld (files w) (clock w + 3000) true) |}.

Definition entry2 : PublishPlanEntry.t :=
  PublishPlanEntry.mk "zeta" "dial" widget manifest.

(** The line of [entry2] in a publish plan. *)
Definition entry2_line : string :=
  JSON.stringify
    (JObj [("handle", JStr "zeta"); ("id", JStr "dial");
           ("widget",
            JObj [("version", JStr "1.0.0");
                  ("repo", JStr "https://example.com/r.git");
                  ("commit", JStr commit)]);
           ("manifest",
            JObj [("name", JStr "Clock"); ("version", JStr "1.0.0");
                  ("authors", JArr [JStr "A"]); ("license", JStr "MIT");
                  ("description", JStr "A clock");
                  ("homepage", JStr "https://example.com")])]).

(** A world with a plan of two entries and a registry index without
    widgets. *)
Definition world_with_two_entries : World bool :=
  mkWorld (<[ "registry/index.json" := JSON.stringify (index_value empty_index) ]>
             {[ "plan.jsonl" :=
                  entry_line +:+ String LF (entry2_line +:+ String LF "") ]})
          1762153200123 false.

(** *** A collation in the manner of [localeCompare]

    Letters are compared without regard to case first, and a lower-case
    letter stands before its upper-case letter when nothing else tells two
    strings apart.  Canonically equivalent strings compare as equal: here
    the letter é as the one code point U+00E9 and as the letter e followed
    by the combining accent U+0301. *)

(** é as one code point, in UTF-8. *)
Definition e_acute : string := String "195" (String "169" "").

(** e followed by the combining acute accent, in UTF-8. *)
Definition e_combining : string := String "e" (String "204" (String "129" "")).

(** The composed form of a string, for the letter é. *)
Fixpoint compose (s : string) : string :=
  match s with
  | EmptyString => EmptyString
  | String a r =>
      match r with
      | String b (String c r') =>
          if Ascii.eqb a "e" && (N_of_ascii b =? 204)%N && (N_of_ascii c =? 129)%N
          then String "195" (String "169" (compose r'))
          else String a (compose r)
      | _ => String a (compose r)
      end
  end.

Fixpoint map_chars (f : ascii -> ascii) (s : string) : string :=
  match s with
  | EmptyString => EmptyString
  | String c r => String (f c) (map_chars f r)
  end.

Definition lower (c : ascii) : ascii :=
  if in_range "A" "Z" c then ascii_of_N (N_of_ascii c + 32) else c.

Definition swap_case (c : ascii) : ascii :=
  if in_range "A" "Z" c then ascii_of_N (N_of_ascii c + 32)
  else if in_range "a" "z" c then ascii_of_N (N_of_ascii c - 32)
  else c.

(** The sort key of a string: its letters in lower case, then the string
    itself with lower case before upper case. *)
Definition collation_key (s : string) : string :=
  map_chars lower (compose s) +:+ String "000" (map_chars swap_case (compose s)).

Definition compare_locale (a b : string) : Z :=
  compare_code_units (collation_key a) (collation_key b).

Definition locale_platform : Platform := {|
  path_join := join;
  path_resolve := fun p => "/work/" +:+ p;
  yaml_parse := JSON.parse;
  localeCompare := compare_locale;
  toISOString := iso;
  formats := string_formats |}.

(** *** A URL check that trims

    [z.url()] that hands the trimmed string to the [URL] constructor and
    returns the trimmed string. *)
Definition trimming_formats : Formats := {|
  fmt_url := fun s =>
    let t := trim s in
    if String.prefix "https://" t || String.prefix "http://" t
    then Some t else None;
  fmt_email := fmt_email string_formats;
  fmt_iso_datetime := fmt_iso_datetime string_formats;
  fmt_base64 := fmt_base64 string_formats;
  fmt_hash_sha1 := fmt_hash_sha1 string_formats;
  fmt_hash_sha256 := fmt_hash_sha256 string_formats;
  fmt_length := js_length |}.

Definition trimming_platform : Platform := {|
  path_join := join;
  path_resolve := fun p => "/work/" +:+ p;
  yaml_parse := JSON.parse;
  localeCompare := compare_code_units;
  toISOString := iso;
  formats := trimming_formats |}.

(** *** A push tool that reports a creation time every other time

    The outside world is whether the next push reports the creation time
    of the artifact; a push takes three seconds. *)
Definition fickle_tools : Tools bool := {|
  fs_rm := fs_rm tools;
  fs_mkdir := fs_mkdir tools;
  checkoutRepoAtCommit := checkoutRepoAtCommit tools;
  exec := fun cli args cwd w =>
    Ok (JSON.stringify
          (push_output (if ext w then Some "2025-11-02T12:00:00Z" else None)
                       (default "" (args !! 21%nat))),
        mkWorld (files w) (clock w + 3000) (negb (ext w))) |}.

(** The world of [world_with_two_entries], with a push tool that reports
    the creation time at its next use. *)
Definition world_reporting : World bool :=
  mkWorld (files world_with_two_entries) 1762153200123 true.

End Sample.

(** ** Notions for the properties of the pipeline *)

(** The updates of one pair (handle, id), in the order of the plan. *)
Definition updates_of (k : string * string) (plan : list RegistryUpdate.t)
  : list RegistryUpdate.t :=
  filter (fun it => update_key it = k) plan.

(** The number of releases of a list of entries. *)
Definition release_count (widgets : list RegistryEntry.t) : nat :=
  sum_list (map (fun e => length (RegistryEntry.releases e)) widgets).

(** The pair (handle, id) of an entry of the publish plan. *)
Definition plan_key (it : PublishPlanEntry.t) : string * string :=
  (PublishPlanEntry.handle it, PublishPlanEntry.id it).

(** What [RegistryIndexSchema] will ask of the entry that an update
    creates or changes: authors, each of them valid, and a date in
    [publishedAt]. *)
Definition valid_update (F : Formats) (it : RegistryUpdate.t) : Prop :=
  WidgetManifest.authors (RegistryUpdate.manifest it) <> [] /\
  Forall (valid_author F) (WidgetManifest.authors (RegistryUpdate.manifest it)) /\
  fmt_iso_datetime F (RegistryUpdate.publishedAt it) = true.

(** *** The text of a publish plan *)

Fixpoint string_forallb (f : ascii -> bool) (s : string) : bool :=
  match s with
  | EmptyString => true
  | String c r => f c && string_forallb f r
  end.

(** A space or a tab. *)
Definition blank_char (c : ascii) : bool := Ascii.eqb c " " || Ascii.eqb c "009".

Definition blank (s : string) : bool := string_forallb blank_char s.

(** A space, a tab, a carriage return or a line feed. *)
Definition space_char (c : ascii) : bool :=
  blank_char c || Ascii.eqb c CR || Ascii.eqb c LF.

(** A character of ASCII that is neither white space nor a control
    character: no white space of ECMAScript has it among its bytes. *)
Definition anchor (c : ascii) : bool :=
  (33 <=? N_of_ascii c)%N && (N_of_ascii c <? 127)%N.

(** A line of a plan file, without its terminator: a document or nothing,
    with blanks before and after. *)
Record plan_line := {
  line_indent : string;
  line_doc : option json;
  line_trail : string }.

Definition line_text (l : plan_line) : string :=
  line_indent l
  +:+ match line_doc l with Some j => JSON.stringify j | None => "" end
  +:+ line_trail l.

(** The documents of the lines. *)
Definition docs_of (lines : list plan_line) : list json := omap line_doc lines.

Definition well_spaced (l : plan_line) : bool :=
  blank (line_indent l) && blank (line_trail l).

(** A line terminator. *)
Inductive eol := EolLF | EolCRLF.

Definition eol_text (e : eol) : string :=
  match e with
  | EolLF => String LF ""
  | EolCRLF => String CR (String LF "")
  end.

(** The text of a file: lines with their terminators, and a last line
    without one, which is empty in a file that ends with a terminator. *)
Fixpoint plan_text (lines : list (plan_line * eol)) (last : plan_line) : string :=
  match lines with
  | [] => line_text last
  | (l, e) :: rest => line_text l +:+ eol_text e +:+ plan_text rest last
  end.

(** A character other than the two of the line terminators. *)
Definition line_char (c : ascii) : bool :=
  negb (Ascii.eqb c LF) && negb (Ascii.eqb c CR).

(** A character that is not a control character. *)
Definition printable (c : ascii) : bool := (32 <=? N_of_ascii c)%N.

(** A string with an [anchor] among its characters. *)
Definition has_anchor (s : string) : Prop :=
  exists a z b, s = a +:+ String z b /\ anchor z = true.

(** A string whose last character is an [anchor]. *)
Definition ends_anchor (s : string) : Prop :=
  exists a z, s = a +:+ String z "" /\ anchor z = true.

(** The text of the document of a line. *)
Definition doc_text (d : option json) : string :=
  match d with
  | Some j => JSON.stringify j
  | None => ""
  end.

(** *** The length of a string *)

(** The number of code points of a string, read off the UTF-8 bytes: the
    bytes that do not continue a code point. *)
Definition code_point_start (c : ascii) : bool :=
  negb ((128 <=? N_of_ascii c)%N && (N_of_ascii c <? 192)%N).

Fixpoint code_points (s : string) : nat :=
  match s with
  | EmptyString => 0%nat
  | String c s' => ((if code_point_start c then 1 else 0) + code_points s')%nat
  end.

(** A value that some schema has returned. *)
Definition returned_by {A} (s : schema A) (a : A) : Prop :=
  exists j, s j = Ok a.

(** * Facts

    ** Results *)

Lemma bind_ok {A B} (r : result A) (k : A -> result B) b :
  (r ≫= k) = Ok b -> exists a, r = Ok a /\ k a = Ok b.
Proof. destruct r as [a|e]; simpl; [eauto | discriminate]. Qed.

Lemma both_ok {A B} (ra : result A) (rb : result B) a b :
  both ra rb = Ok (a, b) <-> ra = Ok a /\ rb = Ok b.
Proof.
  destruct ra as [x|[]], rb as [y|[]]; simpl; split;
    solve [intros [= -> ->]; done | intros [[= ->] [= ->]]; done
          | discriminate | intros [? ?]; discriminate].
Qed.

(** ** The matcher decides the language of a pattern *)

Lemma matches_void_inv s : matches Void s -> False.
Proof. inversion 1. Qed.

Lemma matches_eps_inv s : matches Eps s -> s = [].
Proof. by inversion 1. Qed.

Lemma matches_cls_inv f s : matches (Cls f) s -> exists c, s = [c] /\ f c = true.
Proof. inversion 1; subst; eauto. Qed.

Lemma matches_cat_inv r1 r2 s :
  matches (Cat r1 r2) s ->
  exists s1 s2, s = s1 ++ s2 /\ matches r1 s1 /\ matches r2 s2.
Proof. inversion 1; subst; eauto. Qed.

Lemma matches_alt_inv r1 r2 s :
  matches (Alt r1 r2) s -> matches r1 s \/ matches r2 s.
Proof. inversion 1; subst; auto. Qed.

Lemma matches_cat_cons r1 r2 c s1 s2 :
  matches r1 (c :: s1) -> matches r2 s2 -> matches (Cat r1 r2) (c :: s1 ++ s2).
Proof. intros. change (c :: s1 ++ s2) with ((c :: s1) ++ s2). by constructor. Qed.

Lemma nullable_spec r : nullable r = true <-> matches r [].
Proof.
  induction r as [| | f | r1 IH1 r2 IH2 | r1 IH1 r2 IH2 | r IH]; simpl; split; intros H;
    try discriminate; try (by constructor).
  - by apply matches_void_inv in H.
  - apply matches_cls_inv in H as (c & [=] & _).
  - apply andb_true_iff in H as [H1 H2].
    change (@nil ascii) with (@nil ascii ++ []). constructor; tauto.
  - apply matches_cat_inv in H as (s1 & s2 & E & H1 & H2).
    symmetry in E. apply app_eq_nil in E as [-> ->].
    apply andb_true_iff; tauto.
  - apply orb_true_iff in H as [H|H]; [apply MAltL | apply MAltR]; tauto.
  - apply orb_true_iff. apply matches_alt_inv in H; tauto.
Qed.

Lemma star_cons_inv r c s :
  matches (Star r) (c :: s) ->
  exists s1 s2, s = s1 ++ s2 /\ matches r (c :: s1) /\ matches (Star r) s2.
Proof.
  intros H. remember (Star r) as r' eqn:Er. remember (c :: s) as t eqn:Et.
  revert Er Et.
  induction H as [| | | | | |r0 s1 s2 H1 _ H2 IH2]; intros Er Et; try discriminate.
  injection Er as ->.
  destruct s1 as [|c' s1]; simpl in Et.
  - auto.
  - injection Et as -> <-. eauto.
Qed.

Lemma deriv_spec r : forall c s, matches (deriv c r) s <-> matches r (c :: s).
Proof.
  induction r as [| | f | r1 IH1 r2 IH2 | r1 IH1 r2 IH2 | r IH]; intros c s; simpl.
  - split; intros H; by apply matches_void_inv in H.
  - split; intros H; [by apply matches_void_inv in H|].
    by apply matches_eps_inv in H.
  - destruct (f c) eqn:E; split; intros H.
    + apply matches_eps_inv in H as ->. by constructor.
    + apply matches_cls_inv in H as (c' & [= -> ->] & _). constructor.
    + by apply matches_void_inv in H.
    + apply matches_cls_inv in H as (c' & [= -> ->] & H). congruence.
  - assert (Hcat : matches (Cat (deriv c r1) r2) s ->
                   matches (Cat r1 r2) (c :: s)).
    { intros H. apply matches_cat_inv in H as (s1 & s2 & -> & H1 & H2).
      apply matches_cat_cons; [by apply IH1 | done]. }
    destruct (nullable r1) eqn:N; split; intros H.
    + apply matches_alt_inv in H as [H|H]; [by apply Hcat|].
      change (c :: s) with ([] ++ c :: s).
      constructor; [by apply nullable_spec | by apply IH2].
    + apply matches_cat_inv in H as (s1 & s2 & E & H1 & H2).
      destruct s1 as [|c' s1]; simpl in E.
      * subst s2. apply MAltR. by apply IH2.
      * injection E as <- ->. apply MAltL. constructor; [by apply IH1 | done].
    + by apply Hcat.
    + apply matches_cat_inv in H as (s1 & s2 & E & H1 & H2).
      destruct s1 as [|c' s1]; simpl in E.
      * apply nullable_spec in H1. congruence.
      * injection E as <- ->. constructor; [by apply IH1 | done].
  - split; intros H; apply matches_alt_inv in H as [H|H];
      solve [apply MAltL; by apply IH1 | apply MAltR; by apply IH2].
  - split; intros H.
    + apply matches_cat_inv in H as (s1 & s2 & -> & H1 & H2).
      change (c :: s1 ++ s2) with ((c :: s1) ++ s2).
      constructor; [by apply IH | done].
    + apply star_cons_inv in H as (s1 & s2 & -> & H1 & H2).
      constructor; [by apply IH | done].
Qed.

Lemma re_match_spec r s : re_match r s = true <-> matches r s.
Proof.
  revert r. induction s as [|c s IH]; intros r; simpl.
  - apply nullable_spec.
  - rewrite IH. apply deriv_spec.
Qed.

(** ** [SEMVER_REGEX] accepts exactly the grammar *)

Section SemVerRegex.
Import SemVer.

Lemma star_induction r (P : list ascii -> Prop) :
  P [] ->
  (forall s1 s2, matches r s1 -> matches (Star r) s2 -> P s2 -> P (s1 ++ s2)) ->
  forall s, matches (Star r) s -> P s.
Proof.
  intros H0 HS s H. remember (Star r) as r' eqn:Er. revert Er.
  induction H as [| | | | | |r0 s1 s2 H1 _ H2 IH2]; intros Er; try discriminate.
  - done.
  - injection Er as ->. auto.
Qed.

Lemma matches_chr c s : matches (Chr c) s <-> s = [c].
Proof.
  split.
  - intros H. apply matches_cls_inv in H as (c' & -> & E).
    apply Ascii.eqb_eq in E. by subst.
  - intros ->. constructor. apply Ascii.eqb_refl.
Qed.

Lemma matches_star_cls f s : matches (Star (Cls f)) s <-> all f s.
Proof.
  split.
  - revert s. apply star_induction; [constructor|].
    intros s1 s2 H1 _ IH. apply matches_cls_inv in H1 as (c & -> & E).
    by constructor.
  - induction 1 as [|c s E _ IH]; [constructor|].
    change (c :: s) with ([c] ++ s). constructor; [by constructor | done].
Qed.

Lemma matches_cat r1 r2 s :
  matches (Cat r1 r2) s <->
  exists s1 s2, s = s1 ++ s2 /\ matches r1 s1 /\ matches r2 s2.
Proof.
  split; [apply matches_cat_inv|].
  intros (s1 & s2 & -> & H1 & H2). by constructor.
Qed.

Lemma matches_alt r1 r2 s :
  matches (Alt r1 r2) s <-> matches r1 s \/ matches r2 s.
Proof.
  split; [apply matches_alt_inv|].
  intros [H|H]; [by apply MAltL | by apply MAltR].
Qed.

Lemma matches_opt r s : matches (Opt r) s <-> matches r s \/ s = [].
Proof.
  unfold Opt. rewrite matches_alt. split; intros [H|H]; auto.
  - right. by apply matches_eps_inv.
  - right. subst. constructor.
Qed.

Lemma matches_cls_cons f r s :
  matches (Cat (Cls f) r) s <-> exists c t, s = c :: t /\ f c = true /\ matches r t.
Proof.
  rewrite matches_cat. split.
  - intros (s1 & s2 & -> & H1 & H2).
    apply matches_cls_inv in H1 as (c & -> & E). simpl. eauto.
  - intros (c & t & -> & E & H). exists [c], t. split; [done|].
    split; [by constructor | done].
Qed.

Lemma matches_chr_cons c r s :
  matches (Cat (Chr c) r) s <-> exists t, s = c :: t /\ matches r t.
Proof.
  unfold Chr. rewrite matches_cls_cons. split.
  - intros (c' & t & -> & E & H). apply Ascii.eqb_eq in E. subst. eauto.
  - intros (t & -> & H). exists c, t. by rewrite Ascii.eqb_refl.
Qed.

Lemma re_numeric_spec s : matches re_numeric s <-> numeric_identifier s.
Proof.
  unfold re_numeric, numeric_identifier.
  rewrite matches_alt, matches_chr, matches_cls_cons.
  by setoid_rewrite matches_star_cls.
Qed.

Lemma digit_identifier_character c :
  digit c = true -> identifier_character c = true.
Proof. unfold identifier_character. intros ->. done. Qed.

Lemma non_digit_identifier_character c :
  non_digit c = true -> identifier_character c = true.
Proof. unfold identifier_character. intros ->. apply orb_true_r. Qed.

Lemma alphanumeric_first_non_digit s :
  alphanumeric_identifier s <-> digits_then_non_digit s.
Proof.
  split.
  - intros (pre & c & post & -> & Hpre & Hc & Hpost).
    induction Hpre as [|d pre Hd Hpre IH].
    + exists [], c, post. repeat split; [constructor | done | done].
    + destruct (digit d) eqn:Ed.
      * destruct IH as (ds & c' & post' & E & Hds & Hc' & Hpost').
        exists (d :: ds), c', post'. simpl. rewrite E.
        repeat split; [by constructor | done | done].
      * exists [], d, (pre ++ c :: post). simpl.
        unfold identifier_character in Hd. rewrite Ed in Hd. simpl in Hd.
        repeat split; [constructor | done |].
        apply Forall_app. split; [done|].
        constructor; [by apply non_digit_identifier_character | done].
  - intros (ds & c & post & -> & Hds & Hc & Hpost).
    exists ds, c, post. repeat split; [|done|done].
    eapply Forall_impl; [exact Hds|]. apply digit_identifier_character.
Qed.

Lemma cls_alpha_hyphen_non_digit c : cls_alpha_hyphen c = non_digit c.
Proof.
  unfold cls_alpha_hyphen, non_digit, letter.
  by rewrite (orb_comm (in_range "a" "z" c)).
Qed.

Lemma cls_alnum_hyphen_identifier_character c :
  cls_alnum_hyphen c = identifier_character c.
Proof.
  unfold cls_alnum_hyphen, identifier_character, non_digit, letter, digit.
  rewrite (orb_comm (in_range "A" "Z" c)). by rewrite !orb_assoc.
Qed.

Lemma all_ext f g s : (forall c, f c = g c) -> all f s <-> all g s.
Proof.
  intros E. unfold all.
  split; intros H; (eapply Forall_impl; [exact H|]); intros c; simpl;
    specialize (E c); congruence.
Qed.

Lemma re_alphanumeric_spec s :
  matches (Cat (Star (Cls cls_d))
               (Cat (Cls cls_alpha_hyphen) (Star (Cls cls_alnum_hyphen)))) s
  <-> alphanumeric_identifier s.
Proof.
  rewrite alphanumeric_first_non_digit. unfold digits_then_non_digit.
  rewrite matches_cat. split.
  - intros (ds & t & -> & Hds & Ht).
    apply matches_star_cls in Hds.
    apply matches_cls_cons in Ht as (c & post & -> & Hc & Hpost).
    apply matches_star_cls in Hpost.
    exists ds, c, post. rewrite <- cls_alpha_hyphen_non_digit.
    repeat split; [done | done |].
    by apply (all_ext _ _ _ cls_alnum_hyphen_identifier_character).
  - intros (ds & c & post & -> & Hds & Hc & Hpost).
    exists ds, (c :: post). split; [done|].
    split; [by apply matches_star_cls|].
    apply matches_cls_cons. exists c, post.
    rewrite cls_alpha_hyphen_non_digit. repeat split; [done|].
    apply matches_star_cls.
    by apply (all_ext _ _ _ cls_alnum_hyphen_identifier_character).
Qed.

Lemma re_prerelease_id_spec s :
  matches re_prerelease_id s <-> pre_release_identifier s.
Proof.
  unfold re_prerelease_id, pre_release_identifier.
  rewrite matches_alt, re_alphanumeric_spec.
  fold re_numeric. rewrite re_numeric_spec. tauto.
Qed.

Lemma all_digit_or_alphanumeric s :
  all identifier_character s -> all digit s \/ alphanumeric_identifier s.
Proof.
  induction 1 as [|c s Hc Hs IH]; [left; constructor|].
  destruct (digit c) eqn:Ed.
  - destruct IH as [IH|(pre & c' & post & -> & Hpre & Hc' & Hpost)].
    + left. by constructor.
    + right. exists (c :: pre), c', post.
      repeat split; [by constructor | done | done].
  - right. exists [], c, s.
    unfold identifier_character in Hc. rewrite Ed in Hc.
    repeat split; [constructor | done | done].
Qed.

Lemma build_identifier_chars s :
  build_identifier s <-> s <> [] /\ all identifier_character s.
Proof.
  split.
  - intros [(pre & c & post & -> & Hpre & Hc & Hpost)|[Hne Hd]].
    + split; [by destruct pre|].
      apply Forall_app. split; [done|].
      constructor; [by apply non_digit_identifier_character | done].
    + split; [done|].
      eapply Forall_impl; [exact Hd|]. apply digit_identifier_character.
  - intros [Hne Hs]. destruct (all_digit_or_alphanumeric s Hs) as [H|H].
    + by right.
    + by left.
Qed.

Lemma re_build_id_spec s : matches re_build_id s <-> build_identifier s.
Proof.
  rewrite build_identifier_chars. unfold re_build_id, Plus.
  rewrite matches_cls_cons. split.
  - intros (c & t & -> & Hc & Ht). split; [done|].
    apply matches_star_cls in Ht.
    apply (all_ext _ _ _ cls_alnum_hyphen_identifier_character).
    by constructor.
  - intros [Hne Hs]. destruct s as [|c t]; [done|].
    apply (all_ext _ _ _ cls_alnum_hyphen_identifier_character) in Hs.
    apply Forall_cons in Hs as [Hc Ht].
    exists c, t. repeat split; [done|]. by apply matches_star_cls.
Qed.

Lemma dot_separated_iff (P Q : list ascii -> Prop) s :
  (forall t, P t <-> Q t) -> dot_separated P s <-> dot_separated Q s.
Proof.
  intros E.
  split; induction 1 as [t H|t rest H _ IH];
    solve [apply ds_one; by apply E | apply ds_more; [by apply E | done]].
Qed.

Lemma re_dotted_spec r s :
  matches (re_dotted r) s <-> dot_separated (matches r) s.
Proof.
  unfold re_dotted. rewrite matches_cat. split.
  - intros (s1 & s2 & -> & H1 & H2). revert s1 H1. revert s2 H2.
    apply (star_induction _ (fun s2 => forall s1, matches r s1 ->
             dot_separated (matches r) (s1 ++ s2))).
    + intros s1 H1. rewrite app_nil_r. by apply ds_one.
    + intros t s2 Ht _ IH s1 H1.
      apply matches_chr_cons in Ht as (t' & -> & Ht').
      simpl. apply ds_more; [done|]. by apply IH.
  - induction 1 as [s H|s rest H _ (t1 & t2 & -> & Ht1 & Ht2)].
    + exists s, []. rewrite app_nil_r. repeat split; [done|]. constructor.
    + exists s, ("."%char :: t1 ++ t2). repeat split; [done|].
      change ("."%char :: t1 ++ t2) with (("."%char :: t1) ++ t2).
      constructor; [|done]. apply matches_chr_cons. eauto.
Qed.

Lemma re_prerelease_spec s :
  matches (re_dotted re_prerelease_id) s <-> pre_release s.
Proof.
  rewrite re_dotted_spec. apply dot_separated_iff, re_prerelease_id_spec.
Qed.

Lemma re_build_spec s : matches (re_dotted re_build_id) s <-> build s.
Proof.
  rewrite re_dotted_spec. apply dot_separated_iff, re_build_id_spec.
Qed.

End SemVerRegex.

Section SemVerTop.
Import SemVer.

Lemma version_core_app major minor patch t :
  (major ++ "."%char :: minor ++ "."%char :: patch) ++ t
  = major ++ "."%char :: minor ++ "."%char :: patch ++ t.
Proof. rewrite <- app_assoc. simpl. by rewrite <- app_assoc. Qed.

Lemma re_core_then_spec R s :
  matches (Cat re_numeric (Cat (Chr ".") (Cat re_numeric (Cat (Chr ".")
            (Cat re_numeric R))))) s
  <-> exists v t, s = v ++ t /\ version_core v /\ matches R t.
Proof.
  split.
  - intros H.
    apply matches_cat in H as (major & s1 & -> & Hmajor & H).
    apply matches_chr_cons in H as (s2 & -> & H).
    apply matches_cat in H as (minor & s3 & -> & Hminor & H).
    apply matches_chr_cons in H as (s4 & -> & H).
    apply matches_cat in H as (patch & t & -> & Hpatch & H).
    exists (major ++ "."%char :: minor ++ "."%char :: patch), t.
    split; [by rewrite version_core_app|]. split; [|done].
    exists major, minor, patch. by rewrite <- !re_numeric_spec.
  - intros (v & t & -> & (major & minor & patch & -> & H1 & H2 & H3) & H).
    rewrite version_core_app.
    apply matches_cat. exists major, ("."%char :: minor ++ "."%char :: patch ++ t).
    split; [done|]. split; [by apply re_numeric_spec|].
    apply matches_chr_cons. eexists. split; [done|].
    apply matches_cat. exists minor, ("."%char :: patch ++ t).
    split; [done|]. split; [by apply re_numeric_spec|].
    apply matches_chr_cons. eexists. split; [done|].
    apply matches_cat. exists patch, t.
    split; [done|]. split; [by apply re_numeric_spec | done].
Qed.

Lemma re_suffix_spec t :
  matches (Cat (Opt (Cat (Chr "-") (re_dotted re_prerelease_id)))
               (Opt (Cat (Chr "+") (re_dotted re_build_id)))) t
  <-> t = [] \/
      (exists p, t = "-"%char :: p /\ pre_release p) \/
      (exists b, t = "+"%char :: b /\ build b) \/
      (exists p b, t = "-"%char :: p ++ "+"%char :: b /\ pre_release p /\ build b).
Proof.
  rewrite matches_cat. setoid_rewrite matches_opt.
  setoid_rewrite matches_chr_cons.
  setoid_rewrite re_prerelease_spec. setoid_rewrite re_build_spec.
  split.
  - intros (t1 & t2 & -> & [(p & -> & Hp)| ->] & [(b & -> & Hb)| ->]); simpl.
    + right; right; right. eauto.
    + right; left. rewrite app_nil_r. eauto.
    + right; right; left. eauto.
    + by left.
  - intros [->|[(p & -> & Hp)|[(b & -> & Hb)|(p & b & -> & Hp & Hb)]]].
    + exists [], []. split; [done|]. split; by right.
    + exists ("-"%char :: p), []. rewrite app_nil_r.
      split; [done|]. split; [left; eauto | by right].
    + exists [], ("+"%char :: b).
      split; [done|]. split; [by right | left; eauto].
    + exists ("-"%char :: p), ("+"%char :: b).
      split; [done|]. split; left; eauto.
Qed.

Lemma SEMVER_REGEX_matches s :
  matches SEMVER_REGEX s <-> valid_semver_chars s.
Proof.
  unfold SEMVER_REGEX, valid_semver_chars.
  rewrite re_core_then_spec. setoid_rewrite re_suffix_spec. split.
  - intros (v & t & -> & Hv &
      [->|[(p & -> & Hp)|[(b & -> & Hb)|(p & b & -> & Hp & Hb)]]]).
    + left. by rewrite app_nil_r.
    + right; left. eauto.
    + right; right; left. eauto.
    + right; right; right. exists v, p, b. eauto.
  - intros [Hv|[(v & p & -> & Hv & Hp)|[(v & b & -> & Hv & Hb)|
      (v & p & b & -> & Hv & Hp & Hb)]]].
    + exists s, []. rewrite app_nil_r. auto.
    + exists v, ("-"%char :: p).
      split; [done|]. split; [done|]. right; left. eauto.
    + exists v, ("+"%char :: b).
      split; [done|]. split; [done|]. right; right; left. eauto.
    + exists v, ("-"%char :: p ++ "+"%char :: b).
      split; [done|]. split; [done|]. right; right; right. eauto.
Qed.

(** [SEMVER_REGEX.test(s)] holds exactly of the strings of the grammar. *)
Lemma SEMVER_REGEX_test s :
  Regex.test SEMVER_REGEX s = true <-> valid_semver s.
Proof.
  unfold Regex.test, valid_semver.
  rewrite re_match_spec. apply SEMVER_REGEX_matches.
Qed.

Lemma SAFE_ID_REGEX_test s :
  Regex.test SAFE_ID_REGEX s = true <->
  s <> "" /\ Forall (fun c => cls_safe_id c = true) (list_ascii_of_string s).
Proof.
  unfold Regex.test, SAFE_ID_REGEX, Plus.
  rewrite re_match_spec, matches_cls_cons. split.
  - intros (c & t & E & Hc & Ht). apply matches_star_cls in Ht.
    split; [by destruct s|]. rewrite E. by constructor.
  - intros [Hne H]. destruct s as [|c s]; [done|]. simpl in *.
    apply Forall_cons in H as [Hc Ht].
    exists c, (list_ascii_of_string s). repeat split; [done|].
    by apply matches_star_cls.
Qed.

End SemVerTop.

Example semver_ok_1 : Regex.test SEMVER_REGEX "1.0.0" = true.
Proof. reflexivity. Qed.
Example semver_ok_2 :
  Regex.test SEMVER_REGEX "1.0.0-alpha.1+build.5" = true.
Proof. reflexivity. Qed.
Example semver_bad_1 : Regex.test SEMVER_REGEX "1.2" = false.
Proof. reflexivity. Qed.
Example semver_bad_2 : Regex.test SEMVER_REGEX "v1.2.3" = false.
Proof. reflexivity. Qed.
Example semver_bad_3 : Regex.test SEMVER_REGEX "01.2.3" = false.
Proof. reflexivity. Qed.
Example safe_id_ok : Regex.test SAFE_ID_REGEX "my-widget_2" = true.
Proof. reflexivity. Qed.
Example safe_id_bad : Regex.test SAFE_ID_REGEX "a/b" = false.
Proof. reflexivity. Qed.

(** ** [JSON.parse] inverts [JSON.stringify] *)

Module JSONFacts.
Import JSON.

Lemma delim_char c k :
  delim (String c k) ->
  is_ws c = false /\ cls_d c = false /\ starts_fraction_or_exponent (String c k) = false.
Proof. intros [-> | [-> | ->]]; done. Qed.

Lemma span_digits_delim k : delim k -> span_digits k = (EmptyString, k).
Proof.
  destruct k as [|c k]; [done|]. intros H.
  apply delim_char in H as (_ & H & _). simpl. by rewrite H.
Qed.

Lemma fraction_delim k : delim k -> starts_fraction_or_exponent k = false.
Proof.
  destruct k as [|c k]; [done|]. intros H. by apply delim_char in H as (_ & _ & H).
Qed.

Lemma parse_chars_escape_char c K s k :
  parse_chars K = Some (s, k) ->
  parse_chars (escape_char c K) = Some (String c s, k).
Proof.
  intros H.
  destruct c as [[|] [|] [|] [|] [|] [|] [|] [|]]; simpl; rewrite H; reflexivity.
Qed.

Lemma parse_chars_escape s k :
  parse_chars (escape s (String dquote k)) = Some (s, k).
Proof.
  induction s as [|c s IH]; [done|].
  simpl. by apply parse_chars_escape_char.
Qed.


Lemma span_digits_uint d k :
  delim k ->
  span_digits (NilEmpty.string_of_uint d +:+ k) = (NilEmpty.string_of_uint d, k).
Proof.
  intros Hk. induction d; simpl; rewrite ?IHd; try done.
  by apply span_digits_delim.
Qed.

Lemma parse_nat_uint d k :
  delim k -> d <> Decimal.Nil -> (forall d', d = Decimal.D0 d' -> d' = Decimal.Nil) ->
  parse_nat (NilEmpty.string_of_uint d +:+ k) = Some (Z.of_uint d, k).
Proof.
  intros Hk Hn Hz. unfold parse_nat.
  rewrite span_digits_uint, (fraction_delim k Hk), NilEmpty.usu by done.
  destruct d; try done.
  by rewrite (Hz d).
Qed.

Lemma pos_to_uint_head p d : Pos.to_uint p <> Decimal.D0 d.
Proof.
  intros E.
  assert (Hn : Pos.to_uint p = Decimal.unorm (Pos.to_uint p)).
  { rewrite <- DecimalPos.Unsigned.to_of, DecimalPos.Unsigned.of_to. done. }
  destruct (Decimal.nzhead (Pos.to_uint p)) eqn:Hh.
  1: { apply DecimalFacts.unorm_0 in Hh.
       apply (DecimalPos.Unsigned.to_uint_nonzero p). congruence. }
  all: rewrite DecimalFacts.unorm_nzhead in Hn by congruence.
  all: apply (DecimalFacts.nzhead_nonzero (Pos.to_uint p) d); congruence.
Qed.

Lemma parse_nat_pos p k :
  delim k ->
  parse_nat (NilEmpty.string_of_uint (Pos.to_uint p) +:+ k) = Some (Z.pos p, k).
Proof.
  intros Hk. rewrite parse_nat_uint; [|done|..].
  - unfold Z.of_uint. by rewrite DecimalPos.Unsigned.of_to.
  - apply DecimalPos.Unsigned.to_uint_nonnil.
  - intros d' E. by apply pos_to_uint_head in E.
Qed.

Lemma string_of_uint_pos p :
  NilZero.string_of_uint (Pos.to_uint p) = NilEmpty.string_of_uint (Pos.to_uint p).
Proof.
  pose proof (DecimalPos.Unsigned.to_uint_nonnil p).
  by destruct (Pos.to_uint p).
Qed.

Lemma string_of_uint_head d :
  d <> Decimal.Nil ->
  exists c r, NilEmpty.string_of_uint d = String c r /\ cls_d c = true.
Proof. destruct d; [done|..]; intros _; simpl; eauto. Qed.

Lemma print_num_head n k :
  exists c r, print_num n k = String c r /\ number_start c = true.
Proof.
  unfold print_num. destruct n as [|p|p]; simpl.
  - eauto.
  - rewrite string_of_uint_pos.
    destruct (string_of_uint_head (Pos.to_uint p)) as (c & r & -> & Hc).
    { apply DecimalPos.Unsigned.to_uint_nonnil. }
    exists c, (r +:+ k). split; [done|]. unfold number_start. rewrite Hc.
    apply orb_true_r.
  - eauto.
Qed.

Lemma parse_number_print_num n k :
  delim k -> parse_number (print_num n k) = Some (n, k).
Proof.
  intros Hk. unfold print_num. destruct n as [|p|p]; simpl.
  - apply (parse_nat_uint (Decimal.D0 Decimal.Nil) k Hk); [done|]. by intros d' [= <-].
  - rewrite string_of_uint_pos.
    pose proof (parse_nat_pos p k Hk) as H.
    destruct (string_of_uint_head (Pos.to_uint p)) as (c & r & E & Hc).
    { apply DecimalPos.Unsigned.to_uint_nonnil. }
    rewrite E in *. simpl. simpl in H.
    replace (Ascii.eqb c "-") with false; [done|].
    by destruct c as [[|] [|] [|] [|] [|] [|] [|] [|]].
  - rewrite string_of_uint_pos, parse_nat_pos by done. done.
Qed.

Lemma number_start_dispatch c :
  number_start c = true ->
  is_ws c = false /\ Ascii.eqb c "n" = false /\ Ascii.eqb c "t" = false /\
  Ascii.eqb c "f" = false /\ Ascii.eqb c dquote = false /\
  Ascii.eqb c "[" = false /\ Ascii.eqb c "{" = false.
Proof. by destruct c as [[|] [|] [|] [|] [|] [|] [|] [|]]. Qed.

Local Arguments parse_number : simpl never.

Lemma parse_value_num fuel n k :
  delim k -> parse_value (S fuel) (print_num n k) = Some (JNum n, k).
Proof.
  intros Hk. pose proof (parse_number_print_num n k Hk) as H.
  destruct (print_num_head n k) as (c & r & E & Hc). rewrite E in *.
  apply number_start_dispatch in Hc as (Hw & H1 & H2 & H3 & H4 & H5 & H6).
  simpl. rewrite Hw, H1, H2, H3, H4, H5, H6, H. done.
Qed.


Lemma print_head j k :
  exists c r, print j k = String c r /\ value_start c = true.
Proof.
  destruct j as [|[|]|n|s|[|x l]|[|[key x] l]]; simpl; eauto.
  destruct (print_num_head n k) as (c & r & -> & Hc).
  exists c, r. split; [done|]. unfold value_start. rewrite Hc.
  by rewrite !orb_true_r.
Qed.

Lemma value_start_not_close c r :
  value_start c = true ->
  next_is "]" (String c r) = None /\ next_is "}" (String c r) = None.
Proof. by destruct c as [[|] [|] [|] [|] [|] [|] [|] [|]]. Qed.

Lemma parse_elements_print l :
  Forall parses_back l ->
  forall x k fuel,
    parses_back x -> delim k ->
    (S (size x + fold_right (fun y acc => S (size y + acc)) 0 l) <= fuel)%nat ->
    parse_elements fuel
      (print x (fold_right (fun y acc => String "," (print y acc)) (String "]" k) l))
    = Some (x :: l, k).
Proof.
  induction 1 as [|y l Hy _ IH]; intros x k fuel Hx Hk Hf;
    (destruct fuel as [|fuel]; [lia|]); simpl in *.
  - rewrite Hx; [done | by right; left | lia].
  - rewrite Hx; [| by left | lia]. simpl.
    rewrite IH; [done | done | done | lia].
Qed.

Lemma parse_members_print l :
  Forall (fun m => parses_back (snd m)) l ->
  forall key x k fuel,
    parses_back x -> delim k ->
    (S (size x + fold_right (fun m acc => S (size (snd m) + acc)) 0 l) <= fuel)%nat ->
    parse_members fuel
      (quote key (String ":" (print x
         (fold_right
            (fun m acc => String "," (quote (fst m) (String ":" (print (snd m) acc))))
            (String "}" k) l))))
    = Some ((key, x) :: l, k).
Proof.
  induction 1 as [|[key' y] l Hy _ IH]; intros key x k fuel Hx Hk Hf;
    (destruct fuel as [|fuel]; [lia|]); simpl in *.
  - rewrite parse_chars_escape. simpl.
    rewrite Hx; [done | by right; right | lia].
  - rewrite parse_chars_escape. simpl.
    rewrite Hx; [| by left | lia]. simpl.
    rewrite IH; [done | done | done | lia].
Qed.

Lemma parse_value_print j : parses_back j.
Proof.
  induction j as [|b|n|s|l IH|l IH] using json_ind; intros k fuel Hk Hf;
    (destruct fuel as [|fuel]; [simpl in Hf; lia|]).
  - done.
  - by destruct b.
  - by apply parse_value_num.
  - simpl. by rewrite parse_chars_escape.
  - destruct l as [|x l]; [done|].
    apply Forall_cons in IH as [Hx Hl].
    cbn [print].
    destruct (print_head x
      (fold_right (fun y acc => String "," (print y acc)) (String "]" k) l))
      as (c & r & E & Hc).
    apply (value_start_not_close c r) in Hc as [Hc _].
    simpl. rewrite E in *. rewrite Hc. rewrite <- E.
    rewrite parse_elements_print; [done | done | done | done |].
    simpl in Hf. lia.
  - destruct l as [|[key x] l]; [done|].
    apply Forall_cons in IH as [Hx Hl].
    simpl. rewrite parse_members_print; [done | done | done | done |].
    simpl in Hf. lia.
Qed.

Lemma length_append (a b : string) :
  String.length (a +:+ b) = (String.length a + String.length b)%nat.
Proof. induction a as [|c a IH]; simpl; [done | by rewrite IH]. Qed.

Lemma length_escape_char c k :
  (S (String.length k) <= String.length (escape_char c k))%nat.
Proof. unfold escape_char. repeat case_match; simpl; lia. Qed.

Lemma length_escape s k : (String.length k <= String.length (escape s k))%nat.
Proof.
  induction s as [|c s IH]; simpl; [done|].
  pose proof (length_escape_char c (escape s k)). lia.
Qed.

Lemma length_quote s k : (2 + String.length k <= String.length (quote s k))%nat.
Proof.
  unfold quote. simpl.
  pose proof (length_escape s (String dquote k)). simpl in *. lia.
Qed.

Lemma length_String c s : String.length (String c s) = S (String.length s).
Proof. done. Qed.

Lemma length_member key x K (n : nat) :
  (forall k, (size x + String.length k <= String.length (print x k))%nat) ->
  (n <= String.length K)%nat ->
  (S (size x + n)
   <= String.length (quote key (String ":" (print x K))))%nat.
Proof.
  intros Hx Hn. pose proof (length_quote key (String ":" (print x K))) as Hq.
  rewrite length_String in Hq. specialize (Hx K). lia.
Qed.

Lemma length_string_of_int n :
  (1 <= String.length (NilZero.string_of_int (Z.to_int n)))%nat.
Proof.
  destruct n as [|p|p]; simpl; [lia|..]; rewrite string_of_uint_pos;
    (destruct (string_of_uint_head (Pos.to_uint p)) as (c & r & -> & _);
     [apply DecimalPos.Unsigned.to_uint_nonnil | simpl; lia]).
Qed.

Lemma length_print j :
  forall k, (size j + String.length k <= String.length (print j k))%nat.
Proof.
  induction j as [|b|n|s|l IH|l IH] using json_ind; intros k.
  - simpl. rewrite length_append. simpl. lia.
  - destruct b; simpl; rewrite length_append; simpl; lia.
  - unfold print, print_num. rewrite length_append.
    pose proof (length_string_of_int n). simpl. lia.
  - pose proof (length_quote s k). simpl in *. lia.
  - destruct l as [|x l]; [simpl; lia|].
    apply Forall_cons in IH as [Hx Hl]. cbn [print size fold_right].
    assert (Htail : forall k',
      (fold_right (fun y acc => S (size y + acc)) 0 l + String.length k'
       <= String.length
            (fold_right (fun y acc => String "," (print y acc)) k' l))%nat).
    { intros k'. induction Hl as [|y l Hy _ IHl]; simpl; [lia|].
      specialize (Hy (fold_right (fun y acc => String "," (print y acc)) k' l)).
      lia. }
    specialize (Hx (fold_right (fun y acc => String "," (print y acc))
                      (String "]" k) l)).
    specialize (Htail (String "]" k)). simpl in *. lia.
  - destruct l as [|[key x] l]; [simpl; lia|].
    apply Forall_cons in IH as [Hx Hl]. cbn [print size fold_right snd].
    assert (Htail : forall k',
      (fold_right (fun m acc => S (size (snd m) + acc)) 0 l + String.length k'
       <= String.length
            (fold_right
               (fun m acc =>
                  String "," (quote (fst m) (String ":" (print (snd m) acc))))
               k' l))%nat).
    { intros k'. induction Hl as [|m l Hm _ IHl]; cbn [fold_right]; [lia|].
      rewrite length_String.
      pose proof (length_member (fst m) (snd m) _ _ Hm IHl). lia. }
    specialize (Htail (String "}" k)). rewrite !length_String in *.
    simpl in Hx. pose proof (length_member key x _ _ Hx Htail). lia.
Qed.

Theorem parse_stringify j : parse (stringify j) = Ok j.
Proof.
  unfold parse, stringify.
  rewrite parse_value_print; [done | done |].
  pose proof (length_print j ""). lia.
Qed.

End JSONFacts.

(** ** The merge into the index *)

Section MergeFacts.

Lemma same_key_keys it e : same_key it e <-> entry_key e = update_key it.
Proof.
  unfold same_key, entry_key, update_key. split.
  - by intros [-> ->].
  - by intros [= -> ->].
Qed.

Lemma merge_update_nil it : merge_update [] it = [new_entry it].
Proof. done. Qed.

Lemma merge_update_cons e widgets it :
  merge_update (e :: widgets) it =
  if decide (same_key it e) then updated_entry e it :: widgets
  else e :: merge_update widgets it.
Proof.
  unfold merge_update. cbn [list_find].
  destruct (decide (same_key it e)) as [H|H]; [done|].
  destruct (list_find (same_key it) widgets) as [[i entry]|]; done.
Qed.

Lemma merge_update_absent widgets it :
  Forall (fun e => ~ same_key it e) widgets ->
  merge_update widgets it = widgets ++ [new_entry it].
Proof.
  induction 1 as [|e widgets He _ IH]; [done|].
  rewrite merge_update_cons, decide_False by done. by rewrite IH.
Qed.

Lemma merge_update_present before entry after it :
  Forall (fun e => ~ same_key it e) before ->
  same_key it entry ->
  merge_update (before ++ entry :: after) it
  = before ++ updated_entry entry it :: after.
Proof.
  intros Hb He. induction Hb as [|e before Hne _ IH]; simpl.
  - by rewrite merge_update_cons, decide_True.
  - rewrite merge_update_cons, decide_False by done. by rewrite IH.
Qed.

Lemma merge_loop_cons widgets it plan :
  merge_loop widgets (it :: plan) = merge_loop (merge_update widgets it) plan.
Proof. done. Qed.

Lemma merge_loop_app widgets plan1 plan2 :
  merge_loop widgets (plan1 ++ plan2)
  = merge_loop (merge_loop widgets plan1) plan2.
Proof. apply fold_left_app. Qed.

Lemma with_key_cons k e widgets :
  with_key k (e :: widgets)
  = if decide (entry_key e = k) then e :: with_key k widgets
    else with_key k widgets.
Proof. unfold with_key. by rewrite filter_cons. Qed.

Lemma with_key_merge_other k widgets it :
  update_key it <> k ->
  with_key k (merge_update widgets it) = with_key k widgets.
Proof.
  intros Hk. induction widgets as [|e widgets IH].
  - rewrite merge_update_nil, with_key_cons, decide_False; done.
  - rewrite merge_update_cons.
    destruct (decide (same_key it e)) as [H|H].
    + apply same_key_keys in H.
      rewrite !with_key_cons, !decide_False; [done | congruence |].
      unfold entry_key in *. simpl. congruence.
    + rewrite !with_key_cons, IH. done.
Qed.

Lemma with_key_merge_first widgets it :
  with_key (update_key it) widgets = [] ->
  with_key (update_key it) (merge_update widgets it) = [new_entry it].
Proof.
  intros H. rewrite merge_update_absent.
  - unfold with_key in *. rewrite filter_app, H, app_nil_l.
    rewrite filter_cons, decide_True; done.
  - apply Forall_forall. intros e He Hs. apply same_key_keys in Hs.
    assert (e ∈ with_key (update_key it) widgets) as Hin.
    { by apply list_elem_of_filter. }
    rewrite H in Hin. by apply not_elem_of_nil in Hin.
Qed.

Lemma with_key_merge_again widgets it e rest :
  with_key (update_key it) widgets = e :: rest ->
  with_key (update_key it) (merge_update widgets it)
  = updated_entry e it :: rest.
Proof.
  revert e rest. induction widgets as [|e' widgets IH]; intros e rest H.
  - done.
  - rewrite merge_update_cons. rewrite with_key_cons in H.
    destruct (decide (same_key it e')) as [Hs|Hs].
    + pose proof Hs as Hk. apply same_key_keys in Hk.
      rewrite decide_True in H by done. injection H as <- <-.
      rewrite with_key_cons, decide_True; done.
    + rewrite decide_False in H by (by rewrite <- same_key_keys).
      rewrite with_key_cons, decide_False by (by rewrite <- same_key_keys).
      by apply IH.
Qed.


Lemma keys_merge_update widgets it :
  map entry_key (merge_update widgets it)
  = if decide (update_key it ∈ map entry_key widgets) then map entry_key widgets
    else map entry_key widgets ++ [update_key it].
Proof.
  induction widgets as [|e widgets IH].
  - rewrite merge_update_nil. cbn [map].
    rewrite decide_False; [done|]. apply not_elem_of_nil.
  - rewrite merge_update_cons.
    destruct (decide (same_key it e)) as [Hs|Hs].
    + apply same_key_keys in Hs. cbn [map]. rewrite decide_True.
      * done.
      * rewrite Hs. apply list_elem_of_here.
    + cbn [map]. rewrite IH.
      assert (entry_key e <> update_key it) by (by rewrite <- same_key_keys).
      destruct (decide (update_key it ∈ map entry_key widgets)) as [Hin|Hin].
      * rewrite decide_True; [done|]. by apply list_elem_of_further.
      * rewrite decide_False; [done|].
        intros [?|?]%elem_of_cons; congruence.
Qed.

Lemma NoDup_keys_merge_update widgets it :
  NoDup (map entry_key widgets) ->
  NoDup (map entry_key (merge_update widgets it)).
Proof.
  intros H. rewrite keys_merge_update. case_decide; [done|].
  apply NoDup_app. split; [done|]. split.
  - intros k Hk Hin. apply list_elem_of_singleton in Hin. by subst.
  - apply NoDup_singleton.
Qed.

Lemma NoDup_keys_merge_loop widgets plan :
  NoDup (map entry_key widgets) ->
  NoDup (map entry_key (merge_loop widgets plan)).
Proof.
  revert widgets. induction plan as [|it plan IH]; intros widgets H; [done|].
  rewrite merge_loop_cons. apply IH. by apply NoDup_keys_merge_update.
Qed.

Lemma keys_merge_loop widgets plan k :
  k ∈ map entry_key (merge_loop widgets plan)
  <-> k ∈ map entry_key widgets \/ k ∈ map update_key plan.
Proof.
  revert widgets. induction plan as [|it plan IH]; intros widgets.
  - simpl. split; [by left|]. intros [H|H]; [done|]. by apply not_elem_of_nil in H.
  - rewrite merge_loop_cons, IH, keys_merge_update. cbn [map].
    rewrite elem_of_cons. case_decide as Hin.
    + split; [tauto|]. intros [H|[->|H]]; tauto.
    + rewrite elem_of_app, list_elem_of_singleton. tauto.
Qed.


Lemma with_key_perm k widgets widgets' :
  Permutation widgets widgets' ->
  Permutation (with_key k widgets) (with_key k widgets').
Proof. intros H. unfold with_key. by rewrite H. Qed.

End MergeFacts.

(** ** The sort of the entries *)

Section SortFacts.

Context {A : Type} (cmp : A -> A -> Z).

Lemma sort_insert_perm x l : Permutation (sort_insert cmp x l) (x :: l).
Proof.
  induction l as [|y l IH]; simpl; [done|].
  destruct (0 <? cmp x y); [|done].
  rewrite IH. apply perm_swap.
Qed.

Lemma array_sort_perm l : Permutation (array_sort cmp l) l.
Proof.
  induction l as [|x l IH]; simpl; [done|].
  unfold array_sort in *. simpl. rewrite sort_insert_perm. by constructor.
Qed.

(** The comparison function is consistent on the elements of [dom]. *)
Variable dom : A -> Prop.
Hypothesis cmp_total : forall x y, dom x -> dom y -> 0 < cmp x y -> cmp y x <= 0.
Hypothesis cmp_trans :
  forall x y z, dom x -> dom y -> dom z ->
                cmp x y <= 0 -> cmp y z <= 0 -> cmp x z <= 0.

Lemma sort_insert_sorted x l :
  dom x -> Forall dom l ->
  StronglySorted (fun a b => cmp a b <= 0) l ->
  StronglySorted (fun a b => cmp a b <= 0) (sort_insert cmp x l).
Proof using cmp_total cmp_trans.
  intros Hx Hd Hs. induction Hs as [|y l Hl IH Hy]; simpl.
  - repeat constructor.
  - apply Forall_cons in Hd as [Hdy Hd].
    destruct (Z.ltb_spec 0 (cmp x y)) as [Hxy|Hxy].
    + constructor; [by apply IH|].
      rewrite sort_insert_perm. constructor; [by apply cmp_total | done].
    + constructor; [by constructor|].
      constructor; [done|].
      rewrite List.Forall_forall in Hy. rewrite List.Forall_forall in Hd.
      apply List.Forall_forall. intros z Hz.
      apply (cmp_trans x y z); auto.
Qed.

Lemma array_sort_dom l : Forall dom l -> Forall dom (array_sort cmp l).
Proof. intros H. by rewrite array_sort_perm. Qed.

Lemma array_sort_sorted l :
  Forall dom l -> StronglySorted (fun a b => cmp a b <= 0) (array_sort cmp l).
Proof using cmp_total cmp_trans.
  induction l as [|x l IH]; intros Hd; [constructor|].
  apply Forall_cons in Hd as [Hx Hd].
  apply sort_insert_sorted; [done | by apply array_sort_dom | by apply IH].
Qed.

End SortFacts.

Section CompareEntries.

Variable P : Platform.
Hypothesis HL : Collator (localeCompare P).

Lemma collator_refl a : localeCompare P a a = 0.
Proof using HL.
  pose proof (collator_sym _ HL a a). lia.
Qed.

Lemma collator_zero a b : localeCompare P a b = 0 -> localeCompare P b a = 0.
Proof using HL.
  intros H. pose proof (collator_sym _ HL a b). pose proof (collator_sym _ HL b a).
  lia.
Qed.

Lemma compare_entries_total a b :
  0 < compare_entries P a b -> compare_entries P b a <= 0.
Proof using HL.
  unfold compare_entries. intros H.
  destruct (decide (RegistryEntry.handle a = RegistryEntry.handle b)) as [E|E].
  - rewrite bool_decide_eq_false_2 in H by (intros Hn; by apply Hn).
    rewrite bool_decide_eq_false_2 by (intros Hn; by apply Hn).
    apply (collator_sym _ HL) in H. lia.
  - rewrite bool_decide_eq_true_2 in H by done.
    rewrite bool_decide_eq_true_2 by congruence.
    apply (collator_sym _ HL) in H. lia.
Qed.

(** The handles of the entries at hand: no two different ones compare as
    equal. *)
Variable handles : list string.
Hypothesis Hfree : tie_free (localeCompare P) handles.

Lemma handles_differ a b :
  known handles a -> known handles b ->
  RegistryEntry.handle a <> RegistryEntry.handle b ->
  localeCompare P (RegistryEntry.handle a) (RegistryEntry.handle b) <> 0.
Proof using Hfree.
  intros Ha Hb Hne H. by apply Hne, Hfree.
Qed.

Lemma compare_entries_key_le a b :
  known handles a -> known handles b ->
  compare_entries P a b <= 0 <-> key_le (localeCompare P) a b.
Proof using HL Hfree.
  intros Ha Hb. unfold compare_entries, key_le. case_bool_decide as Hh.
  - pose proof (handles_differ a b Ha Hb Hh) as Hd. split.
    + intros H. left. lia.
    + intros [H|[H _]]; [lia | done].
  - split.
    + intros H. by right.
    + intros [H|[_ H]]; [|done].
      rewrite Hh in H. pose proof (collator_refl (RegistryEntry.handle b)) as Hr.
      lia.
Qed.

Lemma key_le_trans a b c :
  known handles a -> known handles b -> known handles c ->
  key_le (localeCompare P) a b -> key_le (localeCompare P) b c ->
  key_le (localeCompare P) a c.
Proof using HL Hfree.
  unfold key_le.
  intros Ha Hb Hc [Hab|[Eab Hab]] [Hbc|[Ebc Hbc]].
  - left.
    pose proof (collator_trans _ HL (RegistryEntry.handle a)
                  (RegistryEntry.handle b) (RegistryEntry.handle c)) as Ht.
    destruct (Z.eq_dec (localeCompare P (RegistryEntry.handle a)
                          (RegistryEntry.handle c)) 0) as [E0|E0]; [|lia].
    apply Hfree in E0; [|done..]. rewrite E0 in Hab.
    pose proof (collator_sym _ HL (RegistryEntry.handle b)
                  (RegistryEntry.handle c)).
    lia.
  - left. by rewrite <- Ebc.
  - left. by rewrite Eab.
  - right. split; [congruence|]. by eapply (collator_trans _ HL).
Qed.

Lemma compare_entries_trans a b c :
  known handles a -> known handles b -> known handles c ->
  compare_entries P a b <= 0 -> compare_entries P b c <= 0 ->
  compare_entries P a c <= 0.
Proof using HL Hfree.
  intros Ha Hb Hc. rewrite !compare_entries_key_le by done.
  by apply key_le_trans.
Qed.

Lemma sort_entries_sorted widgets :
  Forall (known handles) widgets ->
  StronglySorted (key_le (localeCompare P))
    (array_sort (compare_entries P) widgets).
Proof using HL Hfree.
  intros Hk.
  pose proof (array_sort_sorted (compare_entries P) (known handles)
                (fun x y _ _ => compare_entries_total x y)
                compare_entries_trans widgets Hk) as H.
  pose proof (array_sort_dom (compare_entries P) (known handles) widgets Hk) as Hd.
  induction H as [|a l Hl IH Ha]; constructor.
  - apply IH. by apply Forall_cons in Hd as [_ Hd].
  - apply Forall_cons in Hd as [Hda Hd].
    rewrite List.Forall_forall in Ha. rewrite List.Forall_forall in Hd.
    apply List.Forall_forall. intros b Hb.
    apply compare_entries_key_le; auto.
Qed.

End CompareEntries.

(** The handles of the merged entries are those of the entries read and of
    the updates. *)
Lemma handles_merge_loop widgets plan e :
  e ∈ merge_loop widgets plan ->
  RegistryEntry.handle e
  ∈ map RegistryEntry.handle widgets ++ map RegistryUpdate.handle plan.
Proof.
  intros He.
  assert (entry_key e ∈ map entry_key (merge_loop widgets plan)) as Hk
    by (by apply (list_elem_of_fmap_2 entry_key)).
  apply keys_merge_loop in Hk as [Hk|Hk].
  - apply list_elem_of_fmap in Hk as (e' & [= Hh _] & He').
    apply elem_of_app. left. rewrite Hh.
    by apply (list_elem_of_fmap_2 RegistryEntry.handle).
  - apply list_elem_of_fmap in Hk as (u & [= Hh _] & Hu).
    apply elem_of_app. right. rewrite Hh.
    by apply (list_elem_of_fmap_2 RegistryUpdate.handle).
Qed.

Lemma ids_merge_loop widgets plan e :
  e ∈ merge_loop widgets plan ->
  RegistryEntry.id e ∈ map RegistryEntry.id widgets ++ map RegistryUpdate.id plan.
Proof.
  intros He.
  assert (entry_key e ∈ map entry_key (merge_loop widgets plan)) as Hk
    by (by apply (list_elem_of_fmap_2 entry_key)).
  apply keys_merge_loop in Hk as [Hk|Hk].
  - apply list_elem_of_fmap in Hk as (e' & [= _ Hi] & He').
    apply elem_of_app. left. rewrite Hi.
    by apply (list_elem_of_fmap_2 RegistryEntry.id).
  - apply list_elem_of_fmap in Hk as (u & [= _ Hi] & Hu).
    apply elem_of_app. right. rewrite Hi.
    by apply (list_elem_of_fmap_2 RegistryUpdate.id).
Qed.

(** The sample collations are consistent comparisons. *)
Lemma code_units_collator : Collator Sample.compare_code_units.
Proof.
  assert (Hle : forall a b, Sample.compare_code_units a b <= 0 <-> String.le a b).
  { intros a b. unfold Sample.compare_code_units, String.le, String.leb.
    destruct (String.compare a b); simpl; split; (lia || done). }
  split.
  - intros a b. unfold Sample.compare_code_units.
    rewrite (String.compare_antisym b a).
    destruct (String.compare a b); simpl; lia.
  - intros a b c Hab Hbc. apply Hle in Hab, Hbc. apply Hle. by etrans.
Qed.

Lemma code_units_zero a b : Sample.compare_code_units a b = 0 -> a = b.
Proof.
  unfold Sample.compare_code_units.
  destruct (String.compare a b) eqn:E; try done.
  intros _. by apply String.compare_eq_iff.
Qed.

Lemma locale_collator : Collator Sample.compare_locale.
Proof.
  destruct code_units_collator as [Hs Ht]. unfold Sample.compare_locale. split.
  - intros a b. apply Hs.
  - intros a b c. apply Ht.
Qed.

(** A list of strings that comparison by code units tells apart is free of
    ties, whatever the strings. *)
Lemma code_units_tie_free l : tie_free Sample.compare_code_units l.
Proof. intros a b _ _. apply code_units_zero. Qed.

(** ** The claims about the merge and the sort *)

(** The entry that the test of [find] selects, if any: the entries before
    it fail the test. *)
Lemma find_first_same_key it (widgets : list RegistryEntry.t) :
  Forall (fun e => ~ same_key it e) widgets \/
  exists before entry after,
    widgets = before ++ entry :: after /\
    Forall (fun e => ~ same_key it e) before /\ same_key it entry.
Proof.
  induction widgets as [|e widgets IH]; [by left|].
  destruct (decide (same_key it e)) as [He|He].
  - right. by exists [], e, widgets.
  - destruct IH as [IH|(before & entry & after & -> & Hb & Hs)].
    + left. by constructor.
    + right. exists (e :: before), entry, after. split; [done|].
      split; [by constructor | done].
Qed.

(** C1.  The loop over the accumulated updates merges them one after the
    other, from the entries that were read: the entries are unchanged before
    the first update, the update at position [i] is merged into the entries
    that the updates before it have left, and the entries after the last
    update are the result of the loop.  For an update, the merge looks for
    an entry with the pair (handle, id) of the update.  When there is none,
    it adds an entry whose name, authors and description are those of the
    manifest of the update and whose releases are the one new release.
    When there is one, the first such entry gets the name, authors and
    description of the manifest, and the new release in front of its
    releases, which stay as they were.  One of the two is the case. *)
Theorem index_merge_find_or_create (widgets : list RegistryEntry.t)
  (registryUpdatePlan : list RegistryUpdate.t) :
  merge_loop widgets [] = widgets /\
  merge_loop widgets (take (length registryUpdatePlan) registryUpdatePlan)
  = merge_loop widgets registryUpdatePlan /\
  forall (i : nat) (it : RegistryUpdate.t),
    registryUpdatePlan !! i = Some it ->
    let manifest := RegistryUpdate.manifest it in
    let release :=
      RegistryEntryRelease.mk (Widget.version (RegistryUpdate.widget it))
        (RegistryUpdate.publishedAt it) (RegistryUpdate.digest it) in
    let current := merge_loop widgets (take i registryUpdatePlan) in
    merge_loop widgets (take (S i) registryUpdatePlan) = merge_update current it /\
    (Forall (fun e => ~ same_key it e) current ->
     merge_update current it =
     current ++
     [RegistryEntry.mk (RegistryUpdate.handle it) (RegistryUpdate.id it)
        (WidgetManifest.name manifest) (WidgetManifest.authors manifest)
        (WidgetManifest.description manifest) [release]]) /\
    (forall before entry after,
       current = before ++ entry :: after ->
       Forall (fun e => ~ same_key it e) before ->
       same_key it entry ->
       merge_update current it =
       before ++
       RegistryEntry.mk (RegistryEntry.handle entry) (RegistryEntry.id entry)
         (WidgetManifest.name manifest) (WidgetManifest.authors manifest)
         (WidgetManifest.description manifest)
         (release :: RegistryEntry.releases entry)
       :: after) /\
    (Forall (fun e => ~ same_key it e) current \/
     exists before entry after,
       current = before ++ entry :: after /\
       Forall (fun e => ~ same_key it e) before /\ same_key it entry).
Proof.
  split; [done|]. split; [by rewrite firstn_all|].
  intros i it Hi manifest release current. split; [|split; [|split]].
  - rewrite (take_S_r _ _ _ Hi), merge_loop_app. done.
  - apply merge_update_absent.
  - intros before entry after -> Hb He. by apply merge_update_present.
  - apply find_first_same_key.
Qed.

Lemma index_merge_find_or_create_witness :
  merge_loop [Sample.stub "zeta" "dial"] [Sample.update1; Sample.update2]
  = [Sample.stub "zeta" "dial";
     RegistryEntry.mk "acme" "clock" "Clock 2"
       [AuthorObject "B" (Some "b@example.com") None] "A better clock"
       [Sample.release2; Sample.release1]].
Proof.
  destruct (index_merge_find_or_create [Sample.stub "zeta" "dial"]
              [Sample.update1; Sample.update2]) as (_ & Hlast & Hstep).
  rewrite <- Hlast. cbn [length].
  destruct (Hstep 1%nat Sample.update2 eq_refl) as (Hnext & _ & Hfound & _).
  rewrite Hnext.
  apply (Hfound [Sample.stub "zeta" "dial"] Sample.entry1 []).
  - reflexivity.
  - repeat constructor. by intros [[=] _].
  - by split.
Defined.



(** C4, as the specification states it, fails.  With a collation in the
    manner of [localeCompare], the widgets ["B"] and ["a"] are written with
    ["a"] first, which is not the order of the code units of the strings.
    And two handles that are different strings but canonically equivalent
    compare as equal, so that the script does not look at the ids: the
    entries (é, "b") and (é, "a"), the é of the one a single code point and
    the é of the other an e with a combining accent, stay in that order. *)
Lemma widgets_order_is_not_for_every_list :
  let P := Sample.locale_platform in
  let L := localeCompare P in
  let index l := RegistryIndex.mk 1 "2025-11-01T00:00:00.000Z" l in
  let tied := [Sample.stub Sample.e_acute "b"; Sample.stub Sample.e_combining "a"] in
  Collator L /\
  RegistryIndex.widgets
    (update_index P 0 (index [Sample.stub "B" "1"; Sample.stub "a" "1"]) [])
  = [Sample.stub "a" "1"; Sample.stub "B" "1"] /\
  String.ltb "B" "a" = true /\
  Sample.e_acute <> Sample.e_combining /\
  L Sample.e_acute Sample.e_combining = 0 /\
  0 < L "b" "a" /\
  RegistryIndex.widgets (update_index P 0 (index tied) []) = tied /\
  ~ StronglySorted (key_le L) tied /\
  ~ (forall (P : Platform) (now : Z) (index : RegistryIndex.t)
            (registryUpdatePlan : list RegistryUpdate.t),
       Collator (localeCompare P) ->
       StronglySorted (key_le (localeCompare P))
         (RegistryIndex.widgets (update_index P now index registryUpdatePlan))).
Proof.
  intros P L index tied.
  assert (~ StronglySorted (key_le L) tied) as Hno.
  { intros H. apply StronglySorted_inv in H as [_ H].
    apply List.Forall_inv in H. destruct H as [H|[H _]]; [|done].
    by vm_compute in H. }
  split; [apply locale_collator|].
  do 6 (split; [by vm_compute|]).
  split; [done|]. intros H.
  apply Hno. apply (H P 0 (index tied) []). apply locale_collator.
Qed.

(** C4, as amended.  The [widgets] of the index that an update pass hands
    to [writeRegistryIndex] are the merged entries, sorted in ascending
    order of the pair (handle, id) under [localeCompare]: every entry stands
    before the entries that follow it.  This holds when no two different
    handles, of the entries that were read and of the updates, compare as
    equal; and the same holds for the sort of any list of entries.  What is
    asked of [localeCompare] is that it compares consistently. *)
Theorem widgets_sorted_by_handle_and_id (P : Platform)
  (HL : Collator (localeCompare P)) (now : Z) (index : RegistryIndex.t)
  (registryUpdatePlan : list RegistryUpdate.t) (widgets : list RegistryEntry.t) :
  let L := localeCompare P in
  let final := RegistryIndex.widgets (update_index P now index registryUpdatePlan) in
  (tie_free L (map RegistryEntry.handle (RegistryIndex.widgets index)
               ++ map RegistryUpdate.handle registryUpdatePlan) ->
   StronglySorted (key_le L) final) /\
  Permutation final
    (merge_loop (RegistryIndex.widgets index) registryUpdatePlan) /\
  (tie_free L (map RegistryEntry.handle widgets) ->
   StronglySorted (key_le L) (array_sort (compare_entries P) widgets)) /\
  Permutation (array_sort (compare_entries P) widgets) widgets.
Proof.
  intros L final. subst final. unfold update_index. cbn [RegistryIndex.widgets].
  split; [|split; [|split]].
  - intros Hfree. apply (sort_entries_sorted P HL _ Hfree).
    apply Forall_forall. intros e He. by apply handles_merge_loop.
  - apply array_sort_perm.
  - intros Hfree. apply (sort_entries_sorted P HL _ Hfree).
    apply Forall_forall. intros e He.
    by apply (list_elem_of_fmap_2 RegistryEntry.handle).
  - apply array_sort_perm.
Qed.

(** The example of the specification, with strings compared by code
    units. *)
Example widgets_sorted_example :
  map entry_key
    (array_sort (compare_entries Sample.platform)
       [Sample.stub "b" "1"; Sample.stub "a" "2"; Sample.stub "a" "1"])
  = [("a", "1"); ("a", "2"); ("b", "1")].
Proof. reflexivity. Qed.

Lemma widgets_sorted_by_handle_and_id_witness :
  StronglySorted (key_le Sample.compare_locale)
    (RegistryIndex.widgets
       (update_index Sample.locale_platform 0
          (RegistryIndex.mk 1 "2025-11-01T00:00:00.000Z"
             [Sample.stub "b" "1"; Sample.stub "a" "2"])
          [RegistryUpdate.mk "a" "1" Sample.widget Sample.manifest
             "2025-11-03T07:00:05.124Z" "sha256:0000"])) /\
  map entry_key
    (RegistryIndex.widgets
       (update_index Sample.locale_platform 0
          (RegistryIndex.mk 1 "2025-11-01T00:00:00.000Z"
             [Sample.stub "b" "1"; Sample.stub "a" "2"])
          [RegistryUpdate.mk "a" "1" Sample.widget Sample.manifest
             "2025-11-03T07:00:05.124Z" "sha256:0000"]))
  = [("a", "1"); ("a", "2"); ("b", "1")].
Proof.
  split; [|by vm_compute].
  apply (widgets_sorted_by_handle_and_id Sample.locale_platform
           locale_collator 0
           (RegistryIndex.mk 1 "2025-11-01T00:00:00.000Z"
              [Sample.stub "b" "1"; Sample.stub "a" "2"])
           [RegistryUpdate.mk "a" "1" Sample.widget Sample.manifest
              "2025-11-03T07:00:05.124Z" "sha256:0000"] []).
  intros a b Ha Hb H. cbn in Ha, Hb.
  repeat (apply elem_of_cons in Ha as [->|Ha]);
    try (by apply not_elem_of_nil in Ha);
    repeat (apply elem_of_cons in Hb as [->|Hb]);
    try (by apply not_elem_of_nil in Hb);
    try reflexivity; by vm_compute in H.
Defined.

(** ** The loop over the publish plan *)

Section PublishFacts.

Variable P : Platform.
Variable Ext : Type.
Variable T : Tools Ext.
Variable env : gmap string string.

Lemma publish_loop_cons it plan w :
  publish_loop P Ext T env (it :: plan) w =
  '(u, w1) ← publish_entry P Ext T env it w;
  '(us, w2) ← publish_loop P Ext T env plan w1;
  Ok (u :: us, w2).
Proof. done. Qed.

Lemma publish_loop_cons_ok it plan w ups w' :
  publish_loop P Ext T env (it :: plan) w = Ok (ups, w') ->
  exists u w1 us,
    publish_entry P Ext T env it w = Ok (u, w1) /\
    publish_loop P Ext T env plan w1 = Ok (us, w') /\ ups = u :: us.
Proof.
  rewrite publish_loop_cons. intros H.
  apply bind_ok in H as ([u w1] & H1 & H).
  apply bind_ok in H as ([us w2] & H2 & [= <- <-]).
  eauto 6.
Qed.

Lemma publish_entry_ok it w u w' :
  publish_entry P Ext T env it w = Ok (u, w') ->
  exists pushResult,
    stage_and_push P Ext T env it w = Ok (pushResult, w') /\
    RegistryUpdate.publishedAt u =
    match createdAt pushResult with
    | Some created => created
    | None => toISOString P (clock w')
    end.
Proof.
  unfold publish_entry. intros H.
  apply bind_ok in H as ([r w3] & H1 & [= <- <-]).
  exists r. split; [done|]. done.
Qed.

End PublishFacts.

(** ** The command line of the push *)

Lemma has_colon_reference dst version :
  has_colon (dst +:+ ":v" +:+ version) = true.
Proof.
  induction dst as [|c dst IH]; [done|].
  unfold has_colon in *. simpl. by rewrite IH, orb_true_r.
Qed.

Lemma reference_not_flag dst version :
  String.eqb (dst +:+ ":v" +:+ version) "--annotation" = false.
Proof.
  apply String.eqb_neq. intros E.
  pose proof (has_colon_reference dst version) as H. by rewrite E in H.
Qed.

Lemma annotations_of_flag value rest :
  annotations_of ("--annotation" :: value :: rest) = value :: annotations_of rest.
Proof. done. Qed.

Lemma annotations_of_skip flag x rest :
  String.eqb flag "--annotation" = false ->
  annotations_of (flag :: x :: rest) = annotations_of (x :: rest).
Proof. intros H. cbn [annotations_of]. by rewrite H. Qed.

Lemma annotations_of_push_args dst widget manifest dryRun :
  annotations_of (push_args dst widget manifest dryRun)
  = flat_map (fun entry =>
                match entry.2 with
                | Some value =>
                    ["org.opencontainers.image." +:+ entry.1 +:+ "=" +:+ value]
                | None => []
                end)
             (standardAnnotations widget manifest).
Proof.
  unfold push_args, standardAnnotations.
  cbn [flat_map annotation_args app fst snd].
  destruct dryRun; cbn [app];
    rewrite !annotations_of_skip by reflexivity;
    rewrite !annotations_of_flag;
    rewrite annotations_of_skip by apply reference_not_flag;
    rewrite !annotations_of_skip by reflexivity;
    reflexivity.
Qed.

(** C7, as amended.  For every widget and manifest, the command line of
    the push has an annotation [org.opencontainers.image.<key>=<value>] for
    exactly the standard keys whose value is defined, in the order of the
    keys.  These are the nine keys other than [created], whatever the
    widget and the manifest: a value that is the empty string is sent as it
    is.  No annotation sets [created]. *)
Theorem push_annotations (dst : string) (widget : Widget.t)
  (manifest : WidgetManifest.t) (dryRun : bool) :
  let sent := annotations_of (push_args dst widget manifest dryRun) in
  sent
  = flat_map (fun entry =>
                match entry.2 with
                | Some value =>
                    ["org.opencontainers.image." +:+ entry.1 +:+ "=" +:+ value]
                | None => []
                end)
             (standardAnnotations widget manifest) /\
  sent
  = ["org.opencontainers.image.authors=" +:+
       JSON.stringify (JArr (map author_value (WidgetManifest.authors manifest)));
     "org.opencontainers.image.url=" +:+ WidgetManifest.homepage manifest;
     "org.opencontainers.image.source=" +:+
       (Widget.repo widget +:+ "@" +:+ Widget.commit widget);
     "org.opencontainers.image.version=" +:+ Widget.version widget;
     "org.opencontainers.image.revision=" +:+ Widget.commit widget;
     "org.opencontainers.image.vendor=Deskulpt";
     "org.opencontainers.image.licenses=" +:+ WidgetManifest.license manifest;
     "org.opencontainers.image.title=" +:+ WidgetManifest.name manifest;
     "org.opencontainers.image.description=" +:+
       WidgetManifest.description manifest] /\
  Forall (fun a => String.prefix "org.opencontainers.image.created" a = false)
         sent.
Proof.
  intros sent. subst sent. rewrite annotations_of_push_args.
  split; [done|]. split; [done|].
  repeat constructor.
Qed.

(** C7 as the specification states it fails: a manifest with the empty
    string as its license passes [WidgetManifestSchema], and the command
    line of its push has the annotation of [licenses] with an empty
    value. *)
Lemma push_sends_empty_annotation :
  WidgetManifestSchema Sample.string_formats
    (JObj [("name", JStr "Clock"); ("version", JStr "1.0.0");
           ("authors", JArr [JStr "A"]); ("license", JStr "");
           ("description", JStr "A clock");
           ("homepage", JStr "https://example.com")])
  = Ok Sample.manifest_no_license /\
  ~ (forall dst widget manifest dryRun,
       Forall (fun a => ~ empty_valued a)
              (annotations_of (push_args dst widget manifest dryRun))).
Proof.
  split; [reflexivity|].
  intros H.
  specialize (H "ghcr.io/acme/acme/clock" Sample.widget
                Sample.manifest_no_license false).
  rewrite annotations_of_push_args in H.
  apply Forall_forall with (x := "org.opencontainers.image.licenses=") in H.
  - apply H. by exists "licenses".
  - cbn. set_solver.
Qed.
(** ** The issues of a validation *)

Lemma zod_only_both {A B} (ra : result A) (rb : result B) :
  zod_only ra -> zod_only rb -> zod_only (both ra rb).
Proof. by destruct ra as [|[]], rb as [|[]]. Qed.

Lemma issues_both {A B} (ra : result A) (rb : result B) :
  zod_only ra -> zod_only rb ->
  issues (both ra rb) = issues ra ++ issues rb.
Proof.
  destruct ra as [|[]], rb as [|[]]; simpl; try done.
  intros _ _. by rewrite app_nil_r.
Qed.

Lemma is_ok_both {A B} (ra : result A) (rb : result B) :
  is_ok (both ra rb) = is_ok ra && is_ok rb.
Proof. by destruct ra as [|[]], rb as [|[]]. Qed.

Lemma zod_only_at_seg {A} g (r : result A) : zod_only r -> zod_only (at_seg g r).
Proof. by destruct r as [|[]]. Qed.

Lemma issues_at_seg {A} g (r : result A) : issues (at_seg g r) = map (cons g) (issues r).
Proof. by destruct r as [|[]]. Qed.

Lemma zod_only_required {A} k (s : schema A) o :
  (forall v, zod_only (s v)) -> zod_only (required k s o).
Proof.
  intros H. unfold required. destruct (field k o); by apply zod_only_at_seg.
Qed.

Lemma zod_only_optional {A} k (s : schema A) o :
  (forall v, zod_only (s v)) -> zod_only (optional k s o).
Proof.
  intros H. unfold optional. destruct (field k o) as [v|]; [|done].
  apply zod_only_at_seg. specialize (H v). by destruct (s v) as [|[]].
Qed.

Lemma issues_required_head {A} k (s : schema A) o p :
  In p (issues (required k s o)) -> exists q, p = Key k :: q.
Proof.
  unfold required. destruct (field k o); rewrite issues_at_seg;
    intros (q & <- & _)%in_map_iff; eauto.
Qed.

Lemma issues_optional_head {A} k (s : schema A) o p :
  In p (issues (optional k s o)) -> exists q, p = Key k :: q.
Proof.
  unfold optional. destruct (field k o); [|done]. rewrite issues_at_seg.
  intros (q & <- & _)%in_map_iff; eauto.
Qed.

Lemma zod_only_check {A} (s : schema A) ok j :
  zod_only (s j) -> zod_only (z_check s ok j).
Proof.
  unfold z_check. destruct (s j) as [a|[]]; try done.
  intros _. simpl. by destruct (ok a).
Qed.


Lemma zod_only_string j : zod_only (z_string j).
Proof. by destruct j. Qed.

Lemma zod_only_regex r j : zod_only (z_regex r j).
Proof. apply zod_only_check, zod_only_string. Qed.

Lemma zod_only_max len n j : zod_only (z_max len n j).
Proof. apply zod_only_check, zod_only_string. Qed.

Lemma required_regex k r o v :
  field k o = Some (JStr v) ->
  required k (z_regex r) o
  = if Regex.test r v then Ok v else Err (ZodError [[Key k]]).
Proof.
  intros H. unfold required, z_regex, z_check. rewrite H. simpl.
  by destruct (Regex.test r v).
Qed.

Lemma issues_bind {A B} (r : result A) (k : A -> result B) :
  (forall a, issues (k a) = []) -> issues (r ≫= k) = issues r.
Proof. intros H. destruct r as [a|e]; [apply H | done]. Qed.

Lemma is_ok_bind {A B} (r : result A) (k : A -> result B) :
  (forall a, is_ok (k a) = true) -> is_ok (r ≫= k) = is_ok r.
Proof. intros H. destruct r as [a|e]; [apply H | done]. Qed.

Lemma zod_only_url F j : zod_only (z_url F j).
Proof.
  unfold z_url. destruct j; try done. simpl. by destruct (fmt_url F s).
Qed.

Lemma zod_only_union {A} (a b : schema A) j : zod_only (z_union a b j).
Proof. unfold z_union. destruct (a j); [done|]. by destruct (b j). Qed.

Lemma zod_only_elements {A} (s : schema A) l :
  (forall j, zod_only (s j)) -> forall i, zod_only (z_elements s i l).
Proof.
  intros H. induction l as [|x l IH]; intros i; [done|]. simpl.
  pose proof (zod_only_both _ _ (zod_only_at_seg (Idx i) _ (H x)) (IH (S i))) as Hb.
  destruct (both _ _) as [[a r]|[]]; done.
Qed.

Lemma zod_only_array {A} (s : schema A) j :
  (forall j, zod_only (s j)) -> zod_only (z_array s j).
Proof. intros H. destruct j; try done. by apply zod_only_elements. Qed.

Lemma zod_only_min1 {A} (s : schema (list A)) j :
  zod_only (s j) -> zod_only (z_min1 s j).
Proof. apply zod_only_check. Qed.

(** The results of the schemas are values or [ZodError]s. *)
Ltac zod_only :=
  repeat first
    [ apply zod_only_both
    | apply zod_only_required; intros ?
    | apply zod_only_optional; intros ?
    | apply zod_only_min1
    | apply zod_only_array; intros ?
    | apply zod_only_regex
    | apply zod_only_max
    | apply zod_only_url
    | apply zod_only_union
    | apply zod_only_string
    | apply zod_only_check ].

Lemma zod_only_int j : zod_only (z_int j).
Proof.
  destruct j; try done. simpl.
  by destruct ((- MAX_SAFE_INTEGER <=? n) && (n <=? MAX_SAFE_INTEGER)).
Qed.

Lemma zod_only_WidgetSchema F j : zod_only (WidgetSchema F j).
Proof.
  destruct j as [| | | | |o]; try done. unfold WidgetSchema, z_object.
  match goal with |- zod_only (?r ≫= _) => assert (zod_only r) as Hr end.
  { zod_only. }
  destruct (both _ _) as [(?&?&?&?)|[]]; done.
Qed.

Lemma zod_only_WidgetManifestSchema F j : zod_only (WidgetManifestSchema F j).
Proof.
  destruct j as [| | | | |o]; try done. unfold WidgetManifestSchema, z_object.
  match goal with |- zod_only (?r ≫= _) => assert (zod_only r) as Hr end.
  { zod_only. }
  destruct (both _ _) as [(?&?&?&?&?&?)|[]]; done.
Qed.

Lemma zod_only_PublisherSchema j : zod_only (PublisherSchema j).
Proof.
  unfold PublisherSchema. apply zod_only_check.
  destruct j as [| | | | |o]; try done. unfold z_object.
  match goal with |- zod_only (?r ≫= _) => assert (zod_only r) as Hr end.
  { repeat first [ apply zod_only_both | apply zod_only_optional; intros ?
                 | apply zod_only_array; intros ? | apply zod_only_int ]. }
  destruct (both _ _) as [(?&?&?)|[]]; done.
Qed.

Lemma zod_only_entries {A} (ks : schema string) (vs : schema A) o :
  (forall j, zod_only (ks j)) -> (forall j, zod_only (vs j)) ->
  zod_only (z_entries ks vs o).
Proof.
  intros Hk Hv. induction o as [|[k v] o IH]; [done|]. simpl.
  destruct (String.eqb k "__proto__"); [done|].
  match goal with |- zod_only (?r ≫= _) => assert (zod_only r) as Hr end.
  { apply zod_only_both; [|done]. apply zod_only_at_seg.
    destruct (ks (JStr k)) as [k'|]; [|done].
    pose proof (Hv v) as Hvv. by destruct (vs v) as [a|[]]. }
  destruct (both _ _) as [[? ?]|[]]; done.
Qed.

Lemma zod_only_WidgetsSchema F j : zod_only (WidgetsSchema F j).
Proof.
  destruct j as [| | | | |o]; try done.
  unfold WidgetsSchema, z_record, z_object.
  pose proof (zod_only_entries (z_regex SAFE_ID_REGEX) (WidgetSchema F) (props o)
                (zod_only_regex _) (zod_only_WidgetSchema F)) as H.
  destruct (z_entries _ _ _) as [l|[]]; done.
Qed.

(** C6.  The [version] of a widget and of a manifest is validated against
    [SEMVER_REGEX], which accepts exactly the strings of the SemVer grammar:
    both schemas raise an issue at [version] exactly when the string is not
    in the grammar, and then reject the value; ["1.2"] and ["v1.2.3"] are not
    in the grammar. *)
Theorem version_must_be_semver (F : Formats) (o : list (string * json))
  (v : string) :
  field "version" o = Some (JStr v) ->
  (z_regex SEMVER_REGEX (JStr v) = Ok v <-> SemVer.valid_semver v) /\
  (In [Key "version"] (issues (WidgetSchema F (JObj o)))
   <-> ~ SemVer.valid_semver v) /\
  (In [Key "version"] (issues (WidgetManifestSchema F (JObj o)))
   <-> ~ SemVer.valid_semver v) /\
  (~ SemVer.valid_semver v ->
   is_ok (WidgetSchema F (JObj o)) = false /\
   is_ok (WidgetManifestSchema F (JObj o)) = false) /\
  ~ SemVer.valid_semver "1.2" /\ ~ SemVer.valid_semver "v1.2.3".
Proof.
  intros Hv.
  pose proof (SEMVER_REGEX_test v) as Ht.
  pose proof (required_regex "version" SEMVER_REGEX o v Hv) as Hreq.
  assert (Hissue : In [Key "version"]
                      (issues (required "version" (z_regex SEMVER_REGEX) o))
                   <-> ~ SemVer.valid_semver v).
  { rewrite Hreq. destruct (Regex.test SEMVER_REGEX v); simpl.
    - split; [done|]. intros H. apply H, Ht. done.
    - split; [|by left]. intros _ H. apply Ht in H. done. }
  assert (Hother : forall {A} k (s : schema A),
            k <> "version" -> ~ In [Key "version"] (issues (required k s o))).
  { intros A k s Hk (q & [= E _])%issues_required_head. congruence. }
  assert (Hopt : forall {A} k (s : schema A),
            k <> "version" -> ~ In [Key "version"] (issues (optional k s o))).
  { intros A k s Hk (q & [= E _])%issues_optional_head. congruence. }
  split; [|split; [|split; [|split]]].
  - unfold z_regex, z_check. simpl.
    destruct (Regex.test SEMVER_REGEX v); split; try done.
    + intros _. by apply Ht.
    + intros H. apply Ht in H. done.
  - unfold WidgetSchema, z_object.
    rewrite issues_bind by (by intros (?&?&?&?)).
    rewrite !issues_both by zod_only.
    rewrite !in_app_iff, Hissue.
    pose proof (Hother _ "repo" (z_url F) ltac:(done)).
    pose proof (Hother _ "commit"
      (z_union (z_format (fmt_hash_sha1 F)) (z_format (fmt_hash_sha256 F))) ltac:(done)).
    pose proof (Hopt _ "path" z_string ltac:(done)).
    tauto.
  - unfold WidgetManifestSchema, z_object.
    rewrite issues_bind by (by intros (?&?&?&?&?&?)).
    rewrite !issues_both by zod_only.
    rewrite !in_app_iff, Hissue.
    pose proof (Hother _ "name" (z_max (fmt_length F) 80) ltac:(done)).
    pose proof (Hother _ "authors"
      (z_min1 (z_array (WidgetManifestAuthorSchema F))) ltac:(done)).
    pose proof (Hother _ "license" z_string ltac:(done)).
    pose proof (Hother _ "description" (z_max (fmt_length F) 160) ltac:(done)).
    pose proof (Hother _ "homepage" (z_url F) ltac:(done)).
    tauto.
  - intros Hn.
    assert (Regex.test SEMVER_REGEX v = false) as Hf.
    { destruct (Regex.test SEMVER_REGEX v); [|done]. exfalso. by apply Hn, Ht. }
    rewrite Hf in Hreq.
    unfold WidgetSchema, WidgetManifestSchema, z_object.
    rewrite is_ok_bind by (by intros (?&?&?&?)).
    rewrite (is_ok_bind (both (required "name" _ _) _))
      by (by intros (?&?&?&?&?&?)).
    rewrite !is_ok_both, Hreq. simpl. by rewrite andb_false_r.
  - split; intros H; apply SEMVER_REGEX_test in H; done.
Qed.

Lemma version_must_be_semver_witness :
  In [Key "version"]
     (issues (WidgetSchema Sample.string_formats
                (JObj [("version", JStr "1.2");
                       ("repo", JStr "https://example.com/r.git");
                       ("commit", JStr Sample.commit)])))
  <-> ~ SemVer.valid_semver "1.2".
Proof.
  apply (version_must_be_semver Sample.string_formats
           [("version", JStr "1.2");
            ("repo", JStr "https://example.com/r.git");
            ("commit", JStr Sample.commit)] "1.2").
  reflexivity.
Defined.

(** The schema of a plan entry raises no issue at [id], whatever the
    string. *)
Lemma plan_entry_no_issue_at_id (F : Formats) (o : list (string * json))
  (s : string) :
  field "id" o = Some (JStr s) ->
  ~ In [Key "id"] (issues (PublishPlanEntrySchema F (JObj o))).
Proof.
  intros Hid. unfold PublishPlanEntrySchema, z_object.
  rewrite issues_bind by (by intros (?&?&?&?)).
  pose proof (zod_only_WidgetSchema F) as Hw.
  pose proof (zod_only_WidgetManifestSchema F) as Hm.
  rewrite !issues_both by (zod_only; auto).
  rewrite !in_app_iff.
  assert (Hother : forall {A} k (sch : schema A),
            k <> "id" -> ~ In [Key "id"] (issues (required k sch o))).
  { intros A k sch Hk (q & [= E _])%issues_required_head. congruence. }
  pose proof (Hother _ "handle" z_string ltac:(done)).
  pose proof (Hother _ "widget" (WidgetSchema F) ltac:(done)).
  pose proof (Hother _ "manifest" (WidgetManifestSchema F) ltac:(done)).
  assert (issues (required "id" z_string o) = []) as Hnone.
  { unfold required. by rewrite Hid. }
  rewrite Hnone. simpl. tauto.
Qed.

Lemma field_app_last k o k' x :
  field k (o ++ [(k', x)]) = if String.eqb k' k then Some x else field k o.
Proof. unfold field. by rewrite fold_left_app. Qed.

Lemma required_app_other {A} k (sch : schema A) o k' x :
  String.eqb k' k = false -> required k sch (o ++ [(k', x)]) = required k sch o.
Proof. intros H. unfold required. by rewrite field_app_last, H. Qed.

Lemma is_ok_at_seg {A} g (r : result A) : is_ok (at_seg g r) = is_ok r.
Proof. by destruct r as [|[]]. Qed.

Lemma is_ok_at_seg_ok {A} g (r : result A) a : at_seg g r = Ok a -> r = Ok a.
Proof. by destruct r as [|[]]. Qed.

Lemma is_ok_entries {A} (ks : schema string) (vs : schema A) o k v :
  In (k, v) o -> k <> "__proto__" -> is_ok (ks (JStr k)) = false ->
  is_ok (z_entries ks vs o) = false.
Proof.
  intros Hin Hne Hk. induction o as [|[k' v'] o IH]; [done|]. simpl.
  destruct Hin as [[= -> ->]|Hin].
  - destruct (String.eqb_spec k "__proto__") as [|_]; [done|].
    rewrite is_ok_bind by (by intros [? ?]).
    rewrite is_ok_both, is_ok_at_seg.
    by destruct (ks (JStr k)).
  - destruct (String.eqb k' "__proto__"); [by apply IH|].
    rewrite is_ok_bind by (by intros [? ?]).
    rewrite is_ok_both, IH by done. apply andb_false_r.
Qed.

(** C2 as the specification states it fails.  The plan entry below has the
    id ["a/b"], which [SAFE_ID_REGEX] does not match.
    [PublishPlanEntrySchema] and [parsePublishPlan] accept it, and they
    accept an entry whose id is the empty string: not every plan with such
    an id is rejected. *)
Lemma plan_accepts_unsafe_id :
  let widget :=
    JObj [("version", JStr "1.0.0"); ("repo", JStr "https://example.com/r.git");
          ("commit", JStr Sample.commit)] in
  let manifest :=
    JObj [("name", JStr "Clock"); ("version", JStr "1.0.0");
          ("authors", JArr [JStr "A"]); ("license", JStr "MIT");
          ("description", JStr "A clock");
          ("homepage", JStr "https://example.com")] in
  let entry id :=
    JObj [("handle", JStr "acme"); ("id", JStr id); ("widget", widget);
          ("manifest", manifest)] in
  Regex.test SAFE_ID_REGEX "a/b" = false /\
  Regex.test SAFE_ID_REGEX "" = false /\
  PublishPlanEntrySchema Sample.string_formats (entry "a/b")
  = Ok (PublishPlanEntry.mk "acme" "a/b" Sample.widget Sample.manifest) /\
  PublishPlanEntrySchema Sample.string_formats (entry "")
  = Ok (PublishPlanEntry.mk "acme" "" Sample.widget Sample.manifest) /\
  parsePublishPlan Sample.platform
    {[ "plan.jsonl" := JSON.stringify (entry "a/b") ]} "plan.jsonl"
  = Ok [PublishPlanEntry.mk "acme" "a/b" Sample.widget Sample.manifest] /\
  ~ (forall (F : Formats) (data : list json) (o : list (string * json))
            (id : string),
       In (JObj o) data -> field "id" o = Some (JStr id) ->
       Regex.test SAFE_ID_REGEX id = false ->
       is_ok (PublishPlanSchema F (JArr data)) = false).
Proof.
  intros widget manifest entry.
  repeat (split; [by vm_compute|]).
  intros H.
  specialize (H Sample.string_formats [entry "a/b"]
                [("handle", JStr "acme"); ("id", JStr "a/b"); ("widget", widget);
                 ("manifest", manifest)] "a/b").
  by vm_compute in H; specialize (H (or_introl eq_refl) eq_refl eq_refl).
Qed.

(** C2, as amended.  The validation of a publish plan asks of the [id] of
    an entry that it is a string and nothing more: it raises no issue at
    [id], returns the string as it is, and accepts or rejects the entry as
    it would with any other string for [id].  The restricted set of
    characters is asked of the keys of [WidgetsSchema], which rejects a
    value with a key that [SAFE_ID_REGEX] does not match: a key that is
    empty or has a character outside [[a-zA-Z0-9-_]]. *)
Theorem plan_id_is_any_string (F : Formats) (o o' : list (string * json))
  (s s' k : string) (v : json) :
  field "id" o = Some (JStr s) ->
  ~ In [Key "id"] (issues (PublishPlanEntrySchema F (JObj o))) /\
  (forall entry,
     PublishPlanEntrySchema F (JObj o) = Ok entry ->
     PublishPlanEntry.id entry = s) /\
  is_ok (PublishPlanEntrySchema F (JObj (o ++ [("id", JStr s')])))
  = is_ok (PublishPlanEntrySchema F (JObj o)) /\
  (In (k, v) (props o') ->
   Regex.test SAFE_ID_REGEX k = false ->
   is_ok (WidgetsSchema F (JObj o')) = false) /\
  (Regex.test SAFE_ID_REGEX k = true <->
   k <> "" /\
   Forall (fun c => cls_safe_id c = true) (list_ascii_of_string k)).
Proof.
  intros Hid.
  assert (Hreq : required "id" z_string o = Ok s).
  { unfold required. by rewrite Hid. }
  split; [by apply (plan_entry_no_issue_at_id F o s)|].
  split; [|split; [|split]].
  - intros entry H. unfold PublishPlanEntrySchema, z_object in H.
    apply bind_ok in H as ((handle & id & widget & manifest) & Hb & [= <-]).
    apply both_ok in Hb as [_ Hb]. apply both_ok in Hb as [Hb _].
    simpl. congruence.
  - unfold PublishPlanEntrySchema, z_object.
    rewrite !is_ok_bind by (by intros (?&?&?&?)).
    rewrite !is_ok_both.
    rewrite (required_app_other "handle"), (required_app_other "widget"),
      (required_app_other "manifest") by reflexivity.
    rewrite Hreq.
    replace (required "id" z_string (o ++ [("id", JStr s')])) with (Ok s').
    + done.
    + unfold required. by rewrite field_app_last.
  - intros Hin Hk. unfold WidgetsSchema, z_record, z_object.
    rewrite is_ok_bind by done.
    apply (is_ok_entries _ _ _ k v Hin).
    + intros ->. by vm_compute in Hk.
    + unfold z_regex, z_check. simpl. by rewrite Hk.
  - apply SAFE_ID_REGEX_test.
Qed.

Lemma plan_id_is_any_string_witness :
  let widget :=
    JObj [("version", JStr "1.0.0"); ("repo", JStr "https://example.com/r.git");
          ("commit", JStr Sample.commit)] in
  let manifest :=
    JObj [("name", JStr "Clock"); ("version", JStr "1.0.0");
          ("authors", JArr [JStr "A"]); ("license", JStr "MIT");
          ("description", JStr "A clock");
          ("homepage", JStr "https://example.com")] in
  let o id :=
    [("handle", JStr "acme"); ("id", JStr id); ("widget", widget);
     ("manifest", manifest)] in
  Regex.test SAFE_ID_REGEX "a/b" = false /\
  PublishPlanEntrySchema Sample.string_formats (JObj (o "a/b"))
  = Ok (PublishPlanEntry.mk "acme" "a/b" Sample.widget Sample.manifest) /\
  ~ In [Key "id"]
       (issues (PublishPlanEntrySchema Sample.string_formats (JObj (o "a/b")))) /\
  (forall entry,
     PublishPlanEntrySchema Sample.string_formats (JObj (o "a/b")) = Ok entry ->
     PublishPlanEntry.id entry = "a/b") /\
  is_ok (PublishPlanEntrySchema Sample.string_formats
           (JObj (o "clock" ++ [("id", JStr "a/b")])))
  = is_ok (PublishPlanEntrySchema Sample.string_formats (JObj (o "clock"))) /\
  is_ok (PublishPlanEntrySchema Sample.string_formats (JObj (o "clock"))) = true /\
  is_ok (WidgetsSchema Sample.string_formats (JObj [("a/b", widget)])) = false.
Proof.
  intros widget manifest o.
  split; [by vm_compute|]. split; [by vm_compute|].
  destruct (plan_id_is_any_string Sample.string_formats (o "a/b") [] "a/b" ""
              "" JNull eq_refl) as (Hissue & Hid & _).
  split; [exact Hissue|]. split; [exact Hid|].
  destruct (plan_id_is_any_string Sample.string_formats (o "clock")
              [("a/b", widget)] "clock" "a/b" "a/b" widget eq_refl)
    as (_ & _ & Hany & Hkeys & _).
  split; [exact Hany|]. split; [by vm_compute|].
  apply Hkeys; [by left | by vm_compute].
Defined.

(** ** Writing the index and reading it back *)

Section RoundTrip.

Variable F : Formats.

Lemma z_elements_values {A} (s : schema A) (value : A -> json) l :
  Forall (fun a => s (value a) = Ok a) l ->
  forall i, z_elements s i (map value l) = Ok l.
Proof.
  induction 1 as [|a l Ha _ IH]; intros i; [done|].
  simpl. by rewrite Ha, IH.
Qed.

Lemma author_schema_value a :
  valid_author F a -> WidgetManifestAuthorSchema F (author_value a) = Ok a.
Proof.
  destruct a as [s|name [e|] [u|]]; simpl; [done|..]; intros [He Hu];
    unfold WidgetManifestAuthorSchema, z_union, z_object, required, optional,
      z_format, z_check, z_url; simpl;
    rewrite ?(He _ eq_refl), ?(Hu _ eq_refl); done.
Qed.

Lemma release_schema_value r :
  valid_release F r -> RegistryEntryReleaseSchema F (release_value r) = Ok r.
Proof.
  destruct r as [version publishedAt digest]. unfold valid_release. simpl.
  intros H. unfold RegistryEntryReleaseSchema, z_object, required, z_format,
    z_check. simpl. by rewrite H.
Qed.

Lemma entry_schema_value e :
  valid_entry F e -> RegistryEntrySchema F (entry_value e) = Ok e.
Proof.
  destruct e as [handle id name authors description releases].
  unfold valid_entry. simpl. intros (Ha & Hva & Hr & Hvr).
  unfold RegistryEntrySchema, z_object, required, z_min1, z_check, z_array.
  simpl.
  rewrite (z_elements_values (WidgetManifestAuthorSchema F) author_value authors)
    by (eapply Forall_impl; [exact Hva | apply author_schema_value]).
  rewrite (z_elements_values (RegistryEntryReleaseSchema F) release_value releases)
    by (eapply Forall_impl; [exact Hvr | apply release_schema_value]).
  simpl. destruct authors; [done|]. destruct releases; [done|]. done.
Qed.

Lemma index_schema_value index :
  valid_index F index -> RegistryIndexSchema F (index_value index) = Ok index.
Proof.
  destruct index as [api generatedAt widgets].
  unfold valid_index. simpl. intros (Hapi & Hg & Hw).
  unfold RegistryIndexSchema, z_object, required, z_format, z_check, z_array,
    z_int. simpl.
  rewrite (z_elements_values (RegistryEntrySchema F) entry_value widgets)
    by (eapply Forall_impl; [exact Hw | apply entry_schema_value]).
  rewrite Hg.
  replace ((- MAX_SAFE_INTEGER <=? api) && (api <=? MAX_SAFE_INTEGER)) with true
    by (symmetry; apply andb_true_iff; split; apply Z.leb_le; lia).
  done.
Qed.

End RoundTrip.

(** ** What the schemas return is valid *)

Lemma required_ok {A} k (s : schema A) o a :
  required k s o = Ok a -> exists v, field k o = Some v /\ s v = Ok a.
Proof.
  unfold required. destruct (field k o) as [v|]; [|done].
  intros H. apply is_ok_at_seg_ok in H. eauto.
Qed.

Lemma optional_ok {A} k (s : schema A) o a :
  optional k s o = Ok a ->
  a = None \/ exists v x, field k o = Some v /\ s v = Ok x /\ a = Some x.
Proof.
  unfold optional. destruct (field k o) as [v|]; [|intros [= <-]; by left].
  intros H. apply is_ok_at_seg_ok in H.
  apply bind_ok in H as (x & Hx & [= <-]). right. eauto.
Qed.

Lemma z_check_ok {A} (s : schema A) ok j a :
  z_check s ok j = Ok a -> s j = Ok a /\ ok a = true.
Proof.
  unfold z_check. intros H. apply bind_ok in H as (x & Hx & H).
  destruct (ok x) eqn:E; [|done]. by injection H as <-.
Qed.

Lemma z_elements_ok {A} (s : schema A) l :
  forall i out,
    z_elements s i l = Ok out -> Forall2 (fun x a => s x = Ok a) l out.
Proof.
  induction l as [|x l IH]; intros i out H; simpl in H.
  - injection H as <-. constructor.
  - apply bind_ok in H as ([a r] & Hb & [= <-]).
    apply both_ok in Hb as [Ha Hr]. apply is_ok_at_seg_ok in Ha.
    constructor; [done|]. by eapply IH.
Qed.

Lemma z_array_ok {A} (s : schema A) j out :
  z_array s j = Ok out ->
  exists l, j = JArr l /\ Forall2 (fun x a => s x = Ok a) l out.
Proof.
  destruct j as [| | | |l|]; try done. intros H.
  exists l. split; [done|]. by eapply z_elements_ok.
Qed.

Lemma z_union_ok {A} (a b : schema A) j x :
  z_union a b j = Ok x -> a j = Ok x \/ b j = Ok x.
Proof.
  unfold z_union. destruct (a j) as [y|]; [intros [= <-]; by left|].
  destruct (b j) as [y|]; [intros [= <-]; by right | done].
Qed.

Lemma z_url_ok F j u :
  z_url F j = Ok u -> exists s, j = JStr s /\ fmt_url F s = Some u.
Proof.
  destruct j as [| | |s| |]; try done. unfold z_url. simpl.
  destruct (fmt_url F s) as [u'|] eqn:E; [|done]. intros [= <-]. eauto.
Qed.

Section SchemaValid.

Variable F : Formats.
Hypothesis url_stable : forall s u, fmt_url F s = Some u -> fmt_url F u = Some u.

Lemma author_schema_valid j a :
  WidgetManifestAuthorSchema F j = Ok a -> valid_author F a.
Proof using url_stable.
  intros H. unfold WidgetManifestAuthorSchema in H.
  apply z_union_ok in H as [H|H].
  - apply bind_ok in H as (s & _ & [= <-]). done.
  - destruct j as [| | | | |o]; try done. unfold z_object in H.
    apply bind_ok in H as ((name & email & url) & Hb & [= <-]).
    apply both_ok in Hb as [_ Hb]. apply both_ok in Hb as [He Hu].
    split.
    + intros e ->. apply optional_ok in He as [|(v & x & _ & Hx & [= <-])]; [done|].
      by apply z_check_ok in Hx as [_ Hx].
    + intros u ->. apply optional_ok in Hu as [|(v & x & _ & Hx & [= <-])]; [done|].
      apply z_url_ok in Hx as (s & _ & Hs). by eapply url_stable.
Qed.

Lemma release_schema_valid j r :
  RegistryEntryReleaseSchema F j = Ok r -> valid_release F r.
Proof.
  destruct j as [| | | | |o]; try done. unfold RegistryEntryReleaseSchema, z_object.
  intros H. apply bind_ok in H as ((version & publishedAt & digest) & Hb & [= <-]).
  apply both_ok in Hb as [_ Hb]. apply both_ok in Hb as [Hp _].
  apply required_ok in Hp as (v & _ & Hp).
  by apply z_check_ok in Hp as [_ Hp].
Qed.

Lemma min1_array_ok {A} (s : schema A) (valid : A -> Prop) j out :
  (forall x a, s x = Ok a -> valid a) ->
  z_min1 (z_array s) j = Ok out -> out <> [] /\ Forall valid out.
Proof.
  intros Hs H. apply z_check_ok in H as [H Hn].
  apply z_array_ok in H as (l & _ & H2). split.
  - by destruct out.
  - clear Hn. induction H2; constructor; eauto.
Qed.

Lemma entry_schema_valid j e :
  RegistryEntrySchema F j = Ok e -> valid_entry F e.
Proof using url_stable.
  destruct j as [| | | | |o]; try done. unfold RegistryEntrySchema, z_object.
  intros H.
  apply bind_ok in H
    as ((handle & id & name & authors & description & releases) & Hb & [= <-]).
  apply both_ok in Hb as [_ Hb]. apply both_ok in Hb as [_ Hb].
  apply both_ok in Hb as [_ Hb]. apply both_ok in Hb as [Ha Hb].
  apply both_ok in Hb as [_ Hr].
  apply required_ok in Ha as (va & _ & Ha).
  apply required_ok in Hr as (vr & _ & Hr).
  apply (min1_array_ok _ (valid_author F)) in Ha as [Ha1 Ha2];
    [|apply author_schema_valid].
  apply (min1_array_ok _ (valid_release F)) in Hr as [Hr1 Hr2];
    [|apply release_schema_valid].
  done.
Qed.

(** The indexes that [RegistryIndexSchema] returns are the valid ones:
    with [index_schema_value], [valid_index] is what the schema asks. *)
Lemma index_schema_valid j index :
  RegistryIndexSchema F j = Ok index -> valid_index F index.
Proof using url_stable.
  destruct j as [| | | | |o]; try done. unfold RegistryIndexSchema, z_object.
  intros H. apply bind_ok in H as ((api & generatedAt & widgets) & Hb & [= <-]).
  apply both_ok in Hb as [Hapi Hb]. apply both_ok in Hb as [Hg Hw].
  apply required_ok in Hapi as (va & _ & Hapi).
  apply required_ok in Hg as (vg & _ & Hg).
  apply required_ok in Hw as (vw & _ & Hw).
  split; [|split].
  - destruct va as [| |n| | |]; try done. simpl in Hapi.
    destruct ((- MAX_SAFE_INTEGER <=? n) && (n <=? MAX_SAFE_INTEGER)) eqn:E;
      [|done].
    injection Hapi as <-. apply andb_true_iff in E as [E1 E2]. simpl. lia.
  - by apply z_check_ok in Hg as [_ Hg].
  - apply z_array_ok in Hw as (l & _ & Hw). simpl.
    induction Hw; constructor; eauto using entry_schema_valid.
Qed.

End SchemaValid.

Lemma z_int_bounds j n :
  z_int j = Ok n -> - MAX_SAFE_INTEGER <= n <= MAX_SAFE_INTEGER.
Proof.
  destruct j as [| |m| | |]; try done. simpl.
  destruct ((- MAX_SAFE_INTEGER <=? m) && (m <=? MAX_SAFE_INTEGER)) eqn:E;
    [|done].
  intros [= <-]. apply andb_true_iff in E as [E1 E2]. lia.
Qed.

Lemma parse_written_index (P : Platform) (files : gmap string string)
  (dir : string) (index : RegistryIndex.t) :
  parseRegistryIndex P (writeRegistryIndex P files dir index) dir
  = RegistryIndexSchema (formats P) (index_value index).
Proof.
  unfold parseRegistryIndex, writeRegistryIndex, writeFile, readFile.
  rewrite lookup_insert_eq. simpl.
  by rewrite JSONFacts.parse_stringify.
Qed.

(** ** What the schema accepts as it is *)

Ltac property_of H :=
  unfold required in H;
  cbn [field fold_left fst snd String.eqb Ascii.eqb Bool.eqb] in H;
  apply is_ok_at_seg_ok in H.

Lemma values_accepted {A} (s : schema A) (value : A -> json) l :
  Forall2 (fun x a => s x = Ok a) (map value l) l ->
  Forall (fun a => s (value a) = Ok a) l.
Proof.
  induction l as [|a l IH]; [constructor|]. cbn [map]. intros H.
  apply Forall2_cons in H as [Ha H]. constructor; [done | by apply IH].
Qed.

Section Accepted.

Variable F : Formats.

Lemma author_value_valid a :
  WidgetManifestAuthorSchema F (author_value a) = Ok a -> valid_author F a.
Proof.
  destruct a as [s|name [e|] [u|]]; [done|..];
    unfold WidgetManifestAuthorSchema, z_union, z_object, required, optional,
      z_format, z_check, z_url; simpl;
    repeat match goal with
           | |- context [fmt_email F ?x] => destruct (fmt_email F x) eqn:?
           | |- context [fmt_url F ?x] => destruct (fmt_url F x) eqn:?
           end; simpl; intros [=]; subst;
    (split; intros ? [=]; subst; done).
Qed.

Lemma release_value_valid r :
  RegistryEntryReleaseSchema F (release_value r) = Ok r -> valid_release F r.
Proof.
  destruct r as [version publishedAt digest].
  unfold RegistryEntryReleaseSchema, z_object, required, z_format, z_check,
    valid_release. simpl.
  by destruct (fmt_iso_datetime F publishedAt).
Qed.

Lemma entry_value_valid e :
  RegistryEntrySchema F (entry_value e) = Ok e -> valid_entry F e.
Proof.
  destruct e as [handle id name authors description releases].
  unfold RegistryEntrySchema, z_object, entry_value.
  cbn [RegistryEntry.handle RegistryEntry.id RegistryEntry.name
       RegistryEntry.authors RegistryEntry.description RegistryEntry.releases].
  intros H.
  apply bind_ok in H as ((h & i & n & a & d & r) & Hb & [= -> -> -> -> -> ->]).
  apply both_ok in Hb as [_ Hb]. apply both_ok in Hb as [_ Hb].
  apply both_ok in Hb as [_ Hb]. apply both_ok in Hb as [Ha Hb].
  apply both_ok in Hb as [_ Hr].
  property_of Ha. property_of Hr.
  apply z_check_ok in Ha as [Ha Ha1]. apply z_check_ok in Hr as [Hr Hr1].
  apply z_array_ok in Ha as (la & [= <-] & Ha).
  apply z_array_ok in Hr as (lr & [= <-] & Hr).
  apply values_accepted in Ha, Hr.
  unfold valid_entry. cbn [RegistryEntry.authors RegistryEntry.releases].
  split; [by destruct authors|]. split.
  - eapply Forall_impl; [exact Ha | apply author_value_valid].
  - split; [by destruct releases|].
    eapply Forall_impl; [exact Hr | apply release_value_valid].
Qed.

Lemma index_value_valid index :
  RegistryIndexSchema F (index_value index) = Ok index -> valid_index F index.
Proof.
  destruct index as [api generatedAt widgets].
  unfold RegistryIndexSchema, z_object, index_value.
  cbn [RegistryIndex.api RegistryIndex.generatedAt RegistryIndex.widgets].
  intros H.
  apply bind_ok in H as ((a & g & w) & Hb & [= -> -> ->]).
  apply both_ok in Hb as [Ha Hb]. apply both_ok in Hb as [Hg Hw].
  property_of Ha. property_of Hg. property_of Hw.
  apply z_int_bounds in Ha. apply z_check_ok in Hg as [_ Hg].
  apply z_array_ok in Hw as (l & [= <-] & Hw). apply values_accepted in Hw.
  unfold valid_index.
  cbn [RegistryIndex.api RegistryIndex.generatedAt RegistryIndex.widgets].
  split; [done|]. split; [done|].
  eapply Forall_impl; [exact Hw | apply entry_value_valid].
Qed.

End Accepted.

(** C8 as the specification states it fails, for a URL check that trims
    the string, as that of zod does.  The index below has an author whose
    [url] has a space in front.  [RegistryIndexSchema] accepts it; written
    and read back, it has the [url] without the space: the value that is
    read is not the value that was written. *)
Lemma padded_url_does_not_round_trip :
  let P := Sample.trimming_platform in
  let index url :=
    RegistryIndex.mk 1 "2025-11-03T07:00:06.000Z"
      [RegistryEntry.mk "zeta" "dial" "Dial"
         [AuthorObject "B" None (Some url)] "A dial" [Sample.release1]] in
  is_ok (RegistryIndexSchema (formats P) (index_value (index " https://b.example")))
  = true /\
  parseRegistryIndex P
    (writeRegistryIndex P ∅ "registry" (index " https://b.example")) "registry"
  = Ok (index "https://b.example") /\
  index "https://b.example" <> index " https://b.example" /\
  ~ (forall (P : Platform) (files : gmap string string) (dir : string)
            (index : RegistryIndex.t),
       is_ok (RegistryIndexSchema (formats P) (index_value index)) = true ->
       parseRegistryIndex P (writeRegistryIndex P files dir index) dir
       = Ok index).
Proof.
  intros P index.
  assert (parseRegistryIndex P
            (writeRegistryIndex P ∅ "registry" (index " https://b.example"))
            "registry"
          = Ok (index "https://b.example")) as Hread.
  { rewrite parse_written_index. by vm_compute. }
  split; [by vm_compute|]. split; [exact Hread|]. split; [done|].
  intros H.
  specialize (H P ∅ "registry" (index " https://b.example")).
  rewrite Hread in H. by specialize (H eq_refl).
Qed.

(** C8, as amended.  An index that is written with [writeRegistryIndex]
    and read back from the same directory with [parseRegistryIndex] is what
    [RegistryIndexSchema] returns for the index itself.  It is the index
    that was written exactly when the index is valid: its [api] is a safe
    integer, its dates are dates for the schema, every entry has an author
    and a release, and the checks of zod accept every email and return every
    [url] unchanged.  The indexes that [parseRegistryIndex] returns are
    valid, when the URL check returns its own results unchanged. *)
Theorem registry_index_round_trip (P : Platform) (files : gmap string string)
  (dir : string) (index : RegistryIndex.t) :
  parseRegistryIndex P (writeRegistryIndex P files dir index) dir
  = RegistryIndexSchema (formats P) (index_value index) /\
  (parseRegistryIndex P (writeRegistryIndex P files dir index) dir = Ok index
   <-> valid_index (formats P) index) /\
  ((forall s u, fmt_url (formats P) s = Some u -> fmt_url (formats P) u = Some u) ->
   forall files' dir',
     parseRegistryIndex P files' dir' = Ok index ->
     parseRegistryIndex P (writeRegistryIndex P files dir index) dir = Ok index).
Proof.
  rewrite parse_written_index. split; [done|]. split.
  - split; [apply index_value_valid | apply index_schema_value].
  - intros Hurl files' dir' H. apply index_schema_value.
    unfold parseRegistryIndex in H.
    apply bind_ok in H as (content & _ & H).
    apply bind_ok in H as (data & _ & H).
    by apply (index_schema_valid (formats P) Hurl) in H.
Qed.

Lemma registry_index_round_trip_witness :
  let index :=
    RegistryIndex.mk 1 "2025-11-03T07:00:06.000Z"
      [Sample.entry1;
       RegistryEntry.mk "zeta" "dial" "Dial"
         [AuthorObject "B" (Some "b@example.com") (Some "https://b.example")]
         "A dial" [Sample.release2; Sample.release1]] in
  parseRegistryIndex Sample.platform
    (writeRegistryIndex Sample.platform ∅ "registry" index) "registry"
  = Ok index.
Proof.
  intros index.
  apply (proj2 (proj1 (proj2 (registry_index_round_trip Sample.platform ∅
                                "registry" index)))).
  unfold valid_index, valid_entry, valid_release, valid_author,
    MAX_SAFE_INTEGER. simpl.
  split; [lia|]. split; [reflexivity|].
  repeat constructor; try done.
  - by intros e [= <-].
  - by intros u [= <-].
Defined.

(** ** The load of the registry index *)

Section LoadFacts.

Variable P : Platform.
Variable Ext : Type.
Variable T : Tools Ext.
Variable env : gmap string string.

Lemma main_after_loop w0 publishPlan registryUpdatePlan w :
  require_env env ["GHCR_REPO_PREFIX"; "PUBLISH_PLAN_PATH"; "REGISTRY_DIR"]
  = Ok tt ->
  parsePublishPlan P (files w0) (PUBLISH_PLAN_PATH env) = Ok publishPlan ->
  publish_loop P Ext T env publishPlan w0 = Ok (registryUpdatePlan, w) ->
  main P Ext T env w0 = update_registry P Ext T env registryUpdatePlan w.
Proof.
  intros H1 H2 H3. unfold main.
  rewrite H1. cbn [mbind result_bind bind]. rewrite H2.
  cbn [mbind result_bind bind]. by rewrite H3.
Qed.

End LoadFacts.

(** C3.  The run on a registry directory without an index file.  The
    plan has one entry.  The script parses the plan, pushes the entry and
    creates the registry directory with [fs.mkdir]; the directory then has
    no index file, [parseRegistryIndex] throws the error of the read, and
    the script ends with that error, after the push: there is no default
    index. *)
Lemma absent_index_has_no_default :
  let P := Sample.platform in
  let w0 := Sample.world_without_index in
  let w := mkWorld {[ "plan.jsonl" := Sample.entry_line;
                      "/work/temp/deskulpt.widget.json" := "{}" ]}
                   1762153205124 false in
  let w1 := mkWorld (files w) 1762153205125 false in
  parsePublishPlan P (files w0) "plan.jsonl" = Ok [Sample.entry] /\
  publish_loop P bool Sample.tools Sample.env [Sample.entry] w0
  = Ok ([Sample.update1], w) /\
  fs_mkdir Sample.tools "registry" w = Ok w1 /\
  files w1 !! "registry/index.json" = None /\
  parseRegistryIndex P (files w1) "registry" = Err (ENOENT "registry/index.json") /\
  main P bool Sample.tools Sample.env w0 = Err (ENOENT "registry/index.json") /\
  ~ (forall (P : Platform) (files : gmap string string) (dir : string),
       files !! path_join P dir "index.json" = None ->
       exists index,
         parseRegistryIndex P files dir = Ok index /\
         RegistryIndex.widgets index = []).
Proof.
  intros P w0 w w1.
  do 6 (split; [by vm_compute|]).
  intros H.
  destruct (H Sample.platform ∅ "registry" (lookup_empty _)) as (index & Hi & _).
  unfold parseRegistryIndex, readFile in Hi. by rewrite lookup_empty in Hi.
Qed.

(** The end-to-end scenario of the specification, on a registry whose index
    has no widgets: the index that the script writes has one entry, with one
    release of version 1.0.0. *)
Example end_to_end_on_empty_index :
  (w ← main Sample.platform bool Sample.tools Sample.env
         Sample.world_with_empty_index;
   parseRegistryIndex Sample.platform (files w) "registry")
  = Ok (RegistryIndex.mk 1 "2025-11-03T07:00:05.124Z" [Sample.entry1]).
Proof. vm_compute. reflexivity. Qed.

(** X27.  The index that the script loads.  After the pushes of the
    plan, the script reads the index that is in the registry directory
    after [fs.mkdir].  When the index file is absent, [parseRegistryIndex]
    fails with the error of the read and the script ends with that error.
    When the file holds an index without widgets, the script writes the
    index whose widgets are exactly the pairs (handle, id) of the updates,
    one entry each. *)
Theorem registry_index_must_exist (P : Platform) (Ext : Type) (T : Tools Ext)
  (env : gmap string string) (w0 w w1 : World Ext)
  (publishPlan : list PublishPlanEntry.t)
  (registryUpdatePlan : list RegistryUpdate.t) :
  let dir := REGISTRY_DIR env in
  let indexFile := path_join P dir "index.json" in
  require_env env ["GHCR_REPO_PREFIX"; "PUBLISH_PLAN_PATH"; "REGISTRY_DIR"]
  = Ok tt ->
  parsePublishPlan P (files w0) (PUBLISH_PLAN_PATH env) = Ok publishPlan ->
  publish_loop P Ext T env publishPlan w0 = Ok (registryUpdatePlan, w) ->
  fs_mkdir T dir w = Ok w1 ->
  (files w1 !! indexFile = None ->
   parseRegistryIndex P (files w1) dir = Err (ENOENT indexFile) /\
   main P Ext T env w0 = Err (ENOENT indexFile)) /\
  (forall index,
     parseRegistryIndex P (files w1) dir = Ok index ->
     RegistryIndex.widgets index = [] ->
     let final := update_index P (clock w) index registryUpdatePlan in
     main P Ext T env w0
     = Ok (mkWorld (<[indexFile := JSON.stringify (index_value final)]> (files w1))
                   (clock w1) (ext w1)) /\
     (forall k, k ∈ map entry_key (RegistryIndex.widgets final)
                <-> k ∈ map update_key registryUpdatePlan) /\
     NoDup (map entry_key (RegistryIndex.widgets final))).
Proof.
  intros dir indexFile Henv Hplan Hloop Hmk.
  rewrite (main_after_loop P Ext T env w0 publishPlan registryUpdatePlan w)
    by done.
  split.
  - intros Habs.
    assert (parseRegistryIndex P (files w1) dir = Err (ENOENT indexFile)) as Hp.
    { unfold parseRegistryIndex, readFile. fold indexFile. by rewrite Habs. }
    unfold update_registry. fold dir. rewrite Hmk.
    cbn [mbind result_bind bind]. by rewrite Hp.
  - intros index Hp Hnil final.
    unfold update_registry. fold dir. rewrite Hmk.
    cbn [mbind result_bind bind]. rewrite Hp. split; [done|].
    assert (Hperm : Permutation
              (map entry_key (RegistryIndex.widgets final))
              (map entry_key (merge_loop [] registryUpdatePlan))).
    { subst final. unfold update_index. cbn [RegistryIndex.widgets].
      rewrite Hnil. apply Permutation_map, array_sort_perm. }
    split.
    + intros k. rewrite Hperm, keys_merge_loop. cbn [map]. split.
      * intros [H|H]; [by apply not_elem_of_nil in H | done].
      * by right.
    + rewrite Hperm. apply NoDup_keys_merge_loop. constructor.
Qed.

Lemma registry_index_must_exist_witness :
  main Sample.platform bool Sample.tools Sample.env Sample.world_without_index
  = Err (ENOENT "registry/index.json").
Proof.
  eapply (registry_index_must_exist Sample.platform bool Sample.tools Sample.env
            Sample.world_without_index _ _ [Sample.entry] [Sample.update1]).
  - vm_compute. reflexivity.
  - vm_compute. reflexivity.
  - vm_compute. reflexivity.
  - vm_compute. reflexivity.
  - vm_compute. reflexivity.
Defined.

(** ** The lookups of publishers and widgets *)

Lemma zod_only_error {A} (r : result A) :
  zod_only r -> is_ok r = false -> exists l, r = Err (ZodError l).
Proof. destruct r as [a|[]]; try done. eauto. Qed.

(** C10.  [parsePublisher] and [parseWidgets] return nothing, and raise no
    error, when the file of the entry does not exist at the commit.  When it
    exists, they return what the schema makes of the parsed content of the
    file, never nothing; content that parses to a value that the schema
    rejects raises the [ZodError] of the schema. *)
Theorem lookups_of_absent_files (P : Platform)
  (tree : string -> gmap string string) (entry commit : string) :
  let publisherFile := path_join P "publishers" (entry +:+ ".yaml") in
  let widgetsFile := path_join P "widgets" (entry +:+ ".yaml") in
  (tree commit !! publisherFile = None ->
   parsePublisher P tree entry commit = Ok None) /\
  (tree commit !! widgetsFile = None ->
   parseWidgets P tree entry commit = Ok None) /\
  (forall content,
     tree commit !! publisherFile = Some content ->
     parsePublisher P tree entry commit
     = (data ← yaml_parse P content; r ← PublisherSchema data; Ok (Some r)) /\
     parsePublisher P tree entry commit <> Ok None /\
     forall data,
       yaml_parse P content = Ok data ->
       is_ok (PublisherSchema data) = false ->
       exists l, PublisherSchema data = Err (ZodError l) /\
                 parsePublisher P tree entry commit = Err (ZodError l)) /\
  (forall content,
     tree commit !! widgetsFile = Some content ->
     parseWidgets P tree entry commit
     = (data ← yaml_parse P content;
        r ← WidgetsSchema (formats P) data; Ok (Some r)) /\
     parseWidgets P tree entry commit <> Ok None /\
     forall data,
       yaml_parse P content = Ok data ->
       is_ok (WidgetsSchema (formats P) data) = false ->
       exists l, WidgetsSchema (formats P) data = Err (ZodError l) /\
                 parseWidgets P tree entry commit = Err (ZodError l)).
Proof.
  intros publisherFile widgetsFile.
  unfold parsePublisher, parseWidgets, fileExistsAtCommit, showFileAtCommit.
  fold publisherFile widgetsFile.
  split; [|split; [|split]].
  - intros H. by rewrite H.
  - intros H. by rewrite H.
  - intros content H. rewrite H. cbn.
    split; [done|]. split.
    + destruct (yaml_parse P content) as [data|]; [|done]. cbn.
      by destruct (PublisherSchema data).
    + intros data Hd Hs. rewrite Hd. cbn.
      destruct (zod_only_error _ (zod_only_PublisherSchema data) Hs) as [l Hl].
      exists l. by rewrite Hl.
  - intros content H. rewrite H. cbn.
    split; [done|]. split.
    + destruct (yaml_parse P content) as [data|]; [|done]. cbn.
      by destruct (WidgetsSchema (formats P) data).
    + intros data Hd Hs. rewrite Hd. cbn.
      destruct (zod_only_error _ (zod_only_WidgetsSchema (formats P) data) Hs)
        as [l Hl].
      exists l. by rewrite Hl.
Qed.

Lemma lookups_of_absent_files_witness :
  parseWidgets Sample.platform Sample.tree "acme" Sample.commit = Ok None /\
  parsePublisher Sample.platform Sample.tree "acme" Sample.commit
  = Ok (Some (Publisher.mk None (Some 42) None)) /\
  parsePublisher Sample.platform Sample.tree "zeta" Sample.commit
  = Err (ZodError [[]]).
Proof.
  split; [|split].
  - apply (lookups_of_absent_files Sample.platform Sample.tree "acme"
             Sample.commit).
    vm_compute. reflexivity.
  - destruct (lookups_of_absent_files Sample.platform Sample.tree "acme"
                Sample.commit) as (_ & _ & H & _).
    rewrite (proj1 (H _ eq_refl)). vm_compute. reflexivity.
  - destruct (lookups_of_absent_files Sample.platform Sample.tree "zeta"
                Sample.commit) as (_ & _ & H & _).
    destruct (H _ eq_refl) as (_ & _ & Hbad).
    destruct (Hbad (JObj [("user", JNum 42); ("organization", JNum 7)]))
      as (l & Hl & Hp).
    + vm_compute. reflexivity.
    + vm_compute. reflexivity.
    + rewrite Hp. vm_compute in Hl. by injection Hl as <-.
Defined.

(** ** More on the merge: histories, counts, what is kept *)

Lemma releases_fold_updated e us :
  RegistryEntry.releases (fold_left updated_entry us e)
  = rev (map releaseData us) ++ RegistryEntry.releases e.
Proof.
  revert e. induction us as [|u us IH]; intros e; [done|].
  cbn [fold_left map rev]. rewrite IH. cbn [updated_entry RegistryEntry.releases].
  by rewrite <- app_assoc.
Qed.

Lemma key_fold_updated e us :
  entry_key (fold_left updated_entry us e) = entry_key e.
Proof.
  revert e. induction us as [|u us IH]; intros e; [done|].
  cbn [fold_left]. by rewrite IH.
Qed.

Lemma with_key_merge_loop k widgets plan :
  with_key k (merge_loop widgets plan)
  = match with_key k widgets with
    | e :: rest => fold_left updated_entry (updates_of k plan) e :: rest
    | [] =>
        match updates_of k plan with
        | u :: us => [fold_left updated_entry us (new_entry u)]
        | [] => []
        end
    end.
Proof.
  revert widgets. induction plan as [|it plan IH]; intros widgets.
  - unfold updates_of, merge_loop. rewrite filter_nil. cbn [fold_left].
    by destruct (with_key k widgets).
  - rewrite merge_loop_cons, IH. unfold updates_of. rewrite filter_cons.
    destruct (decide (update_key it = k)) as [<-|Hk].
    + destruct (with_key (update_key it) widgets) as [|e rest] eqn:E.
      * by rewrite with_key_merge_first.
      * by rewrite (with_key_merge_again _ _ e rest).
    + by rewrite with_key_merge_other.
Qed.

(** X1.  The entries of a pair (handle, id) after the merge of a whole
    plan.  The first entry of the pair takes the updates of the pair, in
    the order of the plan; the other entries of the pair, if the index had
    several, stay as they are.  Without an entry of the pair, the first
    update of the pair creates one and the later ones update it; without
    an update either, there is still none.  An entry that took updates has
    their releases in front of the releases it had, the last update first,
    and the name, authors and description of the last update. *)
Theorem merge_release_history (widgets : list RegistryEntry.t)
  (plan : list RegistryUpdate.t) (k : string * string) :
  with_key k (merge_loop widgets plan)
  = match with_key k widgets with
    | e :: rest => fold_left updated_entry (updates_of k plan) e :: rest
    | [] =>
        match updates_of k plan with
        | u :: us => [fold_left updated_entry us (new_entry u)]
        | [] => []
        end
    end /\
  (forall e us,
     RegistryEntry.releases (fold_left updated_entry us e)
     = rev (map releaseData us) ++ RegistryEntry.releases e /\
     entry_key (fold_left updated_entry us e) = entry_key e) /\
  (forall e us u,
     let e' := fold_left updated_entry (us ++ [u]) e in
     RegistryEntry.name e' = WidgetManifest.name (RegistryUpdate.manifest u) /\
     RegistryEntry.authors e' = WidgetManifest.authors (RegistryUpdate.manifest u) /\
     RegistryEntry.description e'
     = WidgetManifest.description (RegistryUpdate.manifest u)).
Proof.
  split; [apply with_key_merge_loop|]. split.
  - intros e us. split; [apply releases_fold_updated | apply key_fold_updated].
  - intros e us u e'. subst e'. by rewrite fold_left_app.
Qed.

(** *** Nothing is dropped *)

Lemma merge_update_keeps widgets it e :
  e ∈ widgets ->
  exists e',
    e' ∈ merge_update widgets it /\ entry_key e' = entry_key e /\
    (exists new, RegistryEntry.releases e' = new ++ RegistryEntry.releases e) /\
    (update_key it <> entry_key e -> e' = e).
Proof.
  induction widgets as [|x widgets IH]; intros Hin.
  - by apply not_elem_of_nil in Hin.
  - rewrite merge_update_cons. apply elem_of_cons in Hin as [->|Hin].
    + destruct (decide (same_key it x)) as [Hs|Hs].
      * exists (updated_entry x it). split; [apply list_elem_of_here|].
        split; [done|]. split; [by exists [releaseData it]|].
        intros Hk. apply same_key_keys in Hs. congruence.
      * exists x. split; [apply list_elem_of_here|].
        split; [done|]. split; [by exists []|]. done.
    + destruct (decide (same_key it x)) as [Hs|Hs].
      * exists e. split; [by apply list_elem_of_further|].
        split; [done|]. split; [by exists []|]. done.
      * destruct (IH Hin) as (e' & H1 & H2 & H3 & H4).
        exists e'. split; [by apply list_elem_of_further|]. done.
Qed.

Lemma merge_loop_keeps plan : forall widgets e,
  e ∈ widgets ->
  exists e',
    e' ∈ merge_loop widgets plan /\ entry_key e' = entry_key e /\
    (exists new, RegistryEntry.releases e' = new ++ RegistryEntry.releases e) /\
    (entry_key e ∉ map update_key plan -> e' = e).
Proof.
  induction plan as [|it plan IH]; intros widgets e Hin.
  - exists e. split; [done|]. split; [done|]. split; [by exists []|]. done.
  - rewrite merge_loop_cons.
    destruct (merge_update_keeps widgets it e Hin) as (e1 & H1 & Hk1 & [n1 Hr1] & He1).
    destruct (IH _ e1 H1) as (e2 & H2 & Hk2 & [n2 Hr2] & He2).
    exists e2. split; [done|]. split; [congruence|]. split.
    + exists (n2 ++ n1). by rewrite Hr2, Hr1, app_assoc.
    + intros Hnot. cbn [map] in Hnot. apply not_elem_of_cons in Hnot as [Hne Hnot].
      rewrite He2, He1; [done | done | by rewrite Hk1].
Qed.

(** X2.  The update of the index drops nothing.  Every entry of the index
    that was read has an entry of its pair (handle, id) in the index that
    is written, whose releases end with the releases that the entry had;
    and when the plan has no update of that pair, the entry itself is in the
    index that is written, as it was. *)
Theorem index_entries_are_kept (P : Platform) (now : Z)
  (index : RegistryIndex.t) (plan : list RegistryUpdate.t)
  (e : RegistryEntry.t) :
  e ∈ RegistryIndex.widgets index ->
  exists e',
    e' ∈ RegistryIndex.widgets (update_index P now index plan) /\
    entry_key e' = entry_key e /\
    (exists new, RegistryEntry.releases e' = new ++ RegistryEntry.releases e) /\
    (entry_key e ∉ map update_key plan -> e' = e).
Proof.
  intros Hin.
  destruct (merge_loop_keeps plan _ e Hin) as (e' & H1 & H2 & H3 & H4).
  exists e'. split; [|done].
  unfold update_index. cbn [RegistryIndex.widgets].
  by rewrite array_sort_perm.
Qed.

Lemma index_entries_are_kept_witness :
  exists e',
    e' ∈ RegistryIndex.widgets
           (update_index Sample.platform 0
              (RegistryIndex.mk 1 "2025-11-01T00:00:00.000Z"
                 [Sample.stub "zeta" "dial"; Sample.entry1])
              [Sample.update2]) /\
    entry_key e' = entry_key Sample.entry1 /\
    (exists new,
       RegistryEntry.releases e' = new ++ RegistryEntry.releases Sample.entry1) /\
    (entry_key Sample.entry1 ∉ map update_key [Sample.update2] ->
     e' = Sample.entry1).
Proof.
  apply (index_entries_are_kept Sample.platform 0
           (RegistryIndex.mk 1 "2025-11-01T00:00:00.000Z"
              [Sample.stub "zeta" "dial"; Sample.entry1])
           [Sample.update2] Sample.entry1).
  cbn. set_solver.
Defined.

(** *** Every update adds one release *)

Lemma release_count_cons e widgets :
  release_count (e :: widgets)
  = (length (RegistryEntry.releases e) + release_count widgets)%nat.
Proof. done. Qed.

Lemma release_count_app l1 l2 :
  release_count (l1 ++ l2) = (release_count l1 + release_count l2)%nat.
Proof.
  induction l1 as [|e l1 IH]; [done|].
  cbn [app]. rewrite !release_count_cons, IH. lia.
Qed.

Lemma release_count_perm l1 l2 :
  Permutation l1 l2 -> release_count l1 = release_count l2.
Proof.
  induction 1 as [|x l l' _ IH|x y l|l l' l'' _ IH1 _ IH2];
    rewrite ?release_count_cons in *; lia.
Qed.

Lemma release_count_merge_update widgets it :
  release_count (merge_update widgets it) = S (release_count widgets).
Proof.
  induction widgets as [|e widgets IH].
  - done.
  - rewrite merge_update_cons.
    destruct (decide (same_key it e)); rewrite !release_count_cons.
    + done.
    + rewrite IH. lia.
Qed.

Lemma release_count_merge_loop plan : forall widgets,
  release_count (merge_loop widgets plan)
  = (release_count widgets + length plan)%nat.
Proof.
  induction plan as [|it plan IH]; intros widgets.
  - unfold merge_loop. cbn [fold_left length]. lia.
  - rewrite merge_loop_cons, IH, release_count_merge_update. cbn [length]. lia.
Qed.

(** X3.  Every update of the plan adds exactly one release: the index that
    is written has as many releases as the index that was read and the plan
    has updates, whatever the pairs of the updates. *)
Theorem one_release_per_update (P : Platform) (now : Z)
  (index : RegistryIndex.t) (plan : list RegistryUpdate.t) :
  release_count (RegistryIndex.widgets (update_index P now index plan))
  = (release_count (RegistryIndex.widgets index) + length plan)%nat.
Proof.
  unfold update_index. cbn [RegistryIndex.widgets].
  rewrite (release_count_perm _ _ (array_sort_perm _ _)).
  apply release_count_merge_loop.
Qed.

(** ** More on the sort: fixed points, stability, the order as a function
    of the entries *)

Section SortMore.

Context {A : Type} (cmp : A -> A -> Z).

Lemma array_sort_cons x l :
  array_sort cmp (x :: l) = sort_insert cmp x (array_sort cmp l).
Proof. done. Qed.

Lemma array_sort_of_sorted l :
  StronglySorted (fun a b => cmp a b <= 0) l -> array_sort cmp l = l.
Proof.
  induction 1 as [|x l Hl IH Hx]; [done|].
  rewrite array_sort_cons, IH.
  destruct l as [|y l]; [done|]. cbn [sort_insert].
  apply List.Forall_inv in Hx.
  destruct (Z.ltb_spec 0 (cmp x y)); [lia | done].
Qed.

End SortMore.

Section Stability.

Variable P : Platform.
Hypothesis Hrefl : forall s, localeCompare P s s = 0.




End Stability.

(** Entries are told apart by their pairs when no pair occurs twice. *)
Lemma NoDup_keys_inj (l : list RegistryEntry.t) a b :
  NoDup (map entry_key l) -> a ∈ l -> b ∈ l -> entry_key a = entry_key b -> a = b.
Proof.
  induction l as [|x l IH]; intros Hnd Ha Hb E.
  - by apply not_elem_of_nil in Ha.
  - cbn [map] in Hnd. apply NoDup_cons in Hnd as [Hx Hnd].
    apply elem_of_cons in Ha as [->|Ha]; apply elem_of_cons in Hb as [->|Hb].
    + done.
    + exfalso. apply Hx. rewrite E. by apply (list_elem_of_fmap_2 entry_key).
    + exfalso. apply Hx. rewrite <- E. by apply (list_elem_of_fmap_2 entry_key).
    + by apply IH.
Qed.

Lemma NoDup_keys_NoDup (l : list RegistryEntry.t) :
  NoDup (map entry_key l) -> NoDup l.
Proof. apply (NoDup_fmap_1 entry_key). Qed.

Lemma elem_of_with_key (l : list RegistryEntry.t) x :
  x ∈ l <-> x ∈ with_key (entry_key x) l.
Proof.
  unfold with_key. rewrite list_elem_of_filter. tauto.
Qed.

Lemma with_key_all_perm (l1 l2 : list RegistryEntry.t) :
  NoDup (map entry_key l1) -> NoDup (map entry_key l2) ->
  (forall k, with_key k l1 = with_key k l2) ->
  Permutation l1 l2.
Proof.
  intros H1 H2 H. apply NoDup_Permutation; [by apply NoDup_keys_NoDup..|].
  intros x. by rewrite (elem_of_with_key l1), (elem_of_with_key l2), H.
Qed.

Section EntriesOrder.

Variable P : Platform.
Hypothesis HL : Collator (localeCompare P).

(** The handles and the ids of the entries at hand: no two different ones
    compare as equal. *)
Variable handles ids : list string.
Hypothesis Hhandles : tie_free (localeCompare P) handles.
Hypothesis Hids : tie_free (localeCompare P) ids.

Lemma key_le_antisym a b :
  listed handles ids a -> listed handles ids b ->
  key_le (localeCompare P) a b -> key_le (localeCompare P) b a ->
  entry_key a = entry_key b.
Proof using HL Hids.
  unfold key_le, entry_key. intros [_ Hia] [_ Hib].
  pose proof (collator_sym _ HL (RegistryEntry.handle a) (RegistryEntry.handle b))
    as Tab.
  pose proof (collator_sym _ HL (RegistryEntry.handle b) (RegistryEntry.handle a))
    as Tba.
  pose proof (collator_sym _ HL (RegistryEntry.id a) (RegistryEntry.id b)) as Iab.
  pose proof (collator_sym _ HL (RegistryEntry.id b) (RegistryEntry.id a)) as Iba.
  pose proof (collator_refl P HL (RegistryEntry.handle a)) as Ra.
  intros [H1|[E1 H1]] [H2|[E2 H2]]; try lia.
  - rewrite E2 in H1. lia.
  - rewrite <- E1 in H2. lia.
  - f_equal; [done|]. apply Hids; [done | done | lia].
Qed.

Lemma sorted_perm_eq (l1 l2 : list RegistryEntry.t) :
  Forall (listed handles ids) l1 ->
  StronglySorted (key_le (localeCompare P)) l1 ->
  StronglySorted (key_le (localeCompare P)) l2 ->
  Permutation l1 l2 ->
  (forall a b, a ∈ l1 -> b ∈ l1 -> entry_key a = entry_key b -> a = b) ->
  l1 = l2.
Proof using HL Hids.
  intros Hd H1. revert l2 Hd.
  induction H1 as [|a l1 Hl1 IH Ha]; intros l2 Hd H2 Hp Hinj.
  - by apply Permutation_nil in Hp.
  - destruct H2 as [|b l2 Hl2 Hb].
    { symmetry in Hp. by apply Permutation_nil in Hp. }
    assert (a = b) as ->.
    { assert (a ∈ b :: l2) as Ha2 by (rewrite <- Hp; apply list_elem_of_here).
      assert (b ∈ a :: l1) as Hb1 by (rewrite Hp; apply list_elem_of_here).
      apply elem_of_cons in Ha2 as [|Ha2]; [done|].
      pose proof Hb1 as Hb1'.
      apply elem_of_cons in Hb1 as [|Hb1]; [done|].
      apply Hinj; [apply list_elem_of_here | done |].
      rewrite Forall_forall in Hd.
      apply key_le_antisym; [apply Hd, list_elem_of_here | by apply Hd | |].
      - rewrite List.Forall_forall in Ha. apply Ha. by apply list_elem_of_In.
      - rewrite List.Forall_forall in Hb. apply Hb. by apply list_elem_of_In. }
    f_equal. apply IH; [by apply Forall_cons in Hd as [_ Hd] | done
                        | by apply Permutation_cons_inv in Hp |].
    intros x y Hx Hy. apply Hinj; by apply list_elem_of_further.
Qed.

Lemma array_sort_perm_eq (l1 l2 : list RegistryEntry.t) :
  Forall (listed handles ids) l1 ->
  NoDup (map entry_key l1) -> Permutation l1 l2 ->
  array_sort (compare_entries P) l1 = array_sort (compare_entries P) l2.
Proof using HL Hhandles Hids.
  intros Hd Hnd Hp.
  assert (forall l, Forall (listed handles ids) l -> Forall (known handles) l) as Hk.
  { intros l Hl. eapply Forall_impl; [exact Hl|]. by intros e [He _]. }
  apply sorted_perm_eq.
  - by rewrite array_sort_perm.
  - apply (sort_entries_sorted P HL handles Hhandles). by apply Hk.
  - apply (sort_entries_sorted P HL handles Hhandles). apply Hk. by rewrite <- Hp.
  - by rewrite !array_sort_perm.
  - intros a b Ha Hb. rewrite array_sort_perm in Ha, Hb.
    by apply (NoDup_keys_inj l1).
Qed.

End EntriesOrder.

(** X4.  An update without updates keeps the widgets.  When no entry of
    the index that was read comes after a later one for the comparison
    function of the script, the update with an empty plan writes the same
    widgets in the same order, with [api] 1 and the date of the update.
    The index that the script has written is of that kind, when
    [localeCompare] compares consistently and no two different handles
    compare as equal. *)
Theorem update_without_updates (P : Platform) (now now' : Z)
  (index : RegistryIndex.t) (plan : list RegistryUpdate.t) :
  (StronglySorted (fun a b => compare_entries P a b <= 0)
     (RegistryIndex.widgets index) ->
   update_index P now' index []
   = RegistryIndex.mk 1 (toISOString P now') (RegistryIndex.widgets index)) /\
  (Collator (localeCompare P) ->
   tie_free (localeCompare P)
     (map RegistryEntry.handle (RegistryIndex.widgets index)
      ++ map RegistryUpdate.handle plan) ->
   let written := update_index P now index plan in
   update_index P now' written []
   = RegistryIndex.mk 1 (toISOString P now') (RegistryIndex.widgets written)).
Proof.
  split.
  - intros Hs. unfold update_index. f_equal.
    unfold merge_loop. cbn [fold_left]. by apply array_sort_of_sorted.
  - intros HL Hfree written. subst written. unfold update_index.
    cbn [RegistryIndex.widgets]. f_equal.
    unfold merge_loop at 1. cbn [fold_left].
    apply array_sort_of_sorted.
    apply (array_sort_sorted _
             (known (map RegistryEntry.handle (RegistryIndex.widgets index)
                     ++ map RegistryUpdate.handle plan))).
    + intros x y _ _. by apply compare_entries_total.
    + by apply compare_entries_trans.
    + apply Forall_forall. intros e He. by apply handles_merge_loop.
Qed.

Lemma update_without_updates_witness :
  let index :=
    RegistryIndex.mk 7 "2025-11-01T00:00:00.000Z"
      [Sample.stub "a" "1"; Sample.stub "a" "2"; Sample.stub "B" "1"] in
  update_index Sample.locale_platform 5 index []
  = RegistryIndex.mk 1 (toISOString Sample.locale_platform 5)
      (RegistryIndex.widgets index).
Proof.
  intros index.
  apply (proj1 (update_without_updates Sample.locale_platform 0 5 index [])).
  repeat constructor; by vm_compute.
Defined.



(** X6.  The index that is written is a function of the entries of the
    index that was read, whatever their order in the file, and of the
    updates of each pair in their order in the plan: the order of updates
    of different pairs among themselves has no effect.  This holds for an
    index without two entries of one pair, when [localeCompare] compares
    consistently and no two different handles, and no two different ids, of
    the entries and of the updates compare as equal. *)
Theorem index_is_independent_of_order (P : Platform) (now : Z)
  (index index' : RegistryIndex.t) (plan plan' : list RegistryUpdate.t) :
  Collator (localeCompare P) ->
  tie_free (localeCompare P)
    (map RegistryEntry.handle (RegistryIndex.widgets index)
     ++ map RegistryUpdate.handle plan) ->
  tie_free (localeCompare P)
    (map RegistryEntry.id (RegistryIndex.widgets index)
     ++ map RegistryUpdate.id plan) ->
  NoDup (map entry_key (RegistryIndex.widgets index)) ->
  Permutation (RegistryIndex.widgets index) (RegistryIndex.widgets index') ->
  (forall k, updates_of k plan = updates_of k plan') ->
  update_index P now index plan = update_index P now index' plan'.
Proof.
  intros HL Hhandles Hids Hnd Hp Hup. unfold update_index. f_equal.
  assert (Hnd' : NoDup (map entry_key (RegistryIndex.widgets index'))).
  { by rewrite <- Hp. }
  apply (array_sort_perm_eq P HL _ _ Hhandles Hids).
  { apply Forall_forall. intros e He.
    split; [by apply handles_merge_loop | by apply ids_merge_loop]. }
  { by apply NoDup_keys_merge_loop. }
  apply with_key_all_perm; [by apply NoDup_keys_merge_loop..|].
  intros k. rewrite !with_key_merge_loop, Hup.
  assert (with_key k (RegistryIndex.widgets index)
          = with_key k (RegistryIndex.widgets index')) as ->; [|done].
  pose proof (with_key_perm k _ _ Hp) as Hk.
  assert (NoDup (map entry_key (with_key k (RegistryIndex.widgets index)))) as H1.
  { unfold with_key. apply (NoDup_fmap_2_strong entry_key).
    - intros a b Ha Hb. apply list_elem_of_filter in Ha as [_ Ha].
      apply list_elem_of_filter in Hb as [_ Hb].
      by apply (NoDup_keys_inj (RegistryIndex.widgets index)).
    - apply NoDup_filter. by apply NoDup_keys_NoDup. }
  destruct (with_key k (RegistryIndex.widgets index)) as [|a [|b l]] eqn:E.
  - by apply Permutation_nil in Hk.
  - by apply Permutation_singleton_l in Hk.
  - exfalso. cbn [map] in H1. apply NoDup_cons in H1 as [H1 _]. apply H1.
    assert (a ∈ with_key k (RegistryIndex.widgets index)) as Ha
      by (rewrite E; apply list_elem_of_here).
    assert (b ∈ with_key k (RegistryIndex.widgets index)) as Hb
      by (rewrite E; apply list_elem_of_further, list_elem_of_here).
    apply list_elem_of_filter in Ha as [Ha _].
    apply list_elem_of_filter in Hb as [Hb _].
    rewrite Ha, <- Hb. apply list_elem_of_here.
Qed.

(** A list of strings that the sample collation tells apart. *)
Ltac told_apart :=
  let a := fresh "a" in let b := fresh "b" in
  let Ha := fresh "Ha" in let Hb := fresh "Hb" in let H := fresh "H" in
  intros a b Ha Hb H; cbn in Ha, Hb;
  repeat (apply elem_of_cons in Ha as [->|Ha]);
  try (by apply not_elem_of_nil in Ha);
  repeat (apply elem_of_cons in Hb as [->|Hb]);
  try (by apply not_elem_of_nil in Hb);
  try reflexivity; by vm_compute in H.

Lemma index_is_independent_of_order_witness :
  update_index Sample.locale_platform 0
    (RegistryIndex.mk 1 "2025-11-01T00:00:00.000Z"
       [Sample.stub "zeta" "dial"; Sample.stub "Beta" "dial"])
    [Sample.update1; Sample.update3; Sample.update2]
  = update_index Sample.locale_platform 0
      (RegistryIndex.mk 7 "2025-11-02T00:00:00.000Z"
         [Sample.stub "Beta" "dial"; Sample.stub "zeta" "dial"])
      [Sample.update3; Sample.update1; Sample.update2].
Proof.
  apply (index_is_independent_of_order Sample.locale_platform 0
           (RegistryIndex.mk 1 "2025-11-01T00:00:00.000Z"
              [Sample.stub "zeta" "dial"; Sample.stub "Beta" "dial"])
           (RegistryIndex.mk 7 "2025-11-02T00:00:00.000Z"
              [Sample.stub "Beta" "dial"; Sample.stub "zeta" "dial"])
           [Sample.update1; Sample.update3; Sample.update2]
           [Sample.update3; Sample.update1; Sample.update2]).
  - apply locale_collator.
  - told_apart.
  - told_apart.
  - cbn. apply NoDup_cons. split; [|apply NoDup_singleton].
    rewrite list_elem_of_singleton. by intros [=].
  - cbn. apply perm_swap.
  - intros k. unfold updates_of. rewrite !filter_cons, !filter_nil.
    repeat case_decide; try done;
      exfalso; unfold update_key in *; cbn in *; congruence.
Defined.

(** ** The index that is written and the schema of the index *)

Section UpdateValid.

Variable F : Formats.

Lemma valid_entry_new it : valid_update F it -> valid_entry F (new_entry it).
Proof.
  intros (Ha & Hva & Hd). unfold valid_entry, new_entry. cbn.
  split; [done|]. split; [done|]. split; [done|]. by constructor.
Qed.

Lemma valid_entry_updated e it :
  valid_entry F e -> valid_update F it -> valid_entry F (updated_entry e it).
Proof.
  intros (_ & _ & _ & Hr) (Ha & Hva & Hd). unfold valid_entry, updated_entry. cbn.
  split; [done|]. split; [done|]. split; [done|]. by constructor.
Qed.

Lemma valid_merge_update widgets it :
  Forall (valid_entry F) widgets -> valid_update F it ->
  Forall (valid_entry F) (merge_update widgets it).
Proof.
  intros Hw Hit. induction Hw as [|e widgets He Hw IH].
  - rewrite merge_update_nil. constructor; [by apply valid_entry_new | constructor].
  - rewrite merge_update_cons. destruct (decide (same_key it e)).
    + constructor; [by apply valid_entry_updated | done].
    + by constructor.
Qed.

Lemma valid_merge_loop plan : forall widgets,
  Forall (valid_entry F) widgets -> Forall (valid_update F) plan ->
  Forall (valid_entry F) (merge_loop widgets plan).
Proof.
  induction plan as [|it plan IH]; intros widgets Hw Hp; [done|].
  apply Forall_cons in Hp as [Hit Hp].
  rewrite merge_loop_cons. apply IH; [|done]. by apply valid_merge_update.
Qed.

(** The release of an update is in the index after the merge. *)
Lemma release_in_merge_update widgets it :
  exists e, e ∈ merge_update widgets it /\
            releaseData it ∈ RegistryEntry.releases e.
Proof.
  induction widgets as [|x widgets IH].
  - exists (new_entry it). rewrite merge_update_nil.
    split; apply list_elem_of_here.
  - rewrite merge_update_cons. destruct (decide (same_key it x)).
    + exists (updated_entry x it). split; apply list_elem_of_here.
    + destruct IH as (e & He & Hr). exists e.
      split; [by apply list_elem_of_further | done].
Qed.

Lemma release_in_merge_loop widgets plan it :
  it ∈ plan ->
  exists e, e ∈ merge_loop widgets plan /\
            releaseData it ∈ RegistryEntry.releases e.
Proof.
  intros (p1 & p2 & ->)%list_elem_of_split.
  rewrite merge_loop_app, merge_loop_cons.
  destruct (release_in_merge_update (merge_loop widgets p1) it) as (e & He & Hr).
  destruct (merge_loop_keeps p2 _ e He) as (e' & He' & _ & [new Hnew] & _).
  exists e'. split; [done|]. rewrite Hnew. apply elem_of_app. by right.
Qed.

Lemma is_ok_elements_false {A} (s : schema A) l x :
  x ∈ l -> is_ok (s x) = false -> forall i, is_ok (z_elements s i l) = false.
Proof.
  intros Hin Hx. induction l as [|y l IH]; intros i.
  - by apply not_elem_of_nil in Hin.
  - simpl. rewrite is_ok_bind by (by intros [? ?]).
    rewrite is_ok_both, is_ok_at_seg.
    apply elem_of_cons in Hin as [<-|Hin].
    + by rewrite Hx.
    + rewrite IH by done. apply andb_false_r.
Qed.

Lemma is_ok_min1_array_false {A} (s : schema A) l x :
  x ∈ l -> is_ok (s x) = false -> is_ok (z_min1 (z_array s) (JArr l)) = false.
Proof.
  intros Hin Hx. unfold z_min1, z_check, z_array.
  pose proof (is_ok_elements_false s l x Hin Hx 0%nat) as H.
  by destruct (z_elements s 0 l).
Qed.

Lemma release_schema_date r :
  is_ok (RegistryEntryReleaseSchema F (release_value r))
  = fmt_iso_datetime F (RegistryEntryRelease.publishedAt r).
Proof.
  unfold RegistryEntryReleaseSchema, z_object, required, z_format, z_check.
  simpl. by destruct (fmt_iso_datetime F (RegistryEntryRelease.publishedAt r)).
Qed.

Lemma entry_schema_bad_release e r :
  r ∈ RegistryEntry.releases e ->
  fmt_iso_datetime F (RegistryEntryRelease.publishedAt r) = false ->
  is_ok (RegistryEntrySchema F (entry_value e)) = false.
Proof.
  intros Hin Hr. unfold RegistryEntrySchema, z_object, entry_value.
  rewrite is_ok_bind by (by intros (?&?&?&?&?&?)).
  rewrite !is_ok_both.
  replace (is_ok (required "releases"
                    (z_min1 (z_array (RegistryEntryReleaseSchema F))) _))
    with false; [by rewrite !andb_false_r|].
  symmetry. unfold required. cbn [field fold_left fst snd String.eqb Ascii.eqb
                                   Bool.eqb].
  rewrite is_ok_at_seg.
  apply (is_ok_min1_array_false _ _ (release_value r)).
  - by apply (list_elem_of_fmap_2 release_value).
  - by rewrite release_schema_date.
Qed.

Lemma index_schema_bad_release index e r :
  e ∈ RegistryIndex.widgets index ->
  r ∈ RegistryEntry.releases e ->
  fmt_iso_datetime F (RegistryEntryRelease.publishedAt r) = false ->
  is_ok (RegistryIndexSchema F (index_value index)) = false.
Proof.
  intros He Hin Hr. unfold RegistryIndexSchema, z_object, index_value.
  rewrite is_ok_bind by (by intros (?&?&?)).
  rewrite !is_ok_both.
  replace (is_ok (required "widgets" (z_array (RegistryEntrySchema F)) _))
    with false; [by rewrite !andb_false_r|].
  symmetry. unfold required. cbn [field fold_left fst snd String.eqb Ascii.eqb
                                   Bool.eqb].
  rewrite is_ok_at_seg. unfold z_array.
  apply (is_ok_elements_false _ _ (entry_value e)).
  - by apply (list_elem_of_fmap_2 entry_value).
  - by apply (entry_schema_bad_release e r).
Qed.

End UpdateValid.

(** X8.  The script does not check the [publishedAt] of an update, which
    is the [created] annotation of the push tool when the tool reports one.
    When the [publishedAt] of an update of the plan is not a date for the
    schema, the script still writes the index with it, and
    [parseRegistryIndex] rejects the file that was written: the next run
    cannot load its index. *)
Theorem unchecked_date_breaks_next_load (P : Platform)
  (files : gmap string string) (dir : string) (now : Z)
  (index : RegistryIndex.t) (plan : list RegistryUpdate.t)
  (it : RegistryUpdate.t) :
  it ∈ plan ->
  fmt_iso_datetime (formats P) (RegistryUpdate.publishedAt it) = false ->
  let written := update_index P now index plan in
  is_ok (parseRegistryIndex P (writeRegistryIndex P files dir written) dir)
  = false.
Proof.
  intros Hin Hbad written. rewrite parse_written_index.
  destruct (release_in_merge_loop (RegistryIndex.widgets index) plan it Hin)
    as (e & He & Hr).
  apply (index_schema_bad_release (formats P) written e (releaseData it)).
  - subst written. unfold update_index. cbn [RegistryIndex.widgets].
    by rewrite array_sort_perm.
  - done.
  - done.
Qed.

Lemma unchecked_date_breaks_next_load_witness :
  is_ok (parseRegistryIndex Sample.platform
           (writeRegistryIndex Sample.platform ∅ "registry"
              (update_index Sample.platform 0 Sample.empty_index
                 [Sample.update3;
                  RegistryUpdate.mk "acme" "clock" Sample.widget Sample.manifest
                    "yesterday" "sha256:0000"]))
           "registry")
  = false.
Proof.
  apply (unchecked_date_breaks_next_load Sample.platform ∅ "registry" 0
           Sample.empty_index
           [Sample.update3;
            RegistryUpdate.mk "acme" "clock" Sample.widget Sample.manifest
              "yesterday" "sha256:0000"]
           (RegistryUpdate.mk "acme" "clock" Sample.widget Sample.manifest
              "yesterday" "sha256:0000")).
  - apply list_elem_of_further, list_elem_of_here.
  - vm_compute. reflexivity.
Defined.

(** ** The run as a whole: the environment, the loop of pushes, the file
    that is written *)

Section RunFacts.

Variable P : Platform.
Variable Ext : Type.
Variable T : Tools Ext.
Variable env : gmap string string.

Lemma require_env_ok names :
  require_env env names = Ok tt <-> Forall (fun v => is_Some (env !! v)) names.
Proof.
  induction names as [|v names IH]; simpl.
  - split; [constructor | done].
  - destruct (env !! v) as [x|] eqn:E.
    + rewrite IH. split.
      * intros H. constructor; [by exists x | done].
      * by intros [_ H]%Forall_cons.
    + split; [done|]. intros [[x Hx] _]%Forall_cons. congruence.
Qed.

Lemma require_env_missing before v after :
  Forall (fun x => is_Some (env !! x)) before ->
  env !! v = None ->
  require_env env (before ++ v :: after)
  = Err (Fatal ("Missing required environment variable: " +:+ v)).
Proof.
  intros Hb Hv. induction Hb as [|x before [y Hx] _ IH]; simpl.
  - by rewrite Hv.
  - by rewrite Hx.
Qed.

Lemma publish_entry_key it w u w' :
  publish_entry P Ext T env it w = Ok (u, w') ->
  update_key u = plan_key it /\
  RegistryUpdate.widget u = PublishPlanEntry.widget it /\
  RegistryUpdate.manifest u = PublishPlanEntry.manifest it.
Proof.
  unfold publish_entry. intros H.
  apply bind_ok in H as ([r w3] & _ & [= <- <-]). done.
Qed.

Lemma publish_loop_keys plan : forall w ups w',
  publish_loop P Ext T env plan w = Ok (ups, w') ->
  Forall2 (fun it u =>
             update_key u = plan_key it /\
             RegistryUpdate.widget u = PublishPlanEntry.widget it /\
             RegistryUpdate.manifest u = PublishPlanEntry.manifest it)
          plan ups.
Proof.
  induction plan as [|it plan IH]; intros w ups w' H.
  - injection H as <- <-. constructor.
  - apply publish_loop_cons_ok in H as (u & w1 & us & H1 & H2 & ->).
    constructor; [by eapply publish_entry_key | by eapply IH].
Qed.

Lemma publish_loop_update_keys plan w ups w' :
  publish_loop P Ext T env plan w = Ok (ups, w') ->
  map update_key ups = map plan_key plan.
Proof.
  intros H. apply publish_loop_keys in H.
  induction H as [|it u plan ups (Hk & _) _ IH]; [done|].
  cbn [map]. by rewrite Hk, IH.
Qed.

Lemma publish_loop_app plan1 plan2 w :
  publish_loop P Ext T env (plan1 ++ plan2) w
  = '(us1, w1) ← publish_loop P Ext T env plan1 w;
    '(us2, w2) ← publish_loop P Ext T env plan2 w1;
    Ok (us1 ++ us2, w2).
Proof.
  revert w. induction plan1 as [|it plan1 IH]; intros w.
  - cbn [app publish_loop mbind result_bind bind].
    by destruct (publish_loop P Ext T env plan2 w) as [[us2 w2]|].
  - cbn [app]. rewrite !publish_loop_cons.
    destruct (publish_entry P Ext T env it w) as [[u w1]|]; [|done].
    cbn [mbind result_bind bind]. rewrite IH.
    destruct (publish_loop P Ext T env plan1 w1) as [[us1 w2]|]; [|done].
    cbn [mbind result_bind bind].
    by destruct (publish_loop P Ext T env plan2 w2) as [[us2 w3]|].
Qed.

Lemma main_ok w0 w' :
  main P Ext T env w0 = Ok w' ->
  exists publishPlan registryUpdatePlan w w1 index,
    require_env env ["GHCR_REPO_PREFIX"; "PUBLISH_PLAN_PATH"; "REGISTRY_DIR"]
    = Ok tt /\
    parsePublishPlan P (files w0) (PUBLISH_PLAN_PATH env) = Ok publishPlan /\
    publish_loop P Ext T env publishPlan w0 = Ok (registryUpdatePlan, w) /\
    fs_mkdir T (REGISTRY_DIR env) w = Ok w1 /\
    parseRegistryIndex P (files w1) (REGISTRY_DIR env) = Ok index /\
    w' = mkWorld
           (writeRegistryIndex P (files w1) (REGISTRY_DIR env)
              (update_index P (clock w) index registryUpdatePlan))
           (clock w1) (ext w1).
Proof.
  unfold main. intros H.
  apply bind_ok in H as ([] & Henv & H).
  apply bind_ok in H as (plan & Hplan & H).
  apply bind_ok in H as ([ups w] & Hloop & H).
  unfold update_registry in H.
  apply bind_ok in H as (w1 & Hmk & H).
  apply bind_ok in H as (index & Hidx & [= <-]).
  exists plan, ups, w, w1, index. done.
Qed.

End RunFacts.

(** X9.  The check of the environment.  The script goes on exactly when
    the three variables are set.  Otherwise it ends with the message of
    [die] that names the first of the three, in the order
    GHCR_REPO_PREFIX, PUBLISH_PLAN_PATH, REGISTRY_DIR, that is not set,
    whatever the files and the tools: before it reads the plan or runs a
    tool. *)
Theorem missing_variable_ends_run (P : Platform) (Ext : Type) (T : Tools Ext)
  (env : gmap string string) (w : World Ext)
  (before after : list string) (v : string) :
  let names := ["GHCR_REPO_PREFIX"; "PUBLISH_PLAN_PATH"; "REGISTRY_DIR"] in
  (require_env env names = Ok tt
   <-> Forall (fun x => is_Some (env !! x)) names) /\
  (names = before ++ v :: after ->
   Forall (fun x => is_Some (env !! x)) before ->
   env !! v = None ->
   main P Ext T env w
   = Err (Fatal ("Missing required environment variable: " +:+ v))).
Proof.
  intros names. split; [apply require_env_ok|].
  intros E Hb Hv. unfold main. fold names. rewrite E.
  by rewrite (require_env_missing env before v after Hb Hv).
Qed.

Lemma missing_variable_ends_run_witness :
  main Sample.platform bool Sample.tools
    {[ "GHCR_REPO_PREFIX" := "ghcr.io/acme"; "REGISTRY_DIR" := "registry" ]}
    Sample.world0
  = Err (Fatal "Missing required environment variable: PUBLISH_PLAN_PATH").
Proof.
  apply (missing_variable_ends_run Sample.platform bool Sample.tools
           {[ "GHCR_REPO_PREFIX" := "ghcr.io/acme"; "REGISTRY_DIR" := "registry" ]}
           Sample.world0 ["GHCR_REPO_PREFIX"] ["REGISTRY_DIR"] "PUBLISH_PLAN_PATH").
  - reflexivity.
  - constructor; [|constructor]. exists "ghcr.io/acme". vm_compute. reflexivity.
  - vm_compute. reflexivity.
Defined.

(** X10.  The first failure ends the run.  When the entries of the plan
    before an entry have been pushed and the push of that entry fails,
    the loop over the plan and the script end with the error of that push,
    whatever entries follow in the plan and whatever the tools would do
    with them. *)
Theorem first_failure_ends_run (P : Platform) (Ext : Type) (T : Tools Ext)
  (env : gmap string string) (w0 w : World Ext)
  (pushed rest : list PublishPlanEntry.t) (it : PublishPlanEntry.t)
  (ups : list RegistryUpdate.t) (e : error) :
  require_env env ["GHCR_REPO_PREFIX"; "PUBLISH_PLAN_PATH"; "REGISTRY_DIR"]
  = Ok tt ->
  parsePublishPlan P (files w0) (PUBLISH_PLAN_PATH env)
  = Ok (pushed ++ it :: rest) ->
  publish_loop P Ext T env pushed w0 = Ok (ups, w) ->
  publish_entry P Ext T env it w = Err e ->
  publish_loop P Ext T env (pushed ++ it :: rest) w0 = Err e /\
  main P Ext T env w0 = Err e.
Proof.
  intros Henv Hplan Hpushed Hit.
  assert (publish_loop P Ext T env (pushed ++ it :: rest) w0 = Err e) as Hloop.
  { rewrite publish_loop_app, Hpushed. cbn [mbind result_bind bind].
    rewrite publish_loop_cons, Hit. done. }
  split; [done|].
  unfold main. rewrite Henv. cbn [mbind result_bind bind].
  rewrite Hplan. cbn [mbind result_bind bind]. by rewrite Hloop.
Qed.

Lemma first_failure_ends_run_witness :
  publish_loop Sample.platform bool Sample.worn_tools Sample.env
    ([Sample.entry] ++ Sample.entry2 :: []) Sample.world_with_two_entries
  = Err (ToolError "oras: connection refused") /\
  main Sample.platform bool Sample.worn_tools Sample.env
    Sample.world_with_two_entries
  = Err (ToolError "oras: connection refused").
Proof.
  eapply (first_failure_ends_run Sample.platform bool Sample.worn_tools
            Sample.env Sample.world_with_two_entries _
            [Sample.entry] [] Sample.entry2 _).
  - vm_compute. reflexivity.
  - vm_compute. reflexivity.
  - vm_compute. reflexivity.
  - vm_compute. reflexivity.
Defined.

(** X11.  A run that succeeds.  The plan was read, every entry of it was
    pushed, the index was read after [fs.mkdir], and the run leaves the
    files as they were after [fs.mkdir] but for the index file, which holds
    the text of the updated index.  That index has [api] 1, an entry for a
    pair (handle, id) exactly when the index that was read had one or the
    plan has an entry of the pair, and one release more than the index that
    was read for every entry of the plan. *)
Theorem successful_run (P : Platform) (Ext : Type) (T : Tools Ext)
  (env : gmap string string) (w0 w' : World Ext) :
  main P Ext T env w0 = Ok w' ->
  let dir := REGISTRY_DIR env in
  let indexFile := path_join P dir "index.json" in
  exists (publishPlan : list PublishPlanEntry.t)
         (registryUpdatePlan : list RegistryUpdate.t) (w w1 : World Ext)
         (index : RegistryIndex.t),
    let written := update_index P (clock w) index registryUpdatePlan in
    parsePublishPlan P (files w0) (PUBLISH_PLAN_PATH env) = Ok publishPlan /\
    publish_loop P Ext T env publishPlan w0 = Ok (registryUpdatePlan, w) /\
    fs_mkdir T dir w = Ok w1 /\
    parseRegistryIndex P (files w1) dir = Ok index /\
    files w' = <[indexFile := JSON.stringify (index_value written)]> (files w1) /\
    RegistryIndex.api written = 1 /\
    (forall k,
       k ∈ map entry_key (RegistryIndex.widgets written)
       <-> k ∈ map entry_key (RegistryIndex.widgets index)
           \/ k ∈ map plan_key publishPlan) /\
    release_count (RegistryIndex.widgets written)
    = (release_count (RegistryIndex.widgets index) + length publishPlan)%nat.
Proof.
  intros H dir indexFile.
  apply main_ok in H
    as (plan & ups & w & w1 & index & _ & Hplan & Hloop & Hmk & Hidx & ->).
  exists plan, ups, w, w1, index. intros written.
  split; [done|]. split; [done|]. split; [done|]. split; [done|].
  split; [done|]. split; [done|].
  apply publish_loop_update_keys in Hloop as Hkeys.
  assert (length ups = length plan) as Hlen.
  { by rewrite <- (length_map update_key), Hkeys, length_map. }
  subst written. unfold update_index. cbn [RegistryIndex.widgets]. split.
  - intros k. rewrite array_sort_perm, keys_merge_loop. by rewrite Hkeys.
  - rewrite (release_count_perm _ _ (array_sort_perm _ _)).
    by rewrite release_count_merge_loop, Hlen.
Qed.

Lemma successful_run_witness :
  exists w',
    main Sample.platform bool Sample.tools Sample.env
      Sample.world_with_two_entries = Ok w' /\
    exists (publishPlan : list PublishPlanEntry.t)
           (registryUpdatePlan : list RegistryUpdate.t) (w w1 : World bool)
           (index : RegistryIndex.t),
      let written :=
        update_index Sample.platform (clock w) index registryUpdatePlan in
      parsePublishPlan Sample.platform (files Sample.world_with_two_entries)
        (PUBLISH_PLAN_PATH Sample.env) = Ok publishPlan /\
      publish_loop Sample.platform bool Sample.tools Sample.env publishPlan
        Sample.world_with_two_entries = Ok (registryUpdatePlan, w) /\
      fs_mkdir Sample.tools (REGISTRY_DIR Sample.env) w = Ok w1 /\
      parseRegistryIndex Sample.platform (files w1) (REGISTRY_DIR Sample.env)
      = Ok index /\
      files w'
      = <[path_join Sample.platform (REGISTRY_DIR Sample.env) "index.json"
          := JSON.stringify (index_value written)]> (files w1) /\
      RegistryIndex.api written = 1 /\
      (forall k,
         k ∈ map entry_key (RegistryIndex.widgets written)
         <-> k ∈ map entry_key (RegistryIndex.widgets index)
             \/ k ∈ map plan_key publishPlan) /\
      release_count (RegistryIndex.widgets written)
      = (release_count (RegistryIndex.widgets index) + length publishPlan)%nat.
Proof.
  eexists. split; [vm_compute; reflexivity|].
  apply (successful_run Sample.platform bool Sample.tools Sample.env
           Sample.world_with_two_entries).
  vm_compute. reflexivity.
Defined.

(** ** The date of a release *)

Section PublishedAt.

Variable P : Platform.
Variable Ext : Type.
Variable T : Tools Ext.
Variable env : gmap string string.

Lemma publish_entry_update it w u w' :
  publish_entry P Ext T env it w = Ok (u, w') ->
  exists pushResult,
    stage_and_push P Ext T env it w = Ok (pushResult, w') /\
    u = RegistryUpdate.mk (PublishPlanEntry.handle it) (PublishPlanEntry.id it)
          (PublishPlanEntry.widget it) (PublishPlanEntry.manifest it)
          match createdAt pushResult with
          | Some created => created
          | None => toISOString P (clock w')
          end
          (OrasPushOutput.digest pushResult).
Proof.
  unfold publish_entry. intros H.
  apply bind_ok in H as ([r w3] & H1 & [= <- <-]).
  exists r. by split.
Qed.

(** The loop over the plan, entry by entry: the update of the entry at
    position [i] comes from the push of that entry in the world that the
    entries before it have left. *)
Lemma publish_loop_at plan : forall w ups w' i it,
  publish_loop P Ext T env plan w = Ok (ups, w') ->
  plan !! i = Some it ->
  exists wi pushResult wi',
    publish_loop P Ext T env (take i plan) w = Ok (take i ups, wi) /\
    stage_and_push P Ext T env it wi = Ok (pushResult, wi') /\
    ups !! i
    = Some (RegistryUpdate.mk (PublishPlanEntry.handle it)
              (PublishPlanEntry.id it) (PublishPlanEntry.widget it)
              (PublishPlanEntry.manifest it)
              match createdAt pushResult with
              | Some created => created
              | None => toISOString P (clock wi')
              end
              (OrasPushOutput.digest pushResult)).
Proof.
  induction plan as [|it0 plan IH]; intros w ups w' i it H Hi; [done|].
  apply publish_loop_cons_ok in H as (u0 & w1 & us & H0 & Hrest & ->).
  destruct i as [|i]; simpl in Hi.
  - injection Hi as <-.
    apply publish_entry_update in H0 as (r & Hr & ->).
    exists w, r, w1. split; [done|]. by split.
  - destruct (IH _ _ _ i it Hrest Hi) as (wi & r & wi' & Hpre & Hr & Hu).
    exists wi, r, wi'. split; [|by split].
    cbn [take]. rewrite publish_loop_cons, H0. cbn. by rewrite Hpre.
Qed.

End PublishedAt.

(** The release of an update is in the merged index, in the entry of the
    pair of the update. *)
Lemma release_of_update_merge_update widgets it :
  exists e, e ∈ merge_update widgets it /\ entry_key e = update_key it /\
            releaseData it ∈ RegistryEntry.releases e.
Proof.
  induction widgets as [|x widgets IH].
  - exists (new_entry it). rewrite merge_update_nil.
    split; [apply list_elem_of_here|]. split; [done | apply list_elem_of_here].
  - rewrite merge_update_cons. destruct (decide (same_key it x)) as [Hs|Hs].
    + exists (updated_entry x it). split; [apply list_elem_of_here|].
      split; [by apply same_key_keys in Hs | apply list_elem_of_here].
    + destruct IH as (e & He & Hk & Hr). exists e.
      split; [by apply list_elem_of_further | done].
Qed.

Lemma release_of_update_merge_loop widgets plan it :
  it ∈ plan ->
  exists e, e ∈ merge_loop widgets plan /\ entry_key e = update_key it /\
            releaseData it ∈ RegistryEntry.releases e.
Proof.
  intros (p1 & p2 & ->)%list_elem_of_split.
  rewrite merge_loop_app, merge_loop_cons.
  destruct (release_of_update_merge_update (merge_loop widgets p1) it)
    as (e & He & Hk & Hr).
  destruct (merge_loop_keeps p2 _ e He) as (e' & He' & Hk' & [new Hnew] & _).
  exists e'. split; [done|]. split; [congruence|].
  rewrite Hnew. apply elem_of_app. by right.
Qed.

(** C5.  For every entry of the plan that the loop processes, the
    [publishedAt] of its update, and of the release that the merge puts
    into the index for it, is the [org.opencontainers.image.created]
    annotation of the result of its push when the result has that
    annotation; otherwise it is the time of the clock, as an ISO string, in
    the world that the push of this entry leaves: the time at which this
    entry is processed.  The release is in the entry of the pair (handle,
    id) of the plan entry, in the index that the script hands to
    [writeRegistryIndex], whatever the index that was read and the time of
    the update. *)
Theorem publishedAt_selection (P : Platform) (Ext : Type) (T : Tools Ext)
  (env : gmap string string) (publishPlan : list PublishPlanEntry.t)
  (w w' : World Ext) (registryUpdatePlan : list RegistryUpdate.t)
  (now : Z) (registryIndex : RegistryIndex.t) :
  publish_loop P Ext T env publishPlan w = Ok (registryUpdatePlan, w') ->
  length registryUpdatePlan = length publishPlan /\
  forall (i : nat) (it : PublishPlanEntry.t),
    publishPlan !! i = Some it ->
    exists (u : RegistryUpdate.t) (wi : World Ext)
           (pushResult : OrasPushOutput.t) (wi' : World Ext),
      registryUpdatePlan !! i = Some u /\
      publish_loop P Ext T env (take i publishPlan) w
      = Ok (take i registryUpdatePlan, wi) /\
      stage_and_push P Ext T env it wi = Ok (pushResult, wi') /\
      let publishedAt :=
        match OrasPushOutput.annotations pushResult
              ≫= (fun a => a !! "org.opencontainers.image.created") with
        | Some created => created
        | None => toISOString P (clock wi')
        end in
      RegistryUpdate.publishedAt u = publishedAt /\
      exists (entry : RegistryEntry.t),
        entry ∈ RegistryIndex.widgets
                  (update_index P now registryIndex registryUpdatePlan) /\
        RegistryEntry.handle entry = PublishPlanEntry.handle it /\
        RegistryEntry.id entry = PublishPlanEntry.id it /\
        RegistryEntryRelease.mk (Widget.version (PublishPlanEntry.widget it))
          publishedAt (OrasPushOutput.digest pushResult)
        ∈ RegistryEntry.releases entry.
Proof.
  intros Hloop. split.
  { apply publish_loop_update_keys in Hloop.
    by rewrite <- (length_map update_key), Hloop, length_map. }
  intros i it Hi.
  destruct (publish_loop_at P Ext T env _ _ _ _ i it Hloop Hi)
    as (wi & r & wi' & Hpre & Hr & Hu).
  eexists _, wi, r, wi'. split; [exact Hu|]. split; [done|]. split; [done|].
  intros publishedAt. split; [done|].
  apply list_elem_of_lookup_2 in Hu.
  destruct (release_of_update_merge_loop (RegistryIndex.widgets registryIndex)
              _ _ Hu) as (e & He & [= Hh Hid] & Hrel).
  exists e. unfold update_index. cbn [RegistryIndex.widgets].
  rewrite array_sort_perm. done.
Qed.

Lemma publishedAt_selection_witness :
  let registryUpdatePlan :=
    [RegistryUpdate.mk "acme" "clock" Sample.widget Sample.manifest
       "2025-11-02T12:00:00Z" "sha256:0000";
     RegistryUpdate.mk "zeta" "dial" Sample.widget Sample.manifest
       "2025-11-03T07:00:10.125Z" "sha256:0000"] in
  let w' :=
    mkWorld (<["/work/temp/deskulpt.widget.json" := "{}"]>
               (files Sample.world_with_two_entries))
            1762153210125 true in
  publish_loop Sample.platform bool Sample.fickle_tools Sample.env
    [Sample.entry; Sample.entry2] Sample.world_reporting
  = Ok (registryUpdatePlan, w') /\
  forall (i : nat) (it : PublishPlanEntry.t),
    [Sample.entry; Sample.entry2] !! i = Some it ->
    exists (u : RegistryUpdate.t) (wi : World bool)
           (pushResult : OrasPushOutput.t) (wi' : World bool),
      registryUpdatePlan !! i = Some u /\
      publish_loop Sample.platform bool Sample.fickle_tools Sample.env
        (take i [Sample.entry; Sample.entry2]) Sample.world_reporting
      = Ok (take i registryUpdatePlan, wi) /\
      stage_and_push Sample.platform bool Sample.fickle_tools Sample.env it wi
      = Ok (pushResult, wi') /\
      let publishedAt :=
        match OrasPushOutput.annotations pushResult
              ≫= (fun a => a !! "org.opencontainers.image.created") with
        | Some created => created
        | None => toISOString Sample.platform (clock wi')
        end in
      RegistryUpdate.publishedAt u = publishedAt /\
      exists (entry : RegistryEntry.t),
        entry ∈ RegistryIndex.widgets
                  (update_index Sample.platform 1762153210125
                     Sample.empty_index registryUpdatePlan) /\
        RegistryEntry.handle entry = PublishPlanEntry.handle it /\
        RegistryEntry.id entry = PublishPlanEntry.id it /\
        RegistryEntryRelease.mk (Widget.version (PublishPlanEntry.widget it))
          publishedAt (OrasPushOutput.digest pushResult)
        ∈ RegistryEntry.releases entry.
Proof.
  intros registryUpdatePlan w'.
  assert (publish_loop Sample.platform bool Sample.fickle_tools Sample.env
            [Sample.entry; Sample.entry2] Sample.world_reporting
          = Ok (registryUpdatePlan, w')) as Hloop
    by (vm_compute; reflexivity).
  split; [exact Hloop|].
  apply (publishedAt_selection Sample.platform bool Sample.fickle_tools
           Sample.env [Sample.entry; Sample.entry2] Sample.world_reporting w'
           registryUpdatePlan 1762153210125 Sample.empty_index Hloop).
Defined.

(** ** The text of a publish plan: one document per line *)

Section Strings.

Lemma app_String c (a b : string) : String c a +:+ b = String c (a +:+ b).
Proof. done. Qed.

Lemma app_empty_l (a : string) : "" +:+ a = a.
Proof. done. Qed.

Lemma app_empty_r (a : string) : a +:+ "" = a.
Proof. induction a as [|c a IH]; [done|]. by rewrite app_String, IH. Qed.

Lemma app_assoc_str (a b c : string) : (a +:+ b) +:+ c = a +:+ (b +:+ c).
Proof. induction a as [|x a IH]; [done|]. by rewrite !app_String, IH. Qed.

Lemma forallb_app f (a b : string) :
  string_forallb f (a +:+ b) = string_forallb f a && string_forallb f b.
Proof.
  induction a as [|c a IH]; [done|].
  rewrite app_String. cbn [string_forallb]. by rewrite IH, andb_assoc.
Qed.

Lemma forallb_impl (f g : ascii -> bool) s :
  (forall c, f c = true -> g c = true) ->
  string_forallb f s = true -> string_forallb g s = true.
Proof.
  intros Hfg. induction s as [|c s IH]; [done|]. cbn [string_forallb].
  intros [Hc Hs]%andb_true_iff. by rewrite (Hfg c Hc), IH.
Qed.

Lemma length_app_str (a b : string) :
  String.length (a +:+ b) = (String.length a + String.length b)%nat.
Proof. induction a as [|c a IH]; [done|]. rewrite app_String. simpl. by rewrite IH. Qed.

End Strings.

(** *** The characters of the text of a value *)

Section PrintFacts.

Import JSON.

Lemma escape_char_app c k1 k2 :
  escape_char c (k1 +:+ k2) = escape_char c k1 +:+ k2.
Proof. unfold escape_char. repeat case_match; done. Qed.

Lemma escape_app s k1 k2 : escape s (k1 +:+ k2) = escape s k1 +:+ k2.
Proof.
  induction s as [|c s IH]; [done|]. simpl. by rewrite IH, escape_char_app.
Qed.

Lemma quote_app s k1 k2 : quote s (k1 +:+ k2) = quote s k1 +:+ k2.
Proof. unfold quote. by rewrite <- app_String, escape_app. Qed.

Lemma print_num_app n k1 k2 : print_num n (k1 +:+ k2) = print_num n k1 +:+ k2.
Proof. unfold print_num. by rewrite app_assoc_str. Qed.

Lemma print_app_gen j : forall k1 k2, print j (k1 +:+ k2) = print j k1 +:+ k2.
Proof.
  induction j as [|b|n|s|l IH|l IH] using json_ind; intros k1 k2.
  - done.
  - by destruct b.
  - apply print_num_app.
  - apply quote_app.
  - destruct l as [|x l]; [done|].
    apply Forall_cons in IH as [Hx Hl]. cbn [print].
    rewrite app_String. f_equal. rewrite <- Hx. f_equal.
    induction Hl as [|y l Hy _ IHl]; [done|].
    cbn [fold_right]. rewrite app_String. f_equal. by rewrite IHl, Hy.
  - destruct l as [|[key x] l]; [done|].
    apply Forall_cons in IH as [Hx Hl]. cbn [print snd] in *.
    rewrite app_String. f_equal. rewrite <- quote_app. f_equal.
    rewrite app_String. f_equal. rewrite <- Hx. f_equal.
    induction Hl as [|m l Hm _ IHl]; [done|].
    cbn [fold_right]. rewrite app_String. f_equal.
    rewrite <- quote_app. f_equal. rewrite app_String. f_equal.
    by rewrite IHl, Hm.
Qed.

Lemma print_app j k : print j k = stringify j +:+ k.
Proof. unfold stringify. by rewrite <- print_app_gen. Qed.

Lemma escape_char_printable c k :
  string_forallb printable k = true ->
  string_forallb printable (escape_char c k) = true.
Proof.
  intros H. destruct c as [[|] [|] [|] [|] [|] [|] [|] [|]]; exact H.
Qed.

Lemma escape_printable s k :
  string_forallb printable k = true ->
  string_forallb printable (escape s k) = true.
Proof.
  intros H. induction s as [|c s IH]; [done|].
  simpl. by apply escape_char_printable.
Qed.

Lemma quote_printable s k :
  string_forallb printable k = true ->
  string_forallb printable (quote s k) = true.
Proof. intros H. unfold quote. cbn [string_forallb]. by apply escape_printable. Qed.

Lemma uint_printable d :
  string_forallb printable (NilEmpty.string_of_uint d) = true.
Proof. induction d; simpl; done. Qed.

Lemma print_num_printable n k :
  string_forallb printable k = true ->
  string_forallb printable (print_num n k) = true.
Proof.
  intros H. unfold print_num. rewrite forallb_app, H, andb_true_r.
  destruct n as [|p|p]; simpl; [done|..];
    rewrite JSONFacts.string_of_uint_pos; apply uint_printable.
Qed.

Lemma print_printable j : forall k,
  string_forallb printable k = true ->
  string_forallb printable (print j k) = true.
Proof.
  induction j as [|b|n|s|l IH|l IH] using json_ind; intros k Hk.
  - done.
  - by destruct b.
  - by apply print_num_printable.
  - by apply quote_printable.
  - destruct l as [|x l]; [done|].
    apply Forall_cons in IH as [Hx Hl]. cbn [print string_forallb].
    apply Hx. induction Hl as [|y l Hy _ IHl]; [done|].
    cbn [fold_right string_forallb]. by apply Hy.
  - destruct l as [|[key x] l]; [done|].
    apply Forall_cons in IH as [Hx Hl]. cbn [print snd string_forallb] in *.
    apply quote_printable. cbn [string_forallb]. apply Hx.
    induction Hl as [|m l Hm _ IHl]; [done|].
    cbn [fold_right string_forallb]. apply quote_printable.
    cbn [string_forallb]. by apply Hm.
Qed.

Lemma stringify_printable j : string_forallb printable (stringify j) = true.
Proof. by apply print_printable. Qed.

(** The last character of the text of a value. *)

Lemma ends_anchor_cons c s : ends_anchor s -> ends_anchor (String c s).
Proof.
  intros (a & z & -> & Hz). exists (String c a), z. done.
Qed.

Lemma ends_anchor_app a s : ends_anchor s -> ends_anchor (a +:+ s).
Proof.
  intros H. induction a as [|c a IH]; [done|].
  rewrite app_String. by apply ends_anchor_cons.
Qed.

Lemma ends_anchor_uint d :
  d <> Decimal.Nil -> ends_anchor (NilEmpty.string_of_uint d).
Proof.
  induction d as [|d IH|d IH|d IH|d IH|d IH|d IH|d IH|d IH|d IH|d IH];
    [done|..]; intros _; simpl;
    (destruct (Decimal.uint_eq_dec d Decimal.Nil) as [->|Hd];
     [by eexists "", _ | by apply ends_anchor_cons, IH]).
Qed.

Lemma ends_anchor_quote s k : ends_anchor k -> ends_anchor (quote s k).
Proof.
  intros H. unfold quote. apply ends_anchor_cons.
  rewrite <- (app_empty_l (String dquote k)), escape_app.
  by apply ends_anchor_app, ends_anchor_cons.
Qed.

Lemma ends_anchor_print j k : ends_anchor k -> ends_anchor (print j k).
Proof. intros H. rewrite print_app. by apply ends_anchor_app. Qed.

Lemma ends_anchor_stringify j : ends_anchor (stringify j).
Proof.
  destruct j as [|[|]|n|s|[|x l]|[|[key x] l]]; unfold stringify; cbn [print].
  - by exists "nul", "l"%char.
  - by exists "tru", "e"%char.
  - by exists "fals", "e"%char.
  - unfold print_num. rewrite app_empty_r.
    destruct n as [|p|p]; simpl.
    + by exists "", "0"%char.
    + rewrite JSONFacts.string_of_uint_pos.
      apply ends_anchor_uint, DecimalPos.Unsigned.to_uint_nonnil.
    + rewrite JSONFacts.string_of_uint_pos.
      apply ends_anchor_cons, ends_anchor_uint,
        DecimalPos.Unsigned.to_uint_nonnil.
  - unfold quote. apply ends_anchor_cons.
    rewrite <- (app_empty_l (String dquote "")), escape_app.
    apply ends_anchor_app. by exists "", dquote.
  - by exists "[", "]"%char.
  - apply ends_anchor_cons, ends_anchor_print.
    induction l as [|y l IH]; cbn [fold_right].
    + by exists "", "]"%char.
    + by apply ends_anchor_cons, ends_anchor_print.
  - by exists "{", "}"%char.
  - apply ends_anchor_cons, ends_anchor_quote, ends_anchor_cons,
      ends_anchor_print.
    induction l as [|m l IH]; cbn [fold_right].
    + by exists "", "}"%char.
    + by apply ends_anchor_cons, ends_anchor_quote, ends_anchor_cons,
        ends_anchor_print.
Qed.

Lemma value_start_anchor c : value_start c = true -> anchor c = true.
Proof. by destruct c as [[|] [|] [|] [|] [|] [|] [|] [|]]. Qed.

Lemma stringify_head j :
  exists c r, stringify j = String c r /\ anchor c = true.
Proof.
  destruct (JSONFacts.print_head j "") as (c & r & E & Hc).
  exists c, r. split; [done | by apply value_start_anchor].
Qed.

End PrintFacts.

(** *** [trim] *)

Section TrimFacts.

Lemma anchor_bounds c :
  anchor c = true <-> (33 <= N_of_ascii c < 127)%N.
Proof.
  unfold anchor. rewrite andb_true_iff, N.leb_le, N.ltb_lt. done.
Qed.

(** Case analysis on the tests of [strip_space], and the tests as
    propositions on the codes of the characters. *)
Ltac split_ifs :=
  repeat match goal with
    | |- context [if ?b then _ else _] => destruct b eqn:?
    end.

Ltac bool_props :=
  repeat progress
    rewrite ?orb_true_iff, ?andb_true_iff, ?orb_false_iff, ?andb_false_iff,
      ?N.eqb_eq, ?N.eqb_neq, ?N.leb_le, ?N.leb_gt, ?N.ltb_lt, ?N.ltb_ge in *.

Lemma not_anchor_bounds c :
  negb (anchor c) = true <-> (N_of_ascii c < 33 \/ 127 <= N_of_ascii c)%N.
Proof.
  unfold anchor. rewrite negb_true_iff, andb_false_iff, N.leb_gt, N.ltb_ge. done.
Qed.

Lemma strip_space_anchor c r : anchor c = true -> strip_space (String c r) = None.
Proof.
  intros H%anchor_bounds. unfold strip_space. cbv zeta.
  destruct r as [|b [|d r2]]; split_ifs; try done; exfalso; bool_props; lia.
Qed.

Lemma strip_space_blank c r :
  (9 <= N_of_ascii c <= 13)%N \/ N_of_ascii c = 32%N ->
  strip_space (String c r) = Some r.
Proof.
  intros H. unfold strip_space.
  replace ((9 <=? N_of_ascii c)%N && (N_of_ascii c <=? 13)%N
           || (N_of_ascii c =? 32)%N) with true; [done|].
  symmetry. apply orb_true_iff. rewrite andb_true_iff, !N.leb_le, N.eqb_eq. lia.
Qed.

Lemma space_char_bounds c :
  space_char c = true -> (9 <= N_of_ascii c <= 13)%N \/ N_of_ascii c = 32%N.
Proof.
  unfold space_char, blank_char, CR, LF.
  intros H. repeat apply orb_true_iff in H as [H|H];
    apply Ascii.eqb_eq in H; subst c; vm_compute; intuition congruence.
Qed.

Lemma blank_space_char c : blank_char c = true -> space_char c = true.
Proof. unfold space_char. by intros ->. Qed.

Lemma trim_start_spaces pre rest fuel :
  string_forallb space_char pre = true ->
  strip_space rest = None ->
  (String.length pre <= fuel)%nat ->
  trim_start_fuel fuel (pre +:+ rest) = rest.
Proof.
  revert fuel. induction pre as [|c pre IH]; intros fuel Hpre Hrest Hfuel.
  - rewrite app_empty_l. destruct fuel; [done|]. simpl. by rewrite Hrest.
  - cbn [string_forallb] in Hpre. apply andb_true_iff in Hpre as [Hc Hpre].
    destruct fuel as [|fuel]; [simpl in Hfuel; lia|].
    rewrite app_String. cbn [trim_start_fuel].
    rewrite strip_space_blank by (by apply space_char_bounds).
    apply IH; [done | done | simpl in Hfuel; lia].
Qed.

Lemma trimStart_spaces pre rest :
  string_forallb space_char pre = true ->
  strip_space rest = None ->
  trimStart (pre +:+ rest) = rest.
Proof.
  intros Hpre Hrest. unfold trimStart. apply trim_start_spaces; [done..|].
  rewrite length_app_str. lia.
Qed.

Lemma trimStart_all_spaces s :
  string_forallb space_char s = true -> trimStart s = "".
Proof.
  intros H. rewrite <- (app_empty_r s) at 1. by apply trimStart_spaces.
Qed.

Lemma trimEnd_all_spaces s :
  string_forallb space_char s = true -> trimEnd s = "".
Proof.
  intros H. destruct s as [|c s]; [done|].
  cbn [trimEnd]. by rewrite (trimStart_all_spaces _ H).
Qed.

(** What [strip_space] removes has no [anchor]. *)
Lemma strip_space_inv s r :
  strip_space s = Some r ->
  exists p, s = p +:+ r /\ p <> "" /\
            string_forallb (fun c => negb (anchor c)) p = true.
Proof.
  unfold strip_space. cbv zeta.
  destruct s as [|a [|b [|c r2]]]; split_ifs; try done; intros [= <-];
    first [ exists (String a ""); split; [reflexivity|]
          | exists (String a (String b "")); split; [reflexivity|]
          | exists (String a (String b (String c ""))); split; [reflexivity|] ];
    (split; [done|]); cbn [string_forallb];
    rewrite ?andb_true_iff, ?not_anchor_bounds; bool_props;
    repeat split; lia.
Qed.

Lemma prefix_before_anchor p : forall a z b r,
  a +:+ String z b = p +:+ r ->
  anchor z = true ->
  string_forallb (fun c => negb (anchor c)) p = true ->
  exists a', a = p +:+ a' /\ r = a' +:+ String z b.
Proof.
  induction p as [|c p IH]; intros a z b r E Hz Hp.
  - exists a. by rewrite !app_empty_l in *.
  - cbn [string_forallb] in Hp. apply andb_true_iff in Hp as [Hc Hp].
    destruct a as [|x a].
    + rewrite app_empty_l, app_String in E. injection E as -> _.
      by rewrite Hz in Hc.
    + rewrite !app_String in E. injection E as -> E.
      destruct (IH a z b r E Hz Hp) as (a' & -> & ->).
      exists a'. done.
Qed.

Lemma strip_space_has_anchor s r :
  has_anchor s -> strip_space s = Some r -> has_anchor r.
Proof.
  intros (a & z & b & -> & Hz) (p & E & _ & Hp)%strip_space_inv.
  destruct (prefix_before_anchor p a z b r E Hz Hp) as (a' & _ & ->).
  by exists a', z, b.
Qed.

Lemma trim_start_has_anchor fuel : forall s,
  has_anchor s -> has_anchor (trim_start_fuel fuel s).
Proof.
  induction fuel as [|fuel IH]; intros s H; [done|].
  cbn [trim_start_fuel]. destruct (strip_space s) as [r|] eqn:E; [|done].
  by apply IH, (strip_space_has_anchor s).
Qed.

Lemma trimStart_has_anchor s :
  has_anchor s -> String.eqb (trimStart s) "" = false.
Proof.
  intros H. apply (trim_start_has_anchor (String.length s)) in H.
  fold (trimStart s) in H. destruct H as (a & z & b & -> & _).
  by destruct a.
Qed.

Lemma trimEnd_anchor a z trail :
  anchor z = true ->
  string_forallb space_char trail = true ->
  trimEnd (a +:+ String z trail) = a +:+ String z "".
Proof.
  intros Hz Htrail. induction a as [|c a IH].
  - rewrite !app_empty_l. cbn [trimEnd].
    rewrite trimStart_has_anchor by (by exists "", z, trail).
    by rewrite trimEnd_all_spaces.
  - rewrite !app_String. cbn [trimEnd].
    rewrite trimStart_has_anchor by (by exists (String c a), z, trail).
    by rewrite IH.
Qed.

Lemma trim_document pre j trail :
  string_forallb space_char pre = true ->
  string_forallb space_char trail = true ->
  trim (pre +:+ JSON.stringify j +:+ trail) = JSON.stringify j.
Proof.
  intros Hpre Htrail. unfold trim.
  destruct (stringify_head j) as (c & r & Ec & Hc).
  destruct (ends_anchor_stringify j) as (a & z & Ez & Hz).
  rewrite trimStart_spaces; [|done|].
  - rewrite Ez at 1. rewrite app_assoc_str, app_String, app_empty_l.
    by rewrite trimEnd_anchor, <- Ez.
  - rewrite Ec, app_String. by apply strip_space_anchor.
Qed.

Lemma trim_all_spaces s : string_forallb space_char s = true -> trim s = "".
Proof. intros H. unfold trim. by rewrite trimStart_all_spaces. Qed.

End TrimFacts.

(** *** The lines of a text *)

Section LinesFacts.

Lemma split_lines_char c r :
  line_char c = true ->
  split_lines (String c r)
  = match split_lines r with
    | l :: ls => String c l :: ls
    | [] => [String c ""]
    end.
Proof.
  unfold line_char. intros [H1 H2]%andb_true_iff.
  apply negb_true_iff in H1, H2. cbn [split_lines]. rewrite H1, H2.
  by destruct r.
Qed.

Lemma split_lines_last s :
  string_forallb line_char s = true -> split_lines s = [s].
Proof.
  induction s as [|c s IH]; [done|]. cbn [string_forallb].
  intros [Hc Hs]%andb_true_iff. by rewrite split_lines_char, IH.
Qed.

Lemma split_lines_eol s e rest :
  string_forallb line_char s = true ->
  split_lines (s +:+ eol_text e +:+ rest) = s :: split_lines rest.
Proof.
  induction s as [|c s IH].
  - intros _. by destruct e.
  - cbn [string_forallb]. intros [Hc Hs]%andb_true_iff.
    by rewrite app_String, split_lines_char, IH.
Qed.

Lemma printable_line_char c : printable c = true -> line_char c = true.
Proof. by destruct c as [[|] [|] [|] [|] [|] [|] [|] [|]]. Qed.

Lemma blank_line_char c : blank_char c = true -> line_char c = true.
Proof. by destruct c as [[|] [|] [|] [|] [|] [|] [|] [|]]. Qed.

Lemma line_text_chars l :
  well_spaced l = true -> string_forallb line_char (line_text l) = true.
Proof.
  unfold well_spaced, blank, line_text. intros [H1 H2]%andb_true_iff.
  rewrite !forallb_app.
  rewrite (forallb_impl _ _ _ blank_line_char H1),
    (forallb_impl _ _ _ blank_line_char H2), andb_true_r. simpl.
  destruct (line_doc l) as [j|]; [|done].
  apply (forallb_impl printable); [apply printable_line_char|].
  apply stringify_printable.
Qed.

Lemma split_lines_plan_text lines last :
  Forall (fun l => well_spaced l = true) (map fst lines ++ [last]) ->
  split_lines (plan_text lines last) = map line_text (map fst lines ++ [last]).
Proof.
  induction lines as [|[l e] lines IH]; cbn [map app plan_text fst].
  - intros [H _]%Forall_cons. by apply split_lines_last, line_text_chars.
  - intros [H Hl]%Forall_cons.
    rewrite split_lines_eol by (by apply line_text_chars). by rewrite IH.
Qed.

Lemma trim_line_text l :
  well_spaced l = true -> trim (line_text l) = doc_text (line_doc l).
Proof.
  unfold well_spaced, blank, line_text. intros [H1 H2]%andb_true_iff.
  pose proof (forallb_impl _ _ _ blank_space_char H1) as H1'.
  pose proof (forallb_impl _ _ _ blank_space_char H2) as H2'.
  destruct (line_doc l) as [j|]; cbn [doc_text].
  - by apply trim_document.
  - apply trim_all_spaces. by rewrite !forallb_app, H1', H2'.
Qed.

Lemma stringify_not_empty j : JSON.stringify j <> "".
Proof. destruct (stringify_head j) as (c & r & -> & _). done. Qed.

Lemma nonempty_trimmed_lines (lines : list plan_line) :
  Forall (fun l => well_spaced l = true) lines ->
  filter (fun line => line <> EmptyString) (map trim (map line_text lines))
  = map JSON.stringify (docs_of lines).
Proof.
  unfold docs_of. induction 1 as [|l lines Hl _ IH]; [done|].
  cbn [map omap list_omap]. rewrite filter_cons, trim_line_text, IH by done.
  destruct (line_doc l) as [j|]; cbn [doc_text].
  - rewrite decide_True by apply stringify_not_empty. done.
  - by rewrite decide_False by (by intros H; apply H).
Qed.

Lemma parse_lines_stringify docs :
  parse_lines (map JSON.stringify docs) = Ok docs.
Proof.
  induction docs as [|j docs IH]; [done|].
  cbn [map parse_lines]. by rewrite JSONFacts.parse_stringify, IH.
Qed.

(** The lines of a text of white space have white space only. *)
Lemma split_lines_spaces n : forall s,
  (String.length s <= n)%nat ->
  string_forallb space_char s = true ->
  Forall (fun l => string_forallb space_char l = true) (split_lines s).
Proof.
  induction n as [|n IH]; intros s Hn Hs.
  - destruct s; [|simpl in Hn; lia]. by repeat constructor.
  - destruct s as [|c r]; [by repeat constructor|].
    cbn [string_forallb] in Hs. apply andb_true_iff in Hs as [Hc Hr].
    assert (Forall (fun l => string_forallb space_char l = true)
              (split_lines r)) as Hrec.
    { apply IH; [simpl in Hn; lia | done]. }
    cbn [split_lines]. destruct (Ascii.eqb c LF).
    { by constructor. }
    destruct r as [|c' r'].
    { constructor; [|constructor]. cbn [string_forallb]. by rewrite Hc. }
    destruct (Ascii.eqb c CR && Ascii.eqb c' LF).
    { constructor; [done|]. cbn [string_forallb] in Hr.
      apply andb_true_iff in Hr as [_ Hr].
      apply IH; [simpl in Hn; lia | done]. }
    destruct (split_lines (String c' r')) as [|l ls].
    + constructor; [|constructor]. cbn [string_forallb]. by rewrite Hc.
    + apply Forall_cons in Hrec as [Hl Hls].
      constructor; [|done]. cbn [string_forallb]. by rewrite Hc, Hl.
Qed.

Lemma no_lines_of_spaces (lines : list string) :
  Forall (fun l => string_forallb space_char l = true) lines ->
  filter (fun line => line <> EmptyString) (map trim lines) = [].
Proof.
  induction 1 as [|l lines Hl _ IH]; [done|].
  cbn [map]. rewrite filter_cons, trim_all_spaces, IH by done.
  by rewrite decide_False by (by intros H; apply H).
Qed.

End LinesFacts.

(** X12.  The text of a publish plan is read line by line.  A text made
    of lines that end with a line feed, with or without a carriage return
    before it, and of a last line without terminator, where a line is a
    JSON document as [JSON.stringify] writes it or nothing, with spaces and
    tabs before and after, is read as the array of the documents of its
    lines, in their order: the lines without a document are skipped, and
    the array is then validated by [PublishPlanSchema]. *)
Theorem plan_is_one_document_per_line (P : Platform)
  (files : gmap string string) (file : string)
  (lines : list (plan_line * eol)) (last : plan_line) :
  Forall (fun l => well_spaced l = true) (map fst lines ++ [last]) ->
  files !! file = Some (plan_text lines last) ->
  parsePublishPlan P files file
  = PublishPlanSchema (formats P) (JArr (docs_of (map fst lines ++ [last]))).
Proof.
  intros Hl Hf. unfold parsePublishPlan, readFile. rewrite Hf.
  cbn [mbind result_bind bind].
  rewrite split_lines_plan_text, nonempty_trimmed_lines by done.
  by rewrite parse_lines_stringify.
Qed.

Lemma plan_is_one_document_per_line_witness :
  let doc handle :=
    JObj [("handle", JStr handle); ("id", JStr "clock");
          ("widget",
           JObj [("version", JStr "1.0.0");
                 ("repo", JStr "https://example.com/r.git");
                 ("commit", JStr Sample.commit)]);
          ("manifest",
           JObj [("name", JStr "Clock"); ("version", JStr "1.0.0");
                 ("authors", JArr [JStr "A"]); ("license", JStr "MIT");
                 ("description", JStr "A clock");
                 ("homepage", JStr "https://example.com")])] in
  let lines :=
    [({| line_indent := "  "; line_doc := Some (doc "acme"); line_trail := " " |},
      EolCRLF);
     ({| line_indent := ""; line_doc := None; line_trail := " " |}, EolLF);
     ({| line_indent := ""; line_doc := Some (doc "zeta"); line_trail := "" |},
      EolLF)] in
  let last := {| line_indent := ""; line_doc := None; line_trail := "" |} in
  parsePublishPlan Sample.platform {[ "plan.jsonl" := plan_text lines last ]}
    "plan.jsonl"
  = PublishPlanSchema (formats Sample.platform)
      (JArr (docs_of (map fst lines ++ [last]))).
Proof.
  intros doc lines last.
  apply (plan_is_one_document_per_line Sample.platform
           {[ "plan.jsonl" := plan_text lines last ]} "plan.jsonl" lines last).
  - repeat constructor.
  - apply lookup_singleton_eq.
Defined.

(** X13.  A plan without entries.  When the text of the plan is empty or
    has white space only (spaces, tabs, line terminators), the plan is the
    empty array, and the run, with the three variables set, pushes nothing:
    whatever [fs.rm], the check-out and the push tool would do, the script
    reads the index after [fs.mkdir] and writes it back with [api] 1, the
    time of the clock, which no tool has advanced, as [generatedAt], and
    the widgets it had, sorted. *)
Theorem run_of_an_empty_plan (P : Platform) (Ext : Type) (T : Tools Ext)
  (env : gmap string string) (w0 w1 : World Ext) (content : string)
  (index : RegistryIndex.t) :
  let dir := REGISTRY_DIR env in
  let indexFile := path_join P dir "index.json" in
  require_env env ["GHCR_REPO_PREFIX"; "PUBLISH_PLAN_PATH"; "REGISTRY_DIR"]
  = Ok tt ->
  files w0 !! PUBLISH_PLAN_PATH env = Some content ->
  string_forallb space_char content = true ->
  fs_mkdir T dir w0 = Ok w1 ->
  parseRegistryIndex P (files w1) dir = Ok index ->
  parsePublishPlan P (files w0) (PUBLISH_PLAN_PATH env) = Ok [] /\
  main P Ext T env w0
  = Ok (mkWorld
          (<[indexFile :=
               JSON.stringify
                 (index_value
                    (RegistryIndex.mk 1 (toISOString P (clock w0))
                       (array_sort (compare_entries P)
                          (RegistryIndex.widgets index))))]> (files w1))
          (clock w1) (ext w1)).
Proof.
  intros dir indexFile Henv Hf Hs Hmk Hidx.
  assert (parsePublishPlan P (files w0) (PUBLISH_PLAN_PATH env) = Ok []) as Hplan.
  { unfold parsePublishPlan, readFile. rewrite Hf.
    cbn [mbind result_bind bind].
    by rewrite (no_lines_of_spaces _
                  (split_lines_spaces _ content (le_n _) Hs)). }
  split; [done|].
  rewrite (main_after_loop P Ext T env w0 [] [] w0) by done.
  unfold update_registry. fold dir. rewrite Hmk.
  cbn [mbind result_bind bind]. by rewrite Hidx.
Qed.

Lemma run_of_an_empty_plan_witness :
  let w0 : World bool :=
    mkWorld (<[ "registry/index.json" :=
                  JSON.stringify
                    (index_value
                       (RegistryIndex.mk 1 "2025-11-01T00:00:00.000Z"
                          [Sample.stub "zeta" "dial"; Sample.entry1])) ]>
               {[ "plan.jsonl" := String LF (String " " (String CR (String LF ""))) ]})
            1762153200123 false in
  parsePublishPlan Sample.platform (files w0) (PUBLISH_PLAN_PATH Sample.env)
  = Ok [] /\
  main Sample.platform bool Sample.tools Sample.env w0
  = Ok (mkWorld
          (<[path_join Sample.platform (REGISTRY_DIR Sample.env) "index.json" :=
               JSON.stringify
                 (index_value
                    (RegistryIndex.mk 1
                       (toISOString Sample.platform (clock w0))
                       (array_sort (compare_entries Sample.platform)
                          [Sample.stub "zeta" "dial"; Sample.entry1])))]>
             (files (Sample.tick 1 w0)))
          (clock (Sample.tick 1 w0)) (ext (Sample.tick 1 w0))).
Proof.
  intros w0.
  apply (run_of_an_empty_plan Sample.platform bool Sample.tools Sample.env w0
           (Sample.tick 1 w0)
           (String LF (String " " (String CR (String LF ""))))
           (RegistryIndex.mk 1 "2025-11-01T00:00:00.000Z"
              [Sample.stub "zeta" "dial"; Sample.entry1])).
  - vm_compute. reflexivity.
  - vm_compute. reflexivity.
  - vm_compute. reflexivity.
  - reflexivity.
  - vm_compute. reflexivity.
Defined.

(** ** Objects as records: the properties and the map that zod returns *)

Section FieldFacts.

Lemma field_fold k o acc :
  fold_left (fun acc m => if String.eqb (fst m) k then Some (snd m) else acc)
            o acc
  = match field k o with
    | Some v => Some v
    | None => acc
    end.
Proof.
  unfold field. revert acc. induction o as [|m o IH]; intros acc; [done|].
  cbn [fold_left].
  rewrite (IH (if String.eqb (fst m) k then Some (snd m) else acc)),
    (IH (if String.eqb (fst m) k then Some (snd m) else None)).
  destruct (fold_left _ o None); [done|].
  by destruct (String.eqb (fst m) k).
Qed.

Lemma field_cons k (m : string * json) o :
  field k (m :: o)
  = match field k o with
    | Some v => Some v
    | None => if String.eqb (fst m) k then Some (snd m) else None
    end.
Proof. unfold field at 1. cbn [fold_left]. apply field_fold. Qed.

Lemma field_none k o : field k o = None <-> k ∉ map fst o.
Proof.
  induction o as [|m o IH].
  - split; [intros _; apply not_elem_of_nil | done].
  - rewrite field_cons. cbn [map]. rewrite not_elem_of_cons, <- IH.
    destruct (field k o) as [v|].
    + split; [done | by intros [_ ?]].
    + destruct (String.eqb_spec (fst m) k) as [E|E].
      * split; [done | intros [H _]; congruence].
      * split; [intros _; split; [congruence | done] | done].
Qed.

Lemma props_keys o k : k ∈ map fst (props o) <-> k ∈ map fst o.
Proof.
  induction o as [|m o IH]; [done|]. cbn [props map].
  destruct (existsb (fun m' => String.eqb (fst m') (fst m)) o) eqn:E.
  - rewrite IH, elem_of_cons. split; [by right|]. intros [->|H]; [|done].
    apply existsb_exists in E as (m' & Hin & Hm').
    apply String.eqb_eq in Hm'. rewrite <- Hm'.
    apply (list_elem_of_fmap_2 fst). by apply list_elem_of_In.
  - cbn [map]. by rewrite !elem_of_cons, IH.
Qed.

Lemma props_NoDup o : NoDup (map fst (props o)).
Proof.
  induction o as [|m o IH]; [constructor|]. cbn [props].
  destruct (existsb (fun m' => String.eqb (fst m') (fst m)) o) eqn:E; [done|].
  cbn [map]. apply NoDup_cons. split; [|done].
  rewrite props_keys. intros (m' & Hm' & Hin)%list_elem_of_fmap.
  assert (existsb (fun m' => String.eqb (fst m') (fst m)) o = true) as E'.
  { apply existsb_exists. exists m'. split; [by apply list_elem_of_In|].
    by apply String.eqb_eq. }
  congruence.
Qed.

Lemma field_props k o : field k (props o) = field k o.
Proof.
  induction o as [|m o IH]; [done|]. cbn [props].
  destruct (existsb (fun m' => String.eqb (fst m') (fst m)) o) eqn:E.
  - rewrite IH, field_cons. destruct (field k o) as [v|] eqn:Ek; [done|].
    destruct (String.eqb_spec (fst m) k) as [<-|]; [|done].
    exfalso. apply field_none in Ek. apply Ek.
    apply existsb_exists in E as (m' & Hin & Hm').
    apply String.eqb_eq in Hm'. rewrite <- Hm'.
    apply (list_elem_of_fmap_2 fst). by apply list_elem_of_In.
  - by rewrite !field_cons, IH.
Qed.

Lemma optional_field {A} k (s : schema A) o a :
  optional k s o = Ok a ->
  match field k o with
  | Some v => exists x, s v = Ok x /\ a = Some x
  | None => a = None
  end.
Proof.
  unfold optional. destruct (field k o) as [v|]; [|by intros [= <-]].
  intros H. apply is_ok_at_seg_ok in H.
  apply bind_ok in H as (x & Hx & [= <-]). eauto.
Qed.

Lemma z_string_ok j s : z_string j = Ok s -> j = JStr s.
Proof. destruct j; try done. by intros [= <-]. Qed.

Lemma z_int_ok j n : z_int j = Ok n -> j = JNum n.
Proof.
  destruct j as [| |m| | |]; try done. simpl.
  destruct ((- MAX_SAFE_INTEGER <=? m) && (m <=? MAX_SAFE_INTEGER)); [|done].
  by intros [= <-].
Qed.

Lemma z_entries_lookup {A} (ks : schema string) (vs : schema A) o :
  (forall k k', ks (JStr k) = Ok k' -> k' = k) ->
  NoDup (map fst o) ->
  forall l, z_entries ks vs o = Ok l ->
  forall k,
    if String.eqb k "__proto__" then (list_to_map l : gmap string A) !! k = None
    else
      match field k o with
      | Some v =>
          exists a, ks (JStr k) = Ok k /\ vs v = Ok a /\
                    (list_to_map l : gmap string A) !! k = Some a
      | None => (list_to_map l : gmap string A) !! k = None
      end.
Proof.
  intros Hks. induction o as [|[p v] o IH]; intros Hnd l H k; simpl in H.
  - injection H as <-. by destruct (String.eqb k "__proto__").
  - cbn [map fst] in Hnd. apply NoDup_cons in Hnd as [Hp Hnd].
    rewrite field_cons. cbn [fst snd].
    destruct (String.eqb_spec p "__proto__") as [->|Hproto].
    + specialize (IH Hnd l H k).
      destruct (String.eqb k "__proto__") eqn:Ek; [done|].
      destruct (field k o) as [x|]; [done|].
      rewrite String.eqb_sym in Ek. by rewrite Ek.
    + apply bind_ok in H as ([kv r] & Hb & [= <-]).
      apply both_ok in Hb as [Hkv Hr]. apply is_ok_at_seg_ok in Hkv.
      destruct (ks (JStr p)) as [p'|] eqn:Ekey; [|done].
      apply Hks in Ekey as Ep. subst p'.
      apply bind_ok in Hkv as (a & Ha & [= <-]).
      specialize (IH Hnd r Hr k).
      cbn [list_to_map foldr]. cbn [fst snd uncurry].
      destruct (String.eqb k "__proto__") eqn:Ek.
      * apply String.eqb_eq in Ek. rewrite lookup_insert_ne by congruence. done.
      * destruct (String.eqb_spec p k) as [<-|Hne].
        -- apply field_none in Hp. rewrite Hp.
           exists a. by rewrite lookup_insert_eq.
        -- rewrite lookup_insert_ne by done.
           by destruct (field k o).
Qed.

(** The map of a record has, at a key, the value of the property of that
    key, validated; it has nothing at the key [__proto__]. *)
Lemma record_lookup {A} (ks : schema string) (vs : schema A) o m :
  (forall k k', ks (JStr k) = Ok k' -> k' = k) ->
  z_record ks vs (JObj o) = Ok m ->
  forall k,
    if String.eqb k "__proto__" then m !! k = None
    else
      match field k o with
      | Some v => exists a, ks (JStr k) = Ok k /\ vs v = Ok a /\ m !! k = Some a
      | None => m !! k = None
      end.
Proof.
  intros Hks H k. unfold z_record, z_object in H.
  apply bind_ok in H as (l & Hl & [= <-]).
  rewrite <- (field_props k o).
  by apply (z_entries_lookup ks vs (props o) Hks (props_NoDup o)).
Qed.

Lemma z_string_key k k' : z_string (JStr k) = Ok k' -> k' = k.
Proof. by intros [= <-]. Qed.

End FieldFacts.

(** X14.  The result of a push is what the push tool printed.  A
    document that [OrasPushOutputSchema] accepts is an object that has the
    properties [mediaType], [digest], [size], [reference] and
    [referenceAsTags], and the [mediaType], [digest], [size] and
    [reference] of the result are the values of these properties.  The
    [created] annotation that the script looks up in the result is the
    value of that key in the object under [annotations], and there is none
    when the document has no [annotations] or these have no such key. *)
Theorem push_result_is_the_output (F : Formats) (j : json)
  (pushResult : OrasPushOutput.t) :
  OrasPushOutputSchema F j = Ok pushResult ->
  exists o,
    j = JObj o /\
    field "mediaType" o = Some (JStr (OrasPushOutput.mediaType pushResult)) /\
    field "digest" o = Some (JStr (OrasPushOutput.digest pushResult)) /\
    field "size" o = Some (JNum (OrasPushOutput.size pushResult)) /\
    field "reference" o = Some (JStr (OrasPushOutput.reference pushResult)) /\
    (exists tags, field "referenceAsTags" o = Some (JArr tags)) /\
    createdAt pushResult
    = match field "annotations" o with
      | Some (JObj a) =>
          match field "org.opencontainers.image.created" a with
          | Some (JStr created) => Some created
          | _ => None
          end
      | _ => None
      end.
Proof.
  intros H. destruct j as [| | | | |o]; try done.
  exists o. split; [done|]. unfold OrasPushOutputSchema, z_object in H.
  apply bind_ok in H
    as ((mediaType & digest & size & urls & annotations & data & platform
         & artifactType & reference & tags) & Hb & [= <-]).
  apply both_ok in Hb as [Hmedia Hb]. apply both_ok in Hb as [Hdigest Hb].
  apply both_ok in Hb as [Hsize Hb]. apply both_ok in Hb as [_ Hb].
  apply both_ok in Hb as [Hann Hb]. apply both_ok in Hb as [_ Hb].
  apply both_ok in Hb as [_ Hb]. apply both_ok in Hb as [_ Hb].
  apply both_ok in Hb as [Href Htags].
  apply required_ok in Hmedia as (v1 & -> & ->%z_string_ok).
  apply required_ok in Hdigest as (v2 & -> & ->%z_string_ok).
  apply required_ok in Hsize as (v3 & -> & ->%z_int_ok).
  apply required_ok in Href as (v4 & -> & ->%z_string_ok).
  apply required_ok in Htags as (v5 & -> & (tl & -> & _)%z_array_ok).
  repeat (split; [done|]). split; [by exists tl|].
  unfold createdAt. cbn [OrasPushOutput.annotations].
  apply optional_field in Hann.
  destruct (field "annotations" o) as [v|]; [|by rewrite Hann].
  destruct Hann as (m & Hm & ->). cbn.
  destruct v as [| | | | |a]; try done.
  pose proof (record_lookup z_string z_string a m z_string_key Hm CREATED) as Hc.
  cbn [String.eqb Ascii.eqb Bool.eqb CREATED] in Hc. fold CREATED in Hc.
  fold CREATED.
  destruct (field CREATED a) as [c|]; [|done].
  destruct Hc as (x & _ & ->%z_string_ok & Hx). done.
Qed.

Lemma push_result_is_the_output_witness :
  exists pushResult,
    OrasPushOutputSchema Sample.string_formats
      (Sample.push_output (Some "2025-11-03T07:00:05.124Z")
         "ghcr.io/acme/acme/clock:v1.0.0")
    = Ok pushResult /\
    createdAt pushResult = Some "2025-11-03T07:00:05.124Z" /\
    exists o,
      Sample.push_output (Some "2025-11-03T07:00:05.124Z")
        "ghcr.io/acme/acme/clock:v1.0.0" = JObj o /\
      field "mediaType" o = Some (JStr (OrasPushOutput.mediaType pushResult)) /\
      field "digest" o = Some (JStr (OrasPushOutput.digest pushResult)) /\
      field "size" o = Some (JNum (OrasPushOutput.size pushResult)) /\
      field "reference" o = Some (JStr (OrasPushOutput.reference pushResult)) /\
      (exists tags, field "referenceAsTags" o = Some (JArr tags)) /\
      createdAt pushResult
      = match field "annotations" o with
        | Some (JObj a) =>
            match field "org.opencontainers.image.created" a with
            | Some (JStr created) => Some created
            | _ => None
            end
        | _ => None
        end.
Proof.
  eexists. split; [vm_compute; reflexivity|]. split; [vm_compute; reflexivity|].
  apply (push_result_is_the_output Sample.string_formats).
  vm_compute. reflexivity.
Defined.

(** ** What the schemas of widgets return *)

Lemma z_regex_ok r j s :
  z_regex r j = Ok s -> j = JStr s /\ Regex.test r s = true.
Proof.
  intros [H1 H2]%z_check_ok. by apply z_string_ok in H1.
Qed.

Lemma z_format_ok f j s : z_format f j = Ok s -> j = JStr s /\ f s = true.
Proof.
  intros [H1 H2]%z_check_ok. by apply z_string_ok in H1.
Qed.

(** X15.  A widget that [WidgetSchema] returns is the widget that the
    object declares.  The object has a [version], which is the version of
    the widget and matches [SEMVER_REGEX]; a [commit], which is the commit
    of the widget and has the format of a SHA-1 or of a SHA-256 hash; a
    [repo] that is a URL, of which the widget has the string that the URL
    check returns; and the path of the widget is the [path] of the object,
    a string, when the object has one. *)
Theorem widget_is_as_declared (F : Formats) (j : json) (widget : Widget.t) :
  WidgetSchema F j = Ok widget ->
  exists o repo,
    j = JObj o /\
    field "version" o = Some (JStr (Widget.version widget)) /\
    Regex.test SEMVER_REGEX (Widget.version widget) = true /\
    field "repo" o = Some (JStr repo) /\
    fmt_url F repo = Some (Widget.repo widget) /\
    field "commit" o = Some (JStr (Widget.commit widget)) /\
    fmt_hash_sha1 F (Widget.commit widget)
    || fmt_hash_sha256 F (Widget.commit widget) = true /\
    match field "path" o with
    | Some v => exists p, v = JStr p /\ Widget.path widget = Some p
    | None => Widget.path widget = None
    end.
Proof.
  destruct j as [| | | | |o]; try done. unfold WidgetSchema, z_object.
  intros H. apply bind_ok in H as ((version & repo & commit & path) & Hb & [= <-]).
  apply both_ok in Hb as [Hv Hb]. apply both_ok in Hb as [Hr Hb].
  apply both_ok in Hb as [Hc Hp].
  apply required_ok in Hv as (v1 & Ev & [-> Hv]%z_regex_ok).
  apply required_ok in Hr as (v2 & Er & (repo0 & -> & Hr)%z_url_ok).
  apply required_ok in Hc as (v3 & Ec & Hc).
  apply optional_field in Hp.
  exists o, repo0. cbn [Widget.version Widget.repo Widget.commit Widget.path].
  split; [done|]. split; [done|]. split; [done|]. split; [done|].
  split; [done|].
  assert (v3 = JStr commit /\
          fmt_hash_sha1 F commit || fmt_hash_sha256 F commit = true)
    as [-> Hh].
  { apply z_union_ok in Hc as [[-> Hc]%z_format_ok|[-> Hc]%z_format_ok];
      (split; [done|]); rewrite Hc; [done | apply orb_true_r]. }
  split; [done|]. split; [done|].
  destruct (field "path" o) as [v|]; [|done].
  destruct Hp as (p & ->%z_string_ok & ->). by exists p.
Qed.

Lemma widget_is_as_declared_witness :
  exists o repo,
    JObj [("version", JStr "1.0.0");
          ("repo", JStr "https://example.com/r.git");
          ("commit", JStr Sample.commit)] = JObj o /\
    field "version" o = Some (JStr (Widget.version Sample.widget)) /\
    Regex.test SEMVER_REGEX (Widget.version Sample.widget) = true /\
    field "repo" o = Some (JStr repo) /\
    fmt_url Sample.string_formats repo = Some (Widget.repo Sample.widget) /\
    field "commit" o = Some (JStr (Widget.commit Sample.widget)) /\
    fmt_hash_sha1 Sample.string_formats (Widget.commit Sample.widget)
    || fmt_hash_sha256 Sample.string_formats (Widget.commit Sample.widget)
    = true /\
    match field "path" o with
    | Some v => exists p, v = JStr p /\ Widget.path Sample.widget = Some p
    | None => Widget.path Sample.widget = None
    end.
Proof.
  apply (widget_is_as_declared Sample.string_formats
           (JObj [("version", JStr "1.0.0");
                  ("repo", JStr "https://example.com/r.git");
                  ("commit", JStr Sample.commit)])
           Sample.widget).
  vm_compute. reflexivity.
Defined.

(** X16.  The widgets of a file are keyed by safe ids.  When
    [WidgetsSchema] returns a map for an object, the map has a widget at a
    key exactly when the object has a property of that key and the key is
    not [__proto__], a property that zod skips; the key then matches
    [SAFE_ID_REGEX] and the widget is what [WidgetSchema] returns for the
    value of the property. *)
Theorem widgets_are_keyed_by_safe_ids (F : Formats) (o : list (string * json))
  (widgets : gmap string Widget.t) (k : string) :
  WidgetsSchema F (JObj o) = Ok widgets ->
  if String.eqb k "__proto__" then widgets !! k = None
  else
    match field k o with
    | Some v =>
        Regex.test SAFE_ID_REGEX k = true /\
        exists widget, WidgetSchema F v = Ok widget /\ widgets !! k = Some widget
    | None => widgets !! k = None
    end.
Proof.
  intros H. unfold WidgetsSchema in H.
  pose proof (record_lookup (z_regex SAFE_ID_REGEX) (WidgetSchema F) o widgets)
    as Hl.
  specialize (Hl (fun k k' Hk => eq_sym (f_equal (fun j => match j with
                                                            | JStr s => s
                                                            | _ => k
                                                            end)
                                           (proj1 (z_regex_ok _ _ _ Hk))))
                 H k).
  destruct (String.eqb k "__proto__"); [done|].
  destruct (field k o) as [v|]; [|done].
  destruct Hl as (w & [_ Hk]%z_regex_ok & Hw & Hm). eauto.
Qed.

Lemma widgets_are_keyed_by_safe_ids_witness :
  let o :=
    [("clock",
      JObj [("version", JStr "1.0.0");
            ("repo", JStr "https://example.com/r.git");
            ("commit", JStr Sample.commit)]);
     ("__proto__", JNull)] in
  let widgets : gmap string Widget.t := {[ "clock" := Sample.widget ]} in
  WidgetsSchema Sample.string_formats (JObj o) = Ok widgets /\
  Regex.test SAFE_ID_REGEX "__proto__" = true /\
  widgets !! "__proto__" = None /\
  Regex.test SAFE_ID_REGEX "clock" = true /\
  exists widget,
    WidgetSchema Sample.string_formats
      (JObj [("version", JStr "1.0.0");
             ("repo", JStr "https://example.com/r.git");
             ("commit", JStr Sample.commit)]) = Ok widget /\
    widgets !! "clock" = Some widget.
Proof.
  intros o widgets.
  assert (WidgetsSchema Sample.string_formats (JObj o) = Ok widgets) as H
    by (vm_compute; reflexivity).
  split; [exact H|]. split; [vm_compute; reflexivity|].
  split.
  - apply (widgets_are_keyed_by_safe_ids Sample.string_formats o widgets
             "__proto__" H).
  - apply (widgets_are_keyed_by_safe_ids Sample.string_formats o widgets
             "clock" H).
Defined.

(** ** More on the schemas: publishers and manifests *)

Section MoreFieldFacts.

Lemma field_app k (o1 o2 : list (string * json)) :
  field k (o1 ++ o2)
  = match field k o2 with
    | Some v => Some v
    | None => field k o1
    end.
Proof. unfold field at 1. rewrite fold_left_app. apply field_fold. Qed.

Lemma field_insert_other k k' x (o1 o2 : list (string * json)) :
  k <> k' -> field k' (o1 ++ (k, x) :: o2) = field k' (o1 ++ o2).
Proof.
  intros Hk. rewrite !field_app, field_cons. cbn [fst snd].
  destruct (field k' o2); [done|].
  by destruct (String.eqb_spec k k').
Qed.

Lemma required_insert_other {A} k k' x (s : schema A) o1 o2 :
  k <> k' -> required k' s (o1 ++ (k, x) :: o2) = required k' s (o1 ++ o2).
Proof. intros H. unfold required. by rewrite field_insert_other. Qed.

Lemma is_ok_check {A} (s : schema A) ok j :
  is_ok (z_check s ok j) = match s j with Ok a => ok a | Err _ => false end.
Proof. unfold z_check. destruct (s j) as [a|]; [|done]. simpl. by destruct (ok a). Qed.

Lemma is_ok_optional {A} k (s : schema A) o :
  is_ok (optional k s o)
  = match field k o with Some v => is_ok (s v) | None => true end.
Proof.
  unfold optional. destruct (field k o) as [v|]; [|done].
  rewrite is_ok_at_seg. by destruct (s v).
Qed.

Lemma defined_optional {A} k (s : schema A) o a :
  optional k s o = Ok a -> defined a = defined (field k o).
Proof.
  intros H%optional_field. destruct (field k o) as [v|]; [|by subst].
  by destruct H as (x & _ & ->).
Qed.

Lemma required_max k len n o s :
  field k o = Some (JStr s) ->
  required k (z_max len n) o
  = if (len s <=? n)%nat then Ok s else Err (ZodError [[Key k]]).
Proof.
  intros H. unfold required, z_max, z_check. rewrite H. simpl.
  by destruct (len s <=? n)%nat.
Qed.

(** A string has at least as many UTF-16 code units as code points. *)
Lemma code_points_le_js_length s : (code_points s <= js_length s)%nat.
Proof.
  induction s as [|c s IH]; [done|]. cbn [code_points js_length].
  assert ((if code_point_start c then 1 else 0) <= utf16_units c)%nat; [|lia].
  unfold code_point_start, utf16_units.
  destruct ((128 <=? N_of_ascii c)%N && (N_of_ascii c <? 192)%N); cbn; [lia|].
  destruct (240 <=? N_of_ascii c)%N; lia.
Qed.

End MoreFieldFacts.

(** X17.  The schema of a publisher.  [PublisherSchema] accepts an object
    exactly when each of the properties [organization] and [user] that it
    has is a safe integer, [extraMaintainers], if it has it, is an array
    of safe integers, and it has exactly one of [organization] and [user].
    The publisher that the schema returns has the values of these
    properties.  A value that is not an object is rejected. *)
Theorem publisher_is_one_of_two (o : list (string * json)) :
  is_ok (PublisherSchema (JObj o))
  = match field "organization" o with Some v => is_ok (z_int v) | None => true end
    && match field "user" o with Some v => is_ok (z_int v) | None => true end
    && match field "extraMaintainers" o with
       | Some v => is_ok (z_array z_int v)
       | None => true
       end
    && xorb (defined (field "organization" o)) (defined (field "user" o)) /\
  (forall publisher,
     PublisherSchema (JObj o) = Ok publisher ->
     match field "organization" o with
     | Some v => exists n, v = JNum n /\ Publisher.organization publisher = Some n
     | None => Publisher.organization publisher = None
     end /\
     match field "user" o with
     | Some v => exists n, v = JNum n /\ Publisher.user publisher = Some n
     | None => Publisher.user publisher = None
     end /\
     match field "extraMaintainers" o with
     | Some v =>
         exists l, v = JArr (map JNum l) /\
                   Publisher.extraMaintainers publisher = Some l
     | None => Publisher.extraMaintainers publisher = None
     end) /\
  (forall j, is_ok (PublisherSchema j) = true -> exists o', j = JObj o').
Proof.
  split; [|split].
  - unfold PublisherSchema. rewrite is_ok_check. unfold z_object.
    destruct (both (optional "organization" z_int o) _)
      as [(org & user & extra)|e] eqn:E.
    + apply both_ok in E as [Horg E]. apply both_ok in E as [Huser Hextra].
      cbn [mbind result_bind bind Publisher.organization Publisher.user].
      rewrite (defined_optional _ _ _ _ Horg), (defined_optional _ _ _ _ Huser).
      pose proof (is_ok_optional "organization" z_int o) as H1.
      pose proof (is_ok_optional "user" z_int o) as H2.
      pose proof (is_ok_optional "extraMaintainers" (z_array z_int) o) as H3.
      rewrite Horg in H1. rewrite Huser in H2. rewrite Hextra in H3.
      by rewrite <- H1, <- H2, <- H3.
    + cbn [mbind result_bind bind].
      pose proof (f_equal is_ok E) as H. rewrite !is_ok_both in H.
      rewrite !is_ok_optional in H. cbn [is_ok] in H.
      rewrite andb_assoc in H. by rewrite H.
  - intros p H. unfold PublisherSchema in H. apply z_check_ok in H as [H _].
    unfold z_object in H.
    apply bind_ok in H as ((org & user & extra) & Hb & [= <-]).
    apply both_ok in Hb as [Horg Hb]. apply both_ok in Hb as [Huser Hextra].
    apply optional_field in Horg, Huser, Hextra.
    cbn [Publisher.organization Publisher.user Publisher.extraMaintainers].
    split; [|split].
    + destruct (field "organization" o) as [v|]; [|done].
      destruct Horg as (n & ->%z_int_ok & ->). by exists n.
    + destruct (field "user" o) as [v|]; [|done].
      destruct Huser as (n & ->%z_int_ok & ->). by exists n.
    + destruct (field "extraMaintainers" o) as [v|]; [|done].
      destruct Hextra as (l & (js & -> & H2)%z_array_ok & ->).
      exists l. split; [|done]. f_equal.
      induction H2 as [|x n js l ->%z_int_ok _ IH]; [done|].
      cbn [map]. by rewrite IH.
  - intros j H. destruct j as [| | | | |o']; try done. by exists o'.
Qed.

Lemma publisher_is_one_of_two_witness :
  let o := [("user", JNum 42); ("extraMaintainers", JArr [JNum 7; JNum 8])] in
  let publisher := Publisher.mk None (Some 42) (Some [7; 8]) in
  match field "organization" o with
  | Some v => exists n, v = JNum n /\ Publisher.organization publisher = Some n
  | None => Publisher.organization publisher = None
  end /\
  match field "user" o with
  | Some v => exists n, v = JNum n /\ Publisher.user publisher = Some n
  | None => Publisher.user publisher = None
  end /\
  match field "extraMaintainers" o with
  | Some v =>
      exists l, v = JArr (map JNum l) /\
                Publisher.extraMaintainers publisher = Some l
  | None => Publisher.extraMaintainers publisher = None
  end.
Proof.
  intros o publisher.
  apply (proj1 (proj2 (publisher_is_one_of_two o)) publisher).
  vm_compute. reflexivity.
Defined.

(** X18.  The limits of a manifest.  A manifest that
    [WidgetManifestSchema] returns has the strings of the properties
    [name], [version], [license] and [description] of the object; its name
    has at most 80 and its description at most 160 code points; its version
    matches [SEMVER_REGEX]; it has at least one author, each of them
    accepted by the schema of an author; and its homepage is what the URL
    check returns of the [homepage] of the object.  An object whose [name]
    is a string of more than 80 code points, or whose [description] is a
    string of more than 160, is rejected with an issue at that property.
    The length that zod compares is taken to be at least the number of code
    points, as the number of UTF-16 code units is. *)
Theorem manifest_is_within_limits (F : Formats) (o : list (string * json)) :
  (forall s, (code_points s <= fmt_length F s)%nat) ->
  (forall manifest,
     WidgetManifestSchema F (JObj o) = Ok manifest ->
     field "name" o = Some (JStr (WidgetManifest.name manifest)) /\
     (code_points (WidgetManifest.name manifest) <= 80)%nat /\
     field "version" o = Some (JStr (WidgetManifest.version manifest)) /\
     Regex.test SEMVER_REGEX (WidgetManifest.version manifest) = true /\
     field "license" o = Some (JStr (WidgetManifest.license manifest)) /\
     field "description" o = Some (JStr (WidgetManifest.description manifest)) /\
     (code_points (WidgetManifest.description manifest) <= 160)%nat /\
     WidgetManifest.authors manifest <> [] /\
     (exists l,
        field "authors" o = Some (JArr l) /\
        Forall2 (fun x a => WidgetManifestAuthorSchema F x = Ok a) l
                (WidgetManifest.authors manifest)) /\
     (exists h,
        field "homepage" o = Some (JStr h) /\
        fmt_url F h = Some (WidgetManifest.homepage manifest))) /\
  (forall s,
     field "name" o = Some (JStr s) -> (80 < code_points s)%nat ->
     In [Key "name"] (issues (WidgetManifestSchema F (JObj o))) /\
     is_ok (WidgetManifestSchema F (JObj o)) = false) /\
  (forall s,
     field "description" o = Some (JStr s) -> (160 < code_points s)%nat ->
     In [Key "description"] (issues (WidgetManifestSchema F (JObj o))) /\
     is_ok (WidgetManifestSchema F (JObj o)) = false).
Proof.
  intros Hlen. split; [|split].
  - intros m H. unfold WidgetManifestSchema, z_object in H.
    apply bind_ok in H
      as ((name & version & authors & license & description & homepage)
          & Hb & [= <-]).
    apply both_ok in Hb as [Hn Hb]. apply both_ok in Hb as [Hv Hb].
    apply both_ok in Hb as [Ha Hb]. apply both_ok in Hb as [Hl Hb].
    apply both_ok in Hb as [Hd Hh].
    apply required_ok in Hn as (v1 & E1 & [->%z_string_ok Hn]%z_check_ok).
    apply required_ok in Hv as (v2 & E2 & [-> Hv]%z_regex_ok).
    apply required_ok in Ha as (v3 & E3 & [Ha Hne]%z_check_ok).
    apply required_ok in Hl as (v4 & E4 & ->%z_string_ok).
    apply required_ok in Hd as (v5 & E5 & [->%z_string_ok Hd]%z_check_ok).
    apply required_ok in Hh as (v6 & E6 & (h & -> & Hh)%z_url_ok).
    apply z_array_ok in Ha as (l & -> & Ha).
    apply Nat.leb_le in Hn, Hd.
    pose proof (Hlen name). pose proof (Hlen description).
    cbn [WidgetManifest.name WidgetManifest.version WidgetManifest.authors
         WidgetManifest.license WidgetManifest.description
         WidgetManifest.homepage].
    split; [done|]. split; [lia|]. split; [done|].
    split; [done|]. split; [done|]. split; [done|].
    split; [lia|]. split; [by destruct authors|].
    split; [by exists l | by exists h].
  - intros s Hs Hlong. pose proof (Hlen s).
    assert (required "name" (z_max (fmt_length F) 80) o
            = Err (ZodError [[Key "name"]])) as Hreq.
    { rewrite (required_max _ _ _ _ s Hs).
      destruct (Nat.leb_spec (fmt_length F s) 80); [lia | done]. }
    unfold WidgetManifestSchema, z_object. split.
    + rewrite issues_bind by (by intros (?&?&?&?&?&?)).
      rewrite issues_both by zod_only. rewrite Hreq. by left.
    + rewrite is_ok_bind by (by intros (?&?&?&?&?&?)).
      by rewrite is_ok_both, Hreq.
  - intros s Hs Hlong. pose proof (Hlen s).
    assert (required "description" (z_max (fmt_length F) 160) o
            = Err (ZodError [[Key "description"]])) as Hreq.
    { rewrite (required_max _ _ _ _ s Hs).
      destruct (Nat.leb_spec (fmt_length F s) 160); [lia | done]. }
    unfold WidgetManifestSchema, z_object. split.
    + rewrite issues_bind by (by intros (?&?&?&?&?&?)).
      rewrite !issues_both by zod_only. rewrite Hreq.
      rewrite !in_app_iff. right. right. right. right. left. by left.
    + rewrite is_ok_bind by (by intros (?&?&?&?&?&?)).
      rewrite !is_ok_both, Hreq. cbn [is_ok]. by rewrite !andb_false_r.
Qed.

Lemma manifest_is_within_limits_witness :
  let letters := Nat.iter 81 (String "a") "" in
  let o :=
    [("name", JStr letters); ("version", JStr "1.0.0");
     ("authors", JArr [JStr "A"]); ("license", JStr "MIT");
     ("description", JStr "A clock");
     ("homepage", JStr "https://example.com")] in
  In [Key "name"] (issues (WidgetManifestSchema Sample.string_formats (JObj o))) /\
  is_ok (WidgetManifestSchema Sample.string_formats (JObj o)) = false.
Proof.
  intros letters o.
  apply (proj1 (proj2 (manifest_is_within_limits Sample.string_formats o
                         code_points_le_js_length))
           letters).
  - reflexivity.
  - vm_compute. lia.
Defined.

(** X19.  The manifest of a widget may have more than the schema names.
    [parseWidgetManifest] fails with the error of the read when the
    directory has no [deskulpt.widget.json]: the manifest is required,
    where the file of a publisher or of widgets is not.  When the file is
    the text of an object, a property whose key is none of [name],
    [version], [authors], [license], [description] and [homepage] has no
    effect on the result: the manifest is validated as if the property were
    not there. *)
Theorem manifest_ignores_other_properties (P : Platform)
  (files : gmap string string) (dir : string)
  (o1 o2 : list (string * json)) (k : string) (x : json) :
  let manifestFile := path_join P dir "deskulpt.widget.json" in
  (files !! manifestFile = None ->
   parseWidgetManifest P files dir = Err (ENOENT manifestFile)) /\
  (k ∉ ["name"; "version"; "authors"; "license"; "description"; "homepage"] ->
   files !! manifestFile = Some (JSON.stringify (JObj (o1 ++ (k, x) :: o2))) ->
   parseWidgetManifest P files dir
   = WidgetManifestSchema (formats P) (JObj (o1 ++ o2))).
Proof.
  intros manifestFile. unfold parseWidgetManifest, readFile. fold manifestFile.
  split.
  - by intros ->.
  - intros Hk ->. cbn [mbind result_bind bind].
    rewrite JSONFacts.parse_stringify. cbn [mbind result_bind bind].
    unfold WidgetManifestSchema, z_object.
    rewrite !(required_insert_other k) by set_solver. done.
Qed.

Lemma manifest_ignores_other_properties_witness :
  parseWidgetManifest Sample.platform
    {[ "widget/deskulpt.widget.json" :=
         JSON.stringify
           (JObj ([("name", JStr "Clock"); ("version", JStr "1.0.0")]
                  ++ ("entry", JStr "index.tsx")
                  :: [("authors", JArr [JStr "A"]); ("license", JStr "MIT");
                      ("description", JStr "A clock");
                      ("homepage", JStr "https://example.com")])) ]}
    "widget"
  = WidgetManifestSchema (formats Sample.platform)
      (JObj ([("name", JStr "Clock"); ("version", JStr "1.0.0")]
             ++ [("authors", JArr [JStr "A"]); ("license", JStr "MIT");
                 ("description", JStr "A clock");
                 ("homepage", JStr "https://example.com")])).
Proof.
  apply (manifest_ignores_other_properties Sample.platform
           {[ "widget/deskulpt.widget.json" :=
                JSON.stringify
                  (JObj ([("name", JStr "Clock"); ("version", JStr "1.0.0")]
                         ++ ("entry", JStr "index.tsx")
                         :: [("authors", JArr [JStr "A"]); ("license", JStr "MIT");
                             ("description", JStr "A clock");
                             ("homepage", JStr "https://example.com")])) ]}
           "widget"
           [("name", JStr "Clock"); ("version", JStr "1.0.0")]
           [("authors", JArr [JStr "A"]); ("license", JStr "MIT");
            ("description", JStr "A clock");
            ("homepage", JStr "https://example.com")]
           "entry" (JStr "index.tsx")).
  - rewrite !not_elem_of_cons. repeat split; try done. apply not_elem_of_nil.
  - apply lookup_singleton_eq.
Defined.

(** ** More on the push: the authors, the local layout, the command that
    is run *)

Lemma reference_has_colon dst version s :
  has_colon s = false -> dst +:+ ":v" +:+ version <> s.
Proof.
  intros Hs E. pose proof (has_colon_reference dst version) as H.
  rewrite E in H. congruence.
Qed.

Lemma oci_layout_in_push_args dst widget manifest dryRun :
  In "--oci-layout" (push_args dst widget manifest dryRun) <-> dryRun = true.
Proof.
  unfold push_args, standardAnnotations.
  cbn [flat_map annotation_args app fst snd].
  split.
  - destruct dryRun; [done|]. cbn [app In]. intros H. exfalso.
    repeat (destruct H as [H|H]; [try discriminate H|]); [|done].
    by apply (reference_has_colon dst (WidgetManifest.version manifest)
                "--oci-layout").
  - intros ->. cbn [app In]. tauto.
Qed.

Lemma command_line_tail dst widget manifest dryRun :
  exists before,
    push_args dst widget manifest dryRun
    = before ++ [dst +:+ ":v" +:+ WidgetManifest.version manifest;
                 "./"; "--no-tty"; "--format"; "json"] /\
    length before = (if dryRun then 22 else 21)%nat /\
    firstn 3 before = ["push"; "--artifact-type";
                       "application/vnd.deskulpt.widget.v1"].
Proof.
  unfold push_args, standardAnnotations.
  cbn [flat_map annotation_args app fst snd].
  destruct dryRun; cbn [app].
  - eexists (_ :: _ :: _ :: _ :: _ :: _ :: _ :: _ :: _ :: _ :: _ :: _ :: _
             :: _ :: _ :: _ :: _ :: _ :: _ :: _ :: _ :: _ :: []).
    cbn [app]. split; [reflexivity|]. split; reflexivity.
  - eexists (_ :: _ :: _ :: _ :: _ :: _ :: _ :: _ :: _ :: _ :: _ :: _ :: _
             :: _ :: _ :: _ :: _ :: _ :: _ :: _ :: _ :: []).
    cbn [app]. split; [reflexivity|]. split; reflexivity.
Qed.

(** X20.  The authors of the manifest go into the [authors] annotation as
    JSON, and they can be read back from it: the value of the annotation is
    on the command line of the push, [JSON.parse] of it is an array, and
    the schema of the authors of a manifest returns, for that array, the
    authors of the manifest, when each of them is valid for the schema. *)
Theorem authors_annotation_reads_back (F : Formats) (dst : string)
  (widget : Widget.t) (manifest : WidgetManifest.t) (dryRun : bool) :
  Forall (valid_author F) (WidgetManifest.authors manifest) ->
  exists value,
    In ("authors", Some value) (standardAnnotations widget manifest) /\
    In ("org.opencontainers.image.authors=" +:+ value)
       (push_args dst widget manifest dryRun) /\
    (j ← JSON.parse value; z_array (WidgetManifestAuthorSchema F) j)
    = Ok (WidgetManifest.authors manifest).
Proof.
  intros Hv.
  exists (JSON.stringify (JArr (map author_value (WidgetManifest.authors manifest)))).
  split; [|split].
  - unfold standardAnnotations. cbn [In]. tauto.
  - unfold push_args, standardAnnotations.
    cbn [flat_map annotation_args app fst snd].
    destruct dryRun; cbn [app In]; tauto.
  - rewrite JSONFacts.parse_stringify. cbn [mbind result_bind bind z_array].
    apply z_elements_values.
    eapply Forall_impl; [exact Hv | apply author_schema_value].
Qed.

Lemma authors_annotation_reads_back_witness :
  exists value,
    In ("authors", Some value)
       (standardAnnotations Sample.widget Sample.manifest2) /\
    In ("org.opencontainers.image.authors=" +:+ value)
       (push_args "ghcr.io/acme/acme/clock" Sample.widget Sample.manifest2 false) /\
    (j ← JSON.parse value;
     z_array (WidgetManifestAuthorSchema Sample.string_formats) j)
    = Ok (WidgetManifest.authors Sample.manifest2).
Proof.
  apply (authors_annotation_reads_back Sample.string_formats
           "ghcr.io/acme/acme/clock" Sample.widget Sample.manifest2 false).
  repeat constructor.
  - intros e [= <-]. vm_compute. reflexivity.
  - intros u [=].
Defined.

(** X21.  The shape of the command line.  It has the flag [--oci-layout]
    exactly in a dry run, whatever the widget, the manifest and the
    destination; and it ends with the reference of the artifact, which is
    the destination tagged with [v] and the version of the manifest, and
    with [./ --no-tty --format json], after 21 arguments, or 22 in a dry
    run. *)
Theorem command_line_of_push (dst : string) (widget : Widget.t)
  (manifest : WidgetManifest.t) (dryRun : bool) :
  (In "--oci-layout" (push_args dst widget manifest dryRun) <-> dryRun = true) /\
  exists before,
    push_args dst widget manifest dryRun
    = before ++ [dst +:+ ":v" +:+ WidgetManifest.version manifest;
                 "./"; "--no-tty"; "--format"; "json"] /\
    length before = (if dryRun then 22 else 21)%nat /\
    firstn 3 before = ["push"; "--artifact-type";
                       "application/vnd.deskulpt.widget.v1"].
Proof.
  split; [apply oci_layout_in_push_args | apply command_line_tail].
Qed.

Section PushedEntry.

Variable P : Platform.
Variable Ext : Type.
Variable T : Tools Ext.
Variable env : gmap string string.

Lemma stage_and_push_ok it w pushResult w' :
  stage_and_push P Ext T env it w = Ok (pushResult, w') ->
  let widget := PublishPlanEntry.widget it in
  let widgetDir :=
    match Widget.path widget with
    | None => TEMP_DIR P
    | Some p => path_join P (TEMP_DIR P) p
    end in
  let remote :=
    GHCR_REPO_PREFIX env +:+ "/" +:+ PublishPlanEntry.handle it +:+ "/"
    +:+ PublishPlanEntry.id it in
  exists w1 w2 stdout,
    fs_rm T (TEMP_DIR P) w = Ok w1 /\
    checkoutRepoAtCommit T (TEMP_DIR P) (Widget.repo widget)
      (Widget.commit widget) (Widget.path widget) w1 = Ok w2 /\
    exec T (ORAS_CLI env)
      (push_args remote widget (PublishPlanEntry.manifest it) false)
      widgetDir w2 = Ok (stdout, w') /\
    parseOrasPushOutput P stdout = Ok pushResult.
Proof.
  intros H widget widgetDir remote. unfold stage_and_push, push in H.
  apply bind_ok in H as (w1 & H1 & H).
  apply bind_ok in H as (w2 & H2 & H).
  apply bind_ok in H as ([stdout w3] & H3 & H).
  apply bind_ok in H as (r & H4 & [= <- <-]).
  exists w1, w2, stdout. done.
Qed.

End PushedEntry.

(** X22.  What an iteration of the loop over the plan has done when it
    succeeds.  The temporary directory was removed, the repository of the
    widget was checked out there at its commit, and the push tool was run
    once, in the temporary directory or in the path of the widget under
    it, with the command line of a push that is not a dry run to the
    repository [<GHCR_REPO_PREFIX>/<handle>/<id>].  The update has the
    handle, id, widget and manifest of the entry and the digest that the
    tool printed.  The reference on the command line is tagged with the
    version of the manifest, while the release that the update brings to
    the index has the version of the widget: the script does not compare
    the two. *)
Theorem entry_is_pushed_then_recorded (P : Platform) (Ext : Type)
  (T : Tools Ext) (env : gmap string string) (it : PublishPlanEntry.t)
  (w w' : World Ext) (u : RegistryUpdate.t) :
  publish_entry P Ext T env it w = Ok (u, w') ->
  let widget := PublishPlanEntry.widget it in
  let manifest := PublishPlanEntry.manifest it in
  let widgetDir :=
    match Widget.path widget with
    | None => TEMP_DIR P
    | Some p => path_join P (TEMP_DIR P) p
    end in
  let remote :=
    GHCR_REPO_PREFIX env +:+ "/" +:+ PublishPlanEntry.handle it +:+ "/"
    +:+ PublishPlanEntry.id it in
  let args := push_args remote widget manifest false in
  exists w1 w2 stdout pushResult,
    fs_rm T (TEMP_DIR P) w = Ok w1 /\
    checkoutRepoAtCommit T (TEMP_DIR P) (Widget.repo widget)
      (Widget.commit widget) (Widget.path widget) w1 = Ok w2 /\
    exec T (ORAS_CLI env) args widgetDir w2 = Ok (stdout, w') /\
    parseOrasPushOutput P stdout = Ok pushResult /\
    In (remote +:+ ":v" +:+ WidgetManifest.version manifest) args /\
    ~ In "--oci-layout" args /\
    u = RegistryUpdate.mk (PublishPlanEntry.handle it) (PublishPlanEntry.id it)
          widget manifest (RegistryUpdate.publishedAt u)
          (OrasPushOutput.digest pushResult) /\
    RegistryEntryRelease.version (releaseData u) = Widget.version widget.
Proof.
  intros H widget manifest widgetDir remote args. unfold publish_entry in H.
  apply bind_ok in H as ([r w3] & Hs & [= <- <-]).
  apply stage_and_push_ok in Hs as (w1 & w2 & stdout & H1 & H2 & H3 & H4).
  exists w1, w2, stdout, r.
  split; [done|]. split; [done|]. split; [done|]. split; [done|]. split.
  { destruct (command_line_tail remote widget manifest false) as (b & E & _).
    subst args. rewrite E. apply in_or_app. right. by left. }
  split.
  { subst args. by rewrite oci_layout_in_push_args. }
  done.
Qed.

Lemma entry_is_pushed_then_recorded_witness :
  exists u w',
    publish_entry Sample.platform bool Sample.tools Sample.env Sample.entry
      Sample.world_with_empty_index = Ok (u, w') /\
    exists (w1 w2 : World bool) stdout pushResult,
      fs_rm Sample.tools (TEMP_DIR Sample.platform)
        Sample.world_with_empty_index = Ok w1 /\
      checkoutRepoAtCommit Sample.tools (TEMP_DIR Sample.platform)
        (Widget.repo (PublishPlanEntry.widget Sample.entry))
        (Widget.commit (PublishPlanEntry.widget Sample.entry))
        (Widget.path (PublishPlanEntry.widget Sample.entry)) w1 = Ok w2 /\
      exec Sample.tools (ORAS_CLI Sample.env)
        (push_args
           (GHCR_REPO_PREFIX Sample.env +:+ "/"
            +:+ PublishPlanEntry.handle Sample.entry +:+ "/"
            +:+ PublishPlanEntry.id Sample.entry)
           (PublishPlanEntry.widget Sample.entry)
           (PublishPlanEntry.manifest Sample.entry) false)
        match Widget.path (PublishPlanEntry.widget Sample.entry) with
        | None => TEMP_DIR Sample.platform
        | Some p => path_join Sample.platform (TEMP_DIR Sample.platform) p
        end w2 = Ok (stdout, w') /\
      parseOrasPushOutput Sample.platform stdout = Ok pushResult /\
      In ((GHCR_REPO_PREFIX Sample.env +:+ "/"
           +:+ PublishPlanEntry.handle Sample.entry +:+ "/"
           +:+ PublishPlanEntry.id Sample.entry)
          +:+ ":v"
          +:+ WidgetManifest.version (PublishPlanEntry.manifest Sample.entry))
         (push_args
            (GHCR_REPO_PREFIX Sample.env +:+ "/"
             +:+ PublishPlanEntry.handle Sample.entry +:+ "/"
             +:+ PublishPlanEntry.id Sample.entry)
            (PublishPlanEntry.widget Sample.entry)
            (PublishPlanEntry.manifest Sample.entry) false) /\
      ~ In "--oci-layout"
          (push_args
             (GHCR_REPO_PREFIX Sample.env +:+ "/"
              +:+ PublishPlanEntry.handle Sample.entry +:+ "/"
              +:+ PublishPlanEntry.id Sample.entry)
             (PublishPlanEntry.widget Sample.entry)
             (PublishPlanEntry.manifest Sample.entry) false) /\
      u = RegistryUpdate.mk (PublishPlanEntry.handle Sample.entry)
            (PublishPlanEntry.id Sample.entry)
            (PublishPlanEntry.widget Sample.entry)
            (PublishPlanEntry.manifest Sample.entry)
            (RegistryUpdate.publishedAt u) (OrasPushOutput.digest pushResult) /\
      RegistryEntryRelease.version (releaseData u)
      = Widget.version (PublishPlanEntry.widget Sample.entry).
Proof.
  eexists _, _. split; [vm_compute; reflexivity|].
  apply (entry_is_pushed_then_recorded Sample.platform bool Sample.tools
           Sample.env Sample.entry Sample.world_with_empty_index).
  vm_compute. reflexivity.
Defined.

(** ** The schema of the plan and the schema of an author *)

Lemma zod_only_PublishPlanEntrySchema F j :
  zod_only (PublishPlanEntrySchema F j).
Proof.
  destruct j as [| | | | |o]; try done. unfold PublishPlanEntrySchema, z_object.
  match goal with |- zod_only (?r ≫= _) => assert (zod_only r) as Hr end.
  { repeat first
      [ apply zod_only_both
      | apply zod_only_required; intros ?
      | apply zod_only_string
      | apply zod_only_WidgetSchema
      | apply zod_only_WidgetManifestSchema ]. }
  destruct (both _ _) as [(?&?&?&?)|[]]; done.
Qed.

(** X23.  The plan is valid as a whole or not at all.  The entries that
    [PublishPlanSchema] returns are those of the elements of the array, in
    their order, each as [PublishPlanEntrySchema] returns it.  One element
    that the schema of an entry rejects makes the schema of the plan reject
    the array, with a [ZodError].  And when [parsePublishPlan] fails, for
    this or another reason, the script ends with its error, whatever the
    tools, which have no part in the result. *)
Theorem plan_is_valid_as_a_whole (P : Platform) (Ext : Type) (T : Tools Ext)
  (env : gmap string string) (w0 : World Ext) (data : list json) :
  (forall publishPlan,
     PublishPlanSchema (formats P) (JArr data) = Ok publishPlan ->
     Forall2 (fun x it => PublishPlanEntrySchema (formats P) x = Ok it)
             data publishPlan) /\
  (forall x,
     In x data -> is_ok (PublishPlanEntrySchema (formats P) x) = false ->
     exists l, PublishPlanSchema (formats P) (JArr data) = Err (ZodError l)) /\
  (forall e,
     require_env env ["GHCR_REPO_PREFIX"; "PUBLISH_PLAN_PATH"; "REGISTRY_DIR"]
     = Ok tt ->
     parsePublishPlan P (files w0) (PUBLISH_PLAN_PATH env) = Err e ->
     main P Ext T env w0 = Err e).
Proof.
  split; [|split].
  - intros plan H. unfold PublishPlanSchema in H.
    by apply z_array_ok in H as (l & [= <-] & H).
  - intros x Hin Hx. apply zod_only_error.
    + apply zod_only_array. intros j. apply zod_only_PublishPlanEntrySchema.
    + unfold PublishPlanSchema, z_array.
      apply (is_ok_elements_false _ _ x); [by apply list_elem_of_In | done].
  - intros e Henv Hplan. unfold main. rewrite Henv.
    cbn [mbind result_bind bind]. by rewrite Hplan.
Qed.

Lemma plan_is_valid_as_a_whole_witness :
  exists l,
    PublishPlanSchema (formats Sample.platform)
      (JArr [JObj [("handle", JStr "acme"); ("id", JStr "clock");
                   ("widget",
                    JObj [("version", JStr "1.0.0");
                          ("repo", JStr "https://example.com/r.git");
                          ("commit", JStr Sample.commit)]);
                   ("manifest",
                    JObj [("name", JStr "Clock"); ("version", JStr "1.0.0");
                          ("authors", JArr [JStr "A"]); ("license", JStr "MIT");
                          ("description", JStr "A clock");
                          ("homepage", JStr "https://example.com")])];
             JObj [("handle", JStr "zeta"); ("id", JStr "dial")]])
    = Err (ZodError l).
Proof.
  apply (proj1 (proj2 (plan_is_valid_as_a_whole Sample.platform bool
                         Sample.tools Sample.env Sample.world0 _))
           (JObj [("handle", JStr "zeta"); ("id", JStr "dial")])).
  - right. left. reflexivity.
  - vm_compute. reflexivity.
Defined.

(** X24.  An author is a string or an object with a name.
    [WidgetManifestAuthorSchema] returns an author exactly for a string,
    which is then the author, and for an object whose [name] is a string,
    whose [email], if it has one, is a string with the format of an email
    address, and whose [url], if it has one, is a URL; the author then has
    that name, that email and what the URL check returns.  Other
    properties of the object are dropped, and every other value is
    rejected. *)
Theorem author_is_a_string_or_an_object (F : Formats) (j : json)
  (a : WidgetManifestAuthor) :
  WidgetManifestAuthorSchema F j = Ok a <->
  (exists s, j = JStr s /\ a = AuthorString s) \/
  (exists o name email url,
     j = JObj o /\ a = AuthorObject name email url /\
     field "name" o = Some (JStr name) /\
     match field "email" o with
     | Some v => exists e, v = JStr e /\ fmt_email F e = true /\ email = Some e
     | None => email = None
     end /\
     match field "url" o with
     | Some v => exists u u', v = JStr u /\ fmt_url F u = Some u' /\ url = Some u'
     | None => url = None
     end).
Proof.
  split.
  - intros H. unfold WidgetManifestAuthorSchema in H.
    apply z_union_ok in H as [H|H].
    + apply bind_ok in H as (s & ->%z_string_ok & [= <-]). left. by exists s.
    + destruct j as [| | | | |o]; try done. unfold z_object in H.
      apply bind_ok in H as ((name & email & url) & Hb & [= <-]).
      apply both_ok in Hb as [Hn Hb]. apply both_ok in Hb as [He Hu].
      apply required_ok in Hn as (v & En & ->%z_string_ok).
      apply optional_field in He, Hu.
      right. exists o, name, email, url.
      split; [done|]. split; [done|]. split; [done|]. split.
      * destruct (field "email" o) as [v|]; [|done].
        destruct He as (e & [-> He]%z_format_ok & ->). by exists e.
      * destruct (field "url" o) as [v|]; [|done].
        destruct Hu as (u' & (u & -> & Hu)%z_url_ok & ->). by exists u, u'.
  - intros [(s & -> & ->)|(o & name & email & url & -> & -> & Hn & He & Hu)];
      [done|].
    unfold WidgetManifestAuthorSchema, z_union, z_object. cbn [z_string mbind
      result_bind bind invalid].
    assert (required "name" z_string o = Ok name) as ->.
    { unfold required. by rewrite Hn. }
    assert (optional "email" (z_format (fmt_email F)) o = Ok email) as ->.
    { unfold optional. destruct (field "email" o) as [v|]; [|by subst].
      destruct He as (e & -> & He & ->).
      unfold z_format, z_check. simpl. by rewrite He. }
    assert (optional "url" (z_url F) o = Ok url) as ->.
    { unfold optional. destruct (field "url" o) as [v|]; [|by subst].
      destruct Hu as (u & u' & -> & Hu & ->).
      unfold z_url. simpl. by rewrite Hu. }
    done.
Qed.

(** ** What the lookups return, and the index from one run to the next *)

Section Lookups.

Variable P : Platform.
Variable tree : string -> gmap string string.

Lemma parseWidgets_some entry commit widgets :
  parseWidgets P tree entry commit = Ok (Some widgets) ->
  exists data, WidgetsSchema (formats P) data = Ok widgets.
Proof.
  unfold parseWidgets, fileExistsAtCommit. cbn [mbind result_bind bind].
  destruct (negb _); [done|]. intros Hp.
  apply bind_ok in Hp as (content & _ & Hp).
  apply bind_ok in Hp as (data & _ & Hp).
  apply bind_ok in Hp as (r & Hr & [= <-]). by exists data.
Qed.

Lemma parsePublisher_some entry commit publisher :
  parsePublisher P tree entry commit = Ok (Some publisher) ->
  exists data, PublisherSchema data = Ok publisher.
Proof.
  unfold parsePublisher, fileExistsAtCommit. cbn [mbind result_bind bind].
  destruct (negb _); [done|]. intros Hp.
  apply bind_ok in Hp as (content & _ & Hp).
  apply bind_ok in Hp as (data & _ & Hp).
  apply bind_ok in Hp as (r & Hr & [= <-]). by exists data.
Qed.

End Lookups.

(** X25.  What the lookups return has been checked.  Every widget of the
    map that [parseWidgets] returns is under a key that matches
    [SAFE_ID_REGEX], has a version that matches [SEMVER_REGEX] and a commit
    with the format of a SHA-1 or of a SHA-256 hash.  The publisher that
    [parsePublisher] returns has exactly one of [organization] and [user],
    and its numbers are safe integers. *)
Theorem lookups_return_checked_values (P : Platform)
  (tree : string -> gmap string string) (entry commit : string) :
  (forall widgets id widget,
     parseWidgets P tree entry commit = Ok (Some widgets) ->
     widgets !! id = Some widget ->
     Regex.test SAFE_ID_REGEX id = true /\
     Regex.test SEMVER_REGEX (Widget.version widget) = true /\
     fmt_hash_sha1 (formats P) (Widget.commit widget)
     || fmt_hash_sha256 (formats P) (Widget.commit widget) = true) /\
  (forall publisher,
     parsePublisher P tree entry commit = Ok (Some publisher) ->
     (Publisher.organization publisher = None
      <-> Publisher.user publisher <> None) /\
     (forall n,
        Publisher.organization publisher = Some n
        \/ Publisher.user publisher = Some n
        \/ (exists l, Publisher.extraMaintainers publisher = Some l /\ In n l) ->
        - MAX_SAFE_INTEGER <= n <= MAX_SAFE_INTEGER)).
Proof.
  split.
  - intros widgets id widget (data & H)%parseWidgets_some Hid.
    destruct data as [| | | | |o]; try done.
    pose proof (record_lookup (z_regex SAFE_ID_REGEX) (WidgetSchema (formats P))
                  o widgets
                  (fun k k' Hk =>
                     eq_sym (f_equal (fun j => match j with
                                               | JStr s => s
                                               | _ => k
                                               end)
                               (proj1 (z_regex_ok _ _ _ Hk))))
                  H id) as Hl.
    destruct (String.eqb id "__proto__"); [congruence|].
    destruct (field id o) as [v|]; [|congruence].
    destruct Hl as (w & [_ Hk]%z_regex_ok & Hw & Hm).
    assert (w = widget) as -> by congruence.
    split; [done|].
    destruct v as [| | | | |ow]; try done. unfold WidgetSchema, z_object in Hw.
    apply bind_ok in Hw as ((version & repo & c & path) & Hb & [= <-]).
    apply both_ok in Hb as [Hv Hb]. apply both_ok in Hb as [_ Hb].
    apply both_ok in Hb as [Hc _].
    apply required_ok in Hv as (v1 & _ & [_ Hv]%z_regex_ok).
    apply required_ok in Hc as (v3 & _ & Hc).
    cbn [Widget.version Widget.commit]. split; [done|].
    apply z_union_ok in Hc as [[_ Hc]%z_format_ok|[_ Hc]%z_format_ok];
      rewrite Hc; [done | apply orb_true_r].
  - intros p (data & H)%parsePublisher_some.
    unfold PublisherSchema in H. apply z_check_ok in H as [H Hx].
    destruct data as [| | | | |o]; try done. unfold z_object in H.
    apply bind_ok in H as ((org & user & extra) & Hb & [= <-]).
    apply both_ok in Hb as [Horg Hb]. apply both_ok in Hb as [Huser Hextra].
    cbn [Publisher.organization Publisher.user Publisher.extraMaintainers] in *.
    split.
    + destruct org, user; cbn in Hx; try done; split; congruence.
    + apply optional_ok in Horg, Huser, Hextra.
      intros n [->|[->|(l & -> & Hin)]].
      * destruct Horg as [|(v & x & _ & Hv & [= <-])]; [done|].
        by apply z_int_bounds in Hv.
      * destruct Huser as [|(v & x & _ & Hv & [= <-])]; [done|].
        by apply z_int_bounds in Hv.
      * destruct Hextra as [|(v & x & _ & Hv & [= <-])]; [done|].
        apply z_array_ok in Hv as (js & _ & H2).
        induction H2 as [|j m js l Hj _ IH]; [done|].
        destruct Hin as [<-|Hin]; [by apply z_int_bounds in Hj | by apply IH].
Qed.

Lemma lookups_return_checked_values_witness :
  (Publisher.organization (Publisher.mk None (Some 42) None) = None
   <-> Publisher.user (Publisher.mk None (Some 42) None) <> None) /\
  (forall n,
     Publisher.organization (Publisher.mk None (Some 42) None) = Some n
     \/ Publisher.user (Publisher.mk None (Some 42) None) = Some n
     \/ (exists l,
           Publisher.extraMaintainers (Publisher.mk None (Some 42) None)
           = Some l /\ In n l) ->
     - MAX_SAFE_INTEGER <= n <= MAX_SAFE_INTEGER).
Proof.
  apply (proj2 (lookups_return_checked_values Sample.platform Sample.tree
                  "acme" Sample.commit)
           (Publisher.mk None (Some 42) None)).
  vm_compute. reflexivity.
Defined.

(** *** From one run to the next *)

Section Loadable.

Variable P : Platform.
Hypothesis url_stable :
  forall s u, fmt_url (formats P) s = Some u -> fmt_url (formats P) u = Some u.

Lemma manifest_schema_authors j manifest :
  WidgetManifestSchema (formats P) j = Ok manifest ->
  WidgetManifest.authors manifest <> [] /\
  Forall (valid_author (formats P)) (WidgetManifest.authors manifest).
Proof using url_stable.
  destruct j as [| | | | |o]; try done. unfold WidgetManifestSchema, z_object.
  intros H.
  apply bind_ok in H
    as ((name & version & authors & license & description & homepage)
        & Hb & [= <-]).
  apply both_ok in Hb as [_ Hb]. apply both_ok in Hb as [_ Hb].
  apply both_ok in Hb as [Ha _].
  apply required_ok in Ha as (v & _ & Ha).
  apply (min1_array_ok _ (valid_author (formats P))) in Ha; [done|].
  intros x a. by apply author_schema_valid.
Qed.

Lemma plan_schema_authors data plan :
  PublishPlanSchema (formats P) (JArr data) = Ok plan ->
  Forall (fun it =>
            WidgetManifest.authors (PublishPlanEntry.manifest it) <> [] /\
            Forall (valid_author (formats P))
                   (WidgetManifest.authors (PublishPlanEntry.manifest it)))
         plan.
Proof using url_stable.
  intros H. unfold PublishPlanSchema in H.
  apply z_array_ok in H as (l & [= <-] & H).
  induction H as [|x it data plan Hx _ IH]; constructor; [|done].
  destruct x as [| | | | |o]; try done.
  unfold PublishPlanEntrySchema, z_object in Hx.
  apply bind_ok in Hx as ((handle & id & widget & manifest) & Hb & [= <-]).
  apply both_ok in Hb as [_ Hb]. apply both_ok in Hb as [_ Hb].
  apply both_ok in Hb as [_ Hm].
  apply required_ok in Hm as (v & _ & Hm).
  by apply manifest_schema_authors in Hm.
Qed.

Lemma parsePublishPlan_ok fs file plan :
  parsePublishPlan P fs file = Ok plan ->
  exists data, PublishPlanSchema (formats P) (JArr data) = Ok plan.
Proof.
  unfold parsePublishPlan. intros H.
  apply bind_ok in H as (content & _ & H).
  apply bind_ok in H as (data & _ & H). by exists data.
Qed.

Lemma parseRegistryIndex_valid fs dir index :
  parseRegistryIndex P fs dir = Ok index -> valid_index (formats P) index.
Proof using url_stable.
  unfold parseRegistryIndex. intros H.
  apply bind_ok in H as (content & _ & H).
  apply bind_ok in H as (data & _ & H).
  by apply (index_schema_valid (formats P) url_stable) in H.
Qed.

End Loadable.

(** X26.  The index stays loadable from one run to the next.  Take a run
    in which the variables are set, the plan is read, its entries are
    pushed, and the index is read after [fs.mkdir].  When the [publishedAt]
    of every update of the run is a date for the schema, which the [created]
    annotation of the push tool has to be when the tool reports one, and so
    is the ISO string of the time of the update, the run succeeds and
    [parseRegistryIndex] reads from the registry directory that the run
    leaves the index that the run has built.  The authors of the updates
    need no hypothesis: they are those of the manifests of the plan, which
    [PublishPlanSchema] has checked; nor does the index that was read. *)
Theorem run_leaves_a_loadable_index (P : Platform) (Ext : Type)
  (T : Tools Ext) (env : gmap string string) (w0 w w1 : World Ext)
  (publishPlan : list PublishPlanEntry.t)
  (registryUpdatePlan : list RegistryUpdate.t) (index : RegistryIndex.t) :
  (forall s u, fmt_url (formats P) s = Some u -> fmt_url (formats P) u = Some u) ->
  require_env env ["GHCR_REPO_PREFIX"; "PUBLISH_PLAN_PATH"; "REGISTRY_DIR"]
  = Ok tt ->
  parsePublishPlan P (files w0) (PUBLISH_PLAN_PATH env) = Ok publishPlan ->
  publish_loop P Ext T env publishPlan w0 = Ok (registryUpdatePlan, w) ->
  fs_mkdir T (REGISTRY_DIR env) w = Ok w1 ->
  parseRegistryIndex P (files w1) (REGISTRY_DIR env) = Ok index ->
  Forall (fun u => fmt_iso_datetime (formats P) (RegistryUpdate.publishedAt u)
                   = true) registryUpdatePlan ->
  fmt_iso_datetime (formats P) (toISOString P (clock w)) = true ->
  exists w',
    main P Ext T env w0 = Ok w' /\
    parseRegistryIndex P (files w') (REGISTRY_DIR env)
    = Ok (update_index P (clock w) index registryUpdatePlan).
Proof.
  intros Hurl Henv Hplan Hloop Hmk Hidx Hdates Hnow.
  rewrite (main_after_loop P Ext T env w0 publishPlan registryUpdatePlan w)
    by done.
  unfold update_registry. rewrite Hmk. cbn [mbind result_bind bind].
  rewrite Hidx. cbn [mbind result_bind bind].
  eexists. split; [reflexivity|]. cbn [files].
  rewrite parse_written_index. apply index_schema_value.
  pose proof (parseRegistryIndex_valid P Hurl _ _ _ Hidx) as (Hapi & Hg & Hw).
  unfold valid_index, update_index, MAX_SAFE_INTEGER. cbn.
  split; [lia|]. split; [done|].
  rewrite array_sort_perm. apply valid_merge_loop; [done|].
  apply parsePublishPlan_ok in Hplan as (data & Hdata).
  apply (plan_schema_authors P Hurl) in Hdata.
  apply publish_loop_keys in Hloop. clear Hidx Hmk Hw.
  induction Hloop as [|it u plan ups (_ & _ & Hm) _ IH]; [constructor|].
  apply Forall_cons in Hdata as [[Ha Hva] Hdata].
  apply Forall_cons in Hdates as [Hd Hdates].
  constructor; [|by apply IH].
  unfold valid_update. by rewrite Hm.
Qed.

Lemma run_leaves_a_loadable_index_witness :
  let registryUpdatePlan :=
    [Sample.update1;
     RegistryUpdate.mk "zeta" "dial" Sample.widget Sample.manifest
       "2025-11-03T07:00:10.125Z" "sha256:0000"] in
  exists w,
    publish_loop Sample.platform bool Sample.tools Sample.env
      [Sample.entry; Sample.entry2] Sample.world_with_two_entries
    = Ok (registryUpdatePlan, w) /\
    exists w',
      main Sample.platform bool Sample.tools Sample.env
        Sample.world_with_two_entries = Ok w' /\
      parseRegistryIndex Sample.platform (files w') (REGISTRY_DIR Sample.env)
      = Ok (update_index Sample.platform (clock w) Sample.empty_index
              registryUpdatePlan).
Proof.
  intros registryUpdatePlan.
  eexists. split; [vm_compute; reflexivity|].
  eapply (run_leaves_a_loadable_index Sample.platform bool Sample.tools
            Sample.env Sample.world_with_two_entries _ _
            [Sample.entry; Sample.entry2] registryUpdatePlan
            Sample.empty_index).
  - intros s u. cbn.
    destruct (String.prefix "https://" s || String.prefix "http://" s) eqn:E;
      [|done].
    intros [= <-]. by rewrite E.
  - vm_compute. reflexivity.
  - vm_compute. reflexivity.
  - vm_compute. reflexivity.
  - vm_compute. reflexivity.
  - vm_compute. reflexivity.
  - repeat constructor.
  - vm_compute. reflexivity.
Defined.

(** X7.  The update keeps the index loadable.  Take an index that
    [RegistryIndexSchema] has returned and updates whose manifests
    [WidgetManifestSchema] has returned.  When the [publishedAt] of every
    update is a date for the schema and so is the ISO string of the time of
    the update, the index that the script builds is valid, and
    [parseRegistryIndex] reads back from the file that [writeRegistryIndex]
    wrote the very index that was written.  The URL check is taken to
    return its own results unchanged. *)
Theorem written_index_loads_again (P : Platform) (files : gmap string string)
  (dir : string) (now : Z) (index : RegistryIndex.t)
  (plan : list RegistryUpdate.t) :
  (forall s u, fmt_url (formats P) s = Some u -> fmt_url (formats P) u = Some u) ->
  returned_by (RegistryIndexSchema (formats P)) index ->
  Forall (fun it =>
            returned_by (WidgetManifestSchema (formats P))
                        (RegistryUpdate.manifest it) /\
            fmt_iso_datetime (formats P) (RegistryUpdate.publishedAt it) = true)
         plan ->
  fmt_iso_datetime (formats P) (toISOString P now) = true ->
  let written := update_index P now index plan in
  valid_index (formats P) written /\
  parseRegistryIndex P (writeRegistryIndex P files dir written) dir = Ok written.
Proof.
  intros Hurl [j Hj] Hp Hnow written.
  apply (index_schema_valid (formats P) Hurl) in Hj as (Hapi & Hg & Hw).
  assert (valid_index (formats P) written) as Hv.
  { subst written. unfold valid_index, update_index, MAX_SAFE_INTEGER. cbn.
    split; [lia|]. split; [done|].
    rewrite array_sort_perm. apply valid_merge_loop; [done|].
    eapply Forall_impl; [exact Hp|]. intros it [[jm Hm] Hd].
    apply (manifest_schema_authors P Hurl) in Hm as [Ha Hva]. done. }
  split; [done|].
  rewrite parse_written_index. by apply index_schema_value.
Qed.

Lemma written_index_loads_again_witness :
  let written :=
    update_index Sample.platform 0
      (RegistryIndex.mk 1 "2025-11-01T00:00:00.000Z" [Sample.stub "zeta" "dial"])
      [Sample.update1; Sample.update2] in
  valid_index (formats Sample.platform) written /\
  parseRegistryIndex Sample.platform
    (writeRegistryIndex Sample.platform ∅ "registry" written) "registry"
  = Ok written.
Proof.
  apply (written_index_loads_again Sample.platform ∅ "registry" 0
           (RegistryIndex.mk 1 "2025-11-01T00:00:00.000Z" [Sample.stub "zeta" "dial"])
           [Sample.update1; Sample.update2]).
  - intros s u. cbn.
    destruct (String.prefix "https://" s || String.prefix "http://" s) eqn:E;
      [|done].
    intros [= <-]. by rewrite E.
  - exists (index_value
              (RegistryIndex.mk 1 "2025-11-01T00:00:00.000Z"
                 [Sample.stub "zeta" "dial"])).
    vm_compute. reflexivity.
  - constructor; [|constructor; [|constructor]].
    + split; [|vm_compute; reflexivity].
      exists (JObj [("name", JStr "Clock"); ("version", JStr "1.0.0");
                    ("authors", JArr [JStr "A"]); ("license", JStr "MIT");
                    ("description", JStr "A clock");
                    ("homepage", JStr "https://example.com")]).
      vm_compute. reflexivity.
    + split; [|vm_compute; reflexivity].
      exists (JObj [("name", JStr "Clock 2"); ("version", JStr "1.1.0");
                    ("authors",
                     JArr [JObj [("name", JStr "B");
                                 ("email", JStr "b@example.com")]]);
                    ("license", JStr "MIT");
                    ("description", JStr "A better clock");
                    ("homepage", JStr "https://example.com")]).
      vm_compute. reflexivity.
  - vm_compute. reflexivity.
Defined.
